(** * darknet_ros: YoloObjectDetector

    A shallow embedding of [darknet_ros/src/YoloObjectDetector.cpp]: the
    frame ingestion callbacks, the three-slot buffer ring driven by
    [yolo()], the prediction averaging of [rememberNetwork] /
    [avgPredictions], the depth estimate of [getObjDepth], the box
    extraction loop of [detectInThread] and [publishInThread].

    Numbers.  C++ [int] values are [Z]; on non-negative operands the C
    operator [%] is [Z.rem].  C++ [float] / [double] values are modelled by
    [float] below: exact rationals extended with the two infinities and
    NaN.  Comparisons, truth tests and [std::isnormal] follow IEEE 754;
    rounding and signed zeros are not modelled, so every arithmetic
    statement below is a statement in exact arithmetic.

    Undefined behaviour.  Where the source reads or writes outside an
    array whose size depends on the data (the depth map, [roiBoxes_],
    the scores of a detection) or converts a non-representable float to
    [int], the model answers [None].  Arrays whose size is fixed at
    start-up ([predictions_], [avg_], the three ring slots, the
    per-class vectors) are lists of that size.

    Threads.  [yolo()] is a step function over its program points; the
    bodies of [fetchInThread] and [detectInThread], the two callbacks and
    the destructor are atomic actions that interleave with its steps.

    External code.  darknet ([network_predict], [get_network_boxes],
    [do_nms_obj], the image conversions), OpenCV, cv_bridge and actionlib
    are not part of the sources: their results are inputs of the model. *)

From Stdlib Require Import ZArith QArith Qabs Qround Lqa Lia Bool String.
From Stdlib Require Import Sorting.Sorted.
From stdpp Require Import base option list list_numbers.


(** ** Floating-point values *)

Module F.

Inductive float : Type :=
| NaN
| PInf
| NInf
| Fin (q : Q).

Definition zero : float := Fin 0.
Definition one : float := Fin 1.

Definition of_int (z : Z) : float := Fin (inject_Z z).

Definition Qlt_bool (a b : Q) : bool := negb (Qle_bool b a).

Definition opp (a : float) : float :=
  match a with
  | NaN => NaN
  | PInf => NInf
  | NInf => PInf
  | Fin q => Fin (- q)
  end.

Definition add (a b : float) : float :=
  match a, b with
  | NaN, _ | _, NaN => NaN
  | PInf, NInf | NInf, PInf => NaN
  | PInf, _ | _, PInf => PInf
  | NInf, _ | _, NInf => NInf
  | Fin p, Fin q => Fin (p + q)
  end.

Definition sub (a b : float) : float := add a (opp b).

(** Sign of a value that is known not to be NaN: [true] for negative. *)
Definition negative (a : float) : bool :=
  match a with
  | NInf => true
  | Fin q => Qlt_bool q 0
  | _ => false
  end.

Definition is_zero (a : float) : bool :=
  match a with
  | Fin q => Qeq_bool q 0
  | _ => false
  end.

Definition inf (neg : bool) : float := if neg then NInf else PInf.

Definition mul (a b : float) : float :=
  match a, b with
  | NaN, _ | _, NaN => NaN
  | Fin p, Fin q => Fin (p * q)
  | _, _ =>
      (* at least one infinity: 0 * inf is NaN, otherwise a signed infinity *)
      if is_zero a || is_zero b then NaN
      else inf (xorb (negative a) (negative b))
  end.

Definition div (a b : float) : float :=
  match a, b with
  | NaN, _ | _, NaN => NaN
  | Fin p, Fin q =>
      if Qeq_bool q 0
      then (if Qeq_bool p 0 then NaN else inf (Qlt_bool p 0))
      else Fin (p / q)
  | Fin _, _ => zero
  | _, Fin _ => inf (xorb (negative a) (negative b))
  | _, _ => NaN
  end.

(** IEEE comparisons: every comparison with NaN is false. *)
Definition ltb (a b : float) : bool :=
  match a, b with
  | NaN, _ | _, NaN => false
  | _, NInf => false
  | NInf, _ => true
  | PInf, _ => false
  | _, PInf => true
  | Fin p, Fin q => Qlt_bool p q
  end.

Definition gtb (a b : float) : bool := ltb b a.

Definition leb (a b : float) : bool :=
  match a, b with
  | NaN, _ | _, NaN => false
  | NInf, _ => true
  | _, PInf => true
  | _, NInf => false
  | PInf, _ => false
  | Fin p, Fin q => Qle_bool p q
  end.

Definition le (a b : float) : Prop := leb a b = true.

Definition lt (a b : float) : Prop := ltb a b = true.

(** The value lies in the closed interval [0,1]. *)
Definition in_unit (a : float) : Prop := le zero a /\ le a one.

(** A float used as a C++ condition: true unless it compares equal to 0
    (so NaN and the infinities are true). *)
Definition truthy (a : float) : bool := negb (is_zero a).

(** [FLT_MIN], the smallest positive normal [float]: 2^-126. *)
Definition FLT_MIN : Q := 1 # (2 ^ 126).

(** [std::isnormal]: neither zero, subnormal, infinite nor NaN. *)
Definition isnormal (a : float) : bool :=
  match a with
  | Fin q => Qle_bool FLT_MIN (Qabs q)
  | _ => false
  end.

(** Truncation toward zero. *)
Definition Qtrunc (q : Q) : Z := Z.quot (Qnum q) (Zpos (Qden q)).

Definition INT_MIN : Z := - 2 ^ 31.
Definition INT_MAX : Z := 2 ^ 31 - 1.

(** The conversion [(int) f].  It is defined only when the truncated value
    is representable in [int]; otherwise the source's behaviour is
    undefined and the model answers [None]. *)
Definition to_int (a : float) : option Z :=
  match a with
  | Fin q =>
      let z := Qtrunc q in
      if (INT_MIN <=? z)%Z && (z <=? INT_MAX)%Z then Some z else None
  | _ => None
  end.

(** Two values denote the same number (Leibniz equality up to the
    representation of the rational). *)
Definition same (a b : float) : Prop :=
  match a, b with
  | NaN, NaN | PInf, PInf | NInf, NInf => True
  | Fin p, Fin q => p == q
  | _, _ => False
  end.

End F.

Abbreviation float := F.float.

(** ** The three-slot buffer ring *)

Module Ring.

(** [buffIndex_ = (buffIndex_ + 1) % 3] at the head of every iteration of
    the loop in [yolo()]. *)
Definition advance (buffIndex_ : Z) : Z := Z.rem (buffIndex_ + 1) 3.

(** [fetchInThread] fills [buff_[buffIndex_]]. *)
Definition fetch_slot (buffIndex_ : Z) : Z := buffIndex_.

(** [detectInThread] reads [buffLetter_[(buffIndex_ + 2) % 3]]. *)
Definition detect_slot (buffIndex_ : Z) : Z := Z.rem (buffIndex_ + 2) 3.

(** [displayInThread] shows [buff_[(buffIndex_ + 1) % 3]]. *)
Definition display_slot (buffIndex_ : Z) : Z := Z.rem (buffIndex_ + 1) 3.

Definition slots (buffIndex_ : Z) : list Z :=
  [fetch_slot buffIndex_; detect_slot buffIndex_; display_slot buffIndex_].

(** The ring index after [n] iterations started at [b0]. *)
Fixpoint index_after (n : nat) (b0 : Z) : Z :=
  match n with
  | O => b0
  | S n' => advance (index_after n' b0)
  end.

Definition in_ring (i : Z) : Prop := (0 <= i < 3)%Z.

End Ring.

(** ** Matrices ([cv::Mat]) *)

Record Mat (A : Type) : Type := mkMat {
  rows : Z;
  cols : Z;
  data : list A
}.
Arguments mkMat {A} _ _ _.
Arguments rows {A} _.
Arguments cols {A} _.
Arguments data {A} _.

(** [m.at<T>(i0, i1)]: element [i1] of row [i0] of a continuous matrix.
    The access is unchecked in the source; outside the matrix the model
    answers [None]. *)
Definition Mat_at {A} (m : Mat A) (i0 i1 : Z) : option A :=
  if ((0 <=? i0) && (i0 <? rows m) && (0 <=? i1) && (i1 <? cols m))%Z
  then data m !! Z.to_nat (i0 * cols m + i1)
  else None.

(** ** Depth estimate of a bounding box: [getObjDepth] *)

Module Depth.

Section WithFrame.

(** The members read by [getObjDepth]. *)
Variable camDmapCopy_ : Mat float.
Variables frameWidth_ frameHeight_ : Z.

Definition refs : Z := 3.

(** The grid indices in the order of the two nested loops:
    [for (int i=1; i < refs+1; ++i)] outermost,
    [for (int j=1; j < refs+1; ++j)] innermost. *)
Definition grid : list (Z * Z) :=
  i ← seqZ 1 refs; j ← seqZ 1 refs; [(i, j)].

(** [xmin + j*(xmax-xmin)/(refs+1)], in the arithmetic of [F]: exact,
    where the source rounds each operation to [float]. *)
Definition coord (lo hi : float) (k : Z) : float :=
  F.add lo (F.div (F.mul (F.of_int k) (F.sub hi lo)) (F.of_int (refs + 1))).

(** One pass through the loop body up to the read of the depth map:
    [d = camDmapCopy_.at<float>((int)(y*frameHeight_), (int)(x*frameWidth_))]. *)
Definition sample (xmin xmax ymin ymax : float) (ij : Z * Z) : option float :=
  let x := coord xmin xmax ij.2 in
  let y := coord ymin ymax ij.1 in
  r ← F.to_int (F.mul y (F.of_int frameHeight_));
  c ← F.to_int (F.mul x (F.of_int frameWidth_));
  Mat_at camDmapCopy_ r c.

(** The loops: every reading that is [std::isnormal] is pushed on
    [depths]. *)
Fixpoint collect (xmin xmax ymin ymax : float) (pts : list (Z * Z))
    (depths : list float) : option (list float) :=
  match pts with
  | [] => Some depths
  | ij :: pts' =>
      d ← sample xmin xmax ymin ymax ij;
      collect xmin xmax ymin ymax pts'
        (if F.isnormal d then depths ++ [d] else depths)
  end.

(** [std::sort(depths.begin(), depths.end())], as insertion sort on [<]. *)
Fixpoint insert (d : float) (l : list float) : list float :=
  match l with
  | [] => [d]
  | e :: l' => if F.ltb d e then d :: l else e :: insert d l'
  end.

Fixpoint sort (l : list float) : list float :=
  match l with
  | [] => []
  | d :: l' => insert d (sort l')
  end.

(** The three-way return at the end of [getObjDepth]. *)
Definition pick (depths : list float) : float :=
  match depths with
  | _ :: d1 :: _ => d1     (* depths.size() > 1: depths[1] *)
  | [d0] => d0             (* depths.size() == 1: depths[0] *)
  | [] => F.NaN            (* NAN *)
  end.

Definition getObjDepth (xmin xmax ymin ymax : float) : option float :=
  depths ← collect xmin xmax ymin ymax grid [];
  Some (pick (sort depths)).

(** The nine raw readings, in loop order. *)
Definition readings (xmin xmax ymin ymax : float) : option (list float) :=
  mapM (sample xmin xmax ymin ymax) grid.

(** The depth map has the size of the colour frame. *)
Definition covers_frame : Prop :=
  rows camDmapCopy_ = frameHeight_ /\ cols camDmapCopy_ = frameWidth_ /\
  (0 < frameHeight_ <= F.INT_MAX)%Z /\ (0 < frameWidth_ <= F.INT_MAX)%Z /\
  Z.of_nat (length (data camDmapCopy_)) = (frameHeight_ * frameWidth_)%Z.

End WithFrame.

End Depth.

(** ** Box extraction: the loops at the end of [detectInThread] *)

(** darknet's [box] and the two fields of darknet's [detection] that the
    node reads. *)
Record box : Type := mkBox {
  box_x : float;
  box_y : float;
  box_w : float;
  box_h : float
}.

Record detection : Type := mkDetection {
  bbox : box;
  prob : list float
}.

(** Modelled from the spec: [RosBox_], one entry of [roiBoxes_], is
    declared in [YoloObjectDetector.hpp], which is not among the sources.
    Its fields are those the source assigns and reads; they are the
    DetectionRecord of the specification (class index, probability,
    normalised centre, width and height, depth) and the count [num] that
    rides in entry 0. *)
Record RosBox_ : Type := mkRosBox {
  rb_x : float;
  rb_y : float;
  rb_w : float;
  rb_h : float;
  rb_z : float;
  rb_prob : float;
  rb_num : Z;
  rb_Class : Z
}.

Definition set_num (n : Z) (r : RosBox_) : RosBox_ :=
  mkRosBox (rb_x r) (rb_y r) (rb_w r) (rb_h r) (rb_z r) (rb_prob r) n (rb_Class r).

(** What [calloc] leaves in an entry. *)
Definition RosBox_zero : RosBox_ :=
  mkRosBox F.zero F.zero F.zero F.zero F.zero F.zero 0 0.

Module Detect.

Record edges : Type := mkEdges {
  xmin : float;
  ymin : float;
  xmax : float;
  ymax : float
}.

Definition two : float := F.Fin 2.

(** [xmin = bbox.x - bbox.w / 2.] and its three siblings. *)
Definition raw_edges (b : box) : edges :=
  {| xmin := F.sub (box_x b) (F.div (box_w b) two);
     xmax := F.add (box_x b) (F.div (box_w b) two);
     ymin := F.sub (box_y b) (F.div (box_h b) two);
     ymax := F.add (box_y b) (F.div (box_h b) two) |}.

(** [if (xmin < 0) xmin = 0;] *)
Definition clip_low (v : float) : float := if F.ltb v F.zero then F.zero else v.

(** [if (xmax > 1) xmax = 1;] *)
Definition clip_high (v : float) : float := if F.gtb v F.one then F.one else v.

Definition clip (e : edges) : edges :=
  {| xmin := clip_low (xmin e);
     ymin := clip_low (ymin e);
     xmax := clip_high (xmax e);
     ymax := clip_high (ymax e) |}.

Definition BBox_width (e : edges) : float := F.sub (xmax e) (xmin e).
Definition BBox_height (e : edges) : float := F.sub (ymax e) (ymin e).
Definition x_center (e : edges) : float := F.div (F.add (xmin e) (xmax e)) two.
Definition y_center (e : edges) : float := F.div (F.add (ymin e) (ymax e)) two.

(** The minimum extent: the literal [0.01]. *)
Definition min_extent : float := F.Fin (1 # 100).

(** [BBox_width > 0.01 && BBox_height > 0.01] *)
Definition big_enough (e : edges) : bool :=
  F.gtb (BBox_width e) min_extent && F.gtb (BBox_height e) min_extent.

Section WithFrame.

Variable camDmapCopy_ : Mat float.
Variables frameWidth_ frameHeight_ : Z.

Definition getObjDepth (e : edges) : option float :=
  Depth.getObjDepth camDmapCopy_ frameWidth_ frameHeight_
    (xmin e) (xmax e) (ymin e) (ymax e).

(** The assignments to [roiBoxes_[count]]; the field [num] is not
    assigned and keeps what the entry held. *)
Definition fill (old : RosBox_) (e : edges) (depth p : float) (j : nat) : RosBox_ :=
  {| rb_x := x_center e;
     rb_y := y_center e;
     rb_w := BBox_width e;
     rb_h := BBox_height e;
     rb_z := depth;
     rb_prob := p;
     rb_num := rb_num old;
     rb_Class := Z.of_nat j |}.

(** The body of the inner loop, for class [j] of detection [d] whose
    clipped edges are [e].  The state is the array [roiBoxes_] and the
    local [count].  Reading [prob[j]] past the scores of [d] or writing
    [roiBoxes_[count]] past the array is undefined in the source: [None]. *)
Definition class_body (d : detection) (e : edges)
    (st : list RosBox_ * nat) (j : nat) : option (list RosBox_ * nat) :=
  p ← prob d !! j;
  if F.truthy p then
    if big_enough e then
      old ← st.1 !! st.2;
      depth ← getObjDepth e;
      Some (<[st.2 := fill old e depth p j]> st.1, S st.2)
    else Some st
  else Some st.

(** A loop [for (k = 0; k < n; ++k)] whose body may be undefined. *)
Fixpoint for_each {S A : Type} (body : S -> A -> option S) (l : list A) (st : S)
    : option S :=
  match l with
  | [] => Some st
  | a :: l' => st' ← body st a; for_each body l' st'
  end.

(** The body of the outer loop: the edges of box [i] are computed and
    clipped, then every class is tried. *)
Definition box_body (demoClasses_ : nat) (st : list RosBox_ * nat) (d : detection)
    : option (list RosBox_ * nat) :=
  let e := clip (raw_edges (bbox d)) in
  for_each (class_body d e) (seq 0 demoClasses_) st.

(** From [int count = 0;] to the assignment of [roiBoxes_[0].num] (both
    branches of the final [if] store [count] there): the new contents of
    [roiBoxes_] and the final [count]. *)
Definition extract (dets : list detection) (demoClasses_ : nat)
    (roiBoxes_ : list RosBox_) : option (list RosBox_ * nat) :=
  st ← for_each (box_body demoClasses_) dets (roiBoxes_, O);
  first ← st.1 !! O;
  Some (<[O := set_num (Z.of_nat st.2) first]> st.1, st.2).

(** The pairs (detection, class) in the order the loops visit them. *)
Definition candidates (dets : list detection) (demoClasses_ : nat)
    : list (detection * nat) :=
  d ← dets; j ← seq 0 demoClasses_; [(d, j)].

(** A candidate passes the two tests of the inner loop. *)
Definition survives (c : detection * nat) : bool :=
  match prob c.1 !! c.2 with
  | Some p => F.truthy p && big_enough (clip (raw_edges (bbox c.1)))
  | None => false
  end.

(** The entry [r] of [roiBoxes_] holds what the inner loop assigns for
    the candidate [c]. *)
Definition record_of (c : detection * nat) (r : RosBox_) : Prop :=
  let e := clip (raw_edges (bbox c.1)) in
  rb_x r = x_center e /\ rb_y r = y_center e /\
  rb_w r = BBox_width e /\ rb_h r = BBox_height e /\
  getObjDepth e = Some (rb_z r) /\
  prob c.1 !! c.2 = Some (rb_prob r) /\
  rb_Class r = Z.of_nat c.2.

(** The state [st'] is reached from [st] by writing one entry per
    candidate of [cs], in order, each at the current [count]. *)
Fixpoint emitted (cs : list (detection * nat)) (st st' : list RosBox_ * nat) : Prop :=
  match cs with
  | [] => st' = st
  | c :: cs' =>
      exists p old depth,
        prob c.1 !! c.2 = Some p /\
        st.1 !! st.2 = Some old /\
        getObjDepth (clip (raw_edges (bbox c.1))) = Some depth /\
        emitted cs'
          (<[st.2 := fill old (clip (raw_edges (bbox c.1))) depth p c.2]> st.1, S st.2)
          st'
  end.

End WithFrame.

End Detect.

(** ** Averaging of the network outputs: [rememberNetwork], [avgPredictions] *)

Module Averager.

(** darknet's [LAYER_TYPE]; only three of its values are tested. *)
Inductive LAYER_TYPE : Type := YOLO | REGION | DETECTION | OTHER.

(** The fields of darknet's [layer] that the node reads and writes. *)
Record layer : Type := mkLayer {
  type : LAYER_TYPE;
  outputs : nat;
  output : list float
}.

(** darknet's [network]: [n] is the length of [layers]. *)
Record network : Type := mkNetwork {
  layers : list layer
}.

(** [l.type == YOLO || l.type == REGION || l.type == DETECTION] *)
Definition produces_boxes (l : layer) : bool :=
  match type l with
  | YOLO | REGION | DETECTION => true
  | OTHER => false
  end.

Fixpoint sizeNetwork_from (ls : list layer) (count : nat) : nat :=
  match ls with
  | [] => count
  | l :: ls' =>
      if produces_boxes l then sizeNetwork_from ls' (count + outputs l)
      else sizeNetwork_from ls' count
  end.

Definition sizeNetwork (net : network) : nat := sizeNetwork_from (layers net) 0.

(** [memcpy(dst + off, src, n * sizeof(float))].  Both ranges lie inside
    their arrays in every call the node makes (the arrays are sized by
    [sizeNetwork] and by [l.outputs]); outside that the source is
    undefined and the model is whatever the list functions give. *)
Definition memcpy (dst : list float) (off : nat) (src : list float) (n : nat)
    : list float :=
  take off dst ++ take n src ++ drop (off + n) dst.

(** darknet's [fill_cpu(N, ALPHA, X, 1)]: [X[i] = ALPHA] for [i < N]. *)
Definition fill_cpu (N : nat) (ALPHA : float) (X : list float) : list float :=
  replicate N ALPHA ++ drop N X.

(** darknet's [axpy_cpu(N, ALPHA, X, 1, Y, 1)]: [Y[i] += ALPHA * X[i]]
    for [i < N]. *)
Definition axpy_cpu (N : nat) (ALPHA : float) (X Y : list float) : list float :=
  zip_with (fun y x => F.add y (F.mul ALPHA x)) (take N Y) (take N X) ++ drop N Y.

(** The members used by the two functions. *)
Record history : Type := mkHistory {
  demoFrame_ : nat;
  demoTotal_ : nat;
  demoIndex_ : nat;
  predictions_ : list (list float);
  avg_ : list float
}.

(** The loop of [rememberNetwork], writing into [predictions_[demoIndex_]]. *)
Fixpoint remember_from (ls : list layer) (count : nat) (dst : list float)
    : list float :=
  match ls with
  | [] => dst
  | l :: ls' =>
      if produces_boxes l
      then remember_from ls' (count + outputs l) (memcpy dst count (output l) (outputs l))
      else remember_from ls' count dst
  end.

Definition rememberNetwork (net : network) (h : history) : history :=
  {| demoFrame_ := demoFrame_ h;
     demoTotal_ := demoTotal_ h;
     demoIndex_ := demoIndex_ h;
     predictions_ :=
       <[demoIndex_ h :=
           remember_from (layers net) 0 (predictions_ h !!! demoIndex_ h)]>
         (predictions_ h);
     avg_ := avg_ h |}.

(** [1./demoFrame_] *)
Definition weight (h : history) : float :=
  F.div F.one (F.of_int (Z.of_nat (demoFrame_ h))).

(** The first two statements of [avgPredictions]: [avg_] is zeroed and
    every entry of [predictions_] is added with weight [1./demoFrame_]. *)
Definition accumulate (h : history) : list float :=
  foldl (fun avg j => axpy_cpu (demoTotal_ h) (weight h) (predictions_ h !!! j) avg)
        (fill_cpu (demoTotal_ h) F.zero (avg_ h))
        (seq 0 (demoFrame_ h)).

(** The second loop of [avgPredictions]:
    [memcpy(l.output, avg_ + count, sizeof(float) * l.outputs)]. *)
Fixpoint write_back (ls : list layer) (count : nat) (avg : list float)
    : list layer :=
  match ls with
  | [] => []
  | l :: ls' =>
      if produces_boxes l
      then mkLayer (type l) (outputs l)
             (memcpy (output l) 0 (drop count avg) (outputs l))
           :: write_back ls' (count + outputs l) avg
      else l :: write_back ls' count avg
  end.

(** [avgPredictions] up to the call of [get_network_boxes]: the new
    [avg_] and the network handed to the decoder. *)
Definition avgPredictions (net : network) (h : history) : network * history :=
  let avg := accumulate h in
  (mkNetwork (write_back (layers net) 0 avg),
   mkHistory (demoFrame_ h) (demoTotal_ h) (demoIndex_ h) (predictions_ h) avg).

(** [demoIndex_ = (demoIndex_ + 1) % demoFrame_] at the end of
    [detectInThread]. *)
Definition next_index (h : history) : history :=
  mkHistory (demoFrame_ h) (demoTotal_ h)
    ((demoIndex_ h + 1) `mod` demoFrame_ h) (predictions_ h) (avg_ h).

(** The averaging part of one call of [detectInThread]: [net] is the
    network as [network_predict] left it. *)
Definition detect_step (net : network) (h : history) : network * history :=
  let '(net', h') := avgPredictions net (rememberNetwork net h) in
  (net', next_index h').

(** [detectInThread] called once for each network state of [nets]. *)
Fixpoint detect_steps (nets : list network) (h : history) : history :=
  match nets with
  | [] => h
  | net :: nets' => detect_steps nets' (detect_step net h).2
  end.

(** What [yolo()] allocates with [calloc] before the loop. *)
Definition init_history (net : network) (demoFrame : nat) : history :=
  let total := sizeNetwork net in
  mkHistory demoFrame total 0
    (replicate demoFrame (replicate total F.zero))
    (replicate total F.zero).

(** The concatenated outputs of the box-producing layers: what
    [rememberNetwork] would store for [net]. *)
Definition raw_output (net : network) : list float :=
  remember_from (layers net) 0 (replicate (sizeNetwork net) F.zero).

(** The outputs of the box-producing layers, one after the other. *)
Fixpoint flat_outputs (ls : list layer) : list float :=
  match ls with
  | [] => []
  | l :: ls' =>
      if produces_boxes l then output l ++ flat_outputs ls' else flat_outputs ls'
  end.

(** Every layer holds [outputs] values. *)
Definition well_formed (net : network) : Prop :=
  Forall (fun l => length (output l) = outputs l) (layers net).

(** The history has the shape [yolo()] gave it for [net]. *)
Definition shaped (net : network) (h : history) : Prop :=
  demoTotal_ h = sizeNetwork net /\
  length (predictions_ h) = demoFrame_ h /\
  Forall (fun p => length p = demoTotal_ h) (predictions_ h) /\
  length (avg_ h) = demoTotal_ h.

(** A network state whose raw output is [v]. *)
Definition outputs_v (v : list float) (total : nat) (net : network) : Prop :=
  well_formed net /\ sizeNetwork net = total /\ raw_output net = v.

(** The history keeps the shape [yolo()] gave it, whatever the network. *)
Definition steady (W total : nat) (h : history) : Prop :=
  demoFrame_ h = W /\ demoTotal_ h = total /\ (demoIndex_ h < W)%nat /\
  length (predictions_ h) = W /\
  Forall (fun p => length p = total) (predictions_ h) /\
  length (avg_ h) = total.

(** Following the specification's words: the unweighted arithmetic mean,
    per output element, of the [W] stored vectors. *)
Definition column (ps : list (list float)) (k : nat) : list float :=
  omap (fun p => p !! k) ps.

Definition sum (l : list float) : float := foldl F.add F.zero l.

Definition mean_spec (ps : list (list float)) (k : nat) : float :=
  F.div (sum (column ps k)) (F.of_int (Z.of_nat (length ps))).

End Averager.

(** ** Messages *)

(** [std_msgs::Header] *)
Record Header : Type := mkHeader {
  seq_ : Z;
  stamp : Z;
  frame_id : string
}.

(** [sensor_msgs::Image] *)
Record Image : Type := mkImage {
  header : Header;
  height : Z;
  width : Z;
  encoding : string;
  pixels : list Z
}.

(** [darknet_ros_msgs::CheckForObjectsGoal] *)
Record CheckForObjectsGoal : Type := mkGoal {
  goal_id : Z;
  goal_image : Image
}.

(** [darknet_ros_msgs::BoundingBox].  The four pixel edges are the results
    of float-to-int conversions; [None] where that conversion is
    undefined. *)
Record BoundingBox : Type := mkBoundingBox {
  bb_Class : string;
  bb_probability : float;
  bb_xmin : option Z;
  bb_ymin : option Z;
  bb_xmax : option Z;
  bb_ymax : option Z;
  bb_z : float
}.

(** [darknet_ros_msgs::BoundingBoxes] *)
Record BoundingBoxes : Type := mkBoundingBoxes {
  bbs_stamp : Z;
  bbs_frame_id : string;
  image_header : Header;
  bounding_boxes : list BoundingBox
}.

(** [darknet_ros_msgs::CheckForObjectsResult] *)
Record CheckForObjectsResult : Type := mkResult {
  result_id : Z;
  result_bounding_boxes : BoundingBoxes
}.

(** What the node sends out. *)
Inductive Output : Type :=
| DetectionImage                                   (* detectionImagePublisher_ *)
| ObjectCount (data : Z)                           (* objectPublisher_, std_msgs::Int8 *)
| Boxes (msg : BoundingBoxes)                      (* boundingBoxesPublisher_ *)
| Succeeded (result : CheckForObjectsResult).      (* setSucceeded *)

Inductive LogLine : Type :=
| ROS_DEBUG (text : string)
| ROS_ERROR (text : string).

(** The result of [cv_bridge::toCvCopy]: an image, a null pointer, or a
    [cv_bridge::Exception] carrying [what()]. *)
Inductive CvResult (A : Type) : Type :=
| CvImage (image : Mat A)
| CvNull
| CvException (what : string).
Arguments CvImage {A} _.
Arguments CvNull {A}.
Arguments CvException {A} _.

(** ** Frame ingestion: the two callbacks *)

Module Ingest.

(** The members written by the callbacks and read by the pipeline. *)
Record staging : Type := mkStaging {
  imageHeader_ : Header;
  camImageCopy_ : Mat Z;
  camDmapCopy_ : Mat float;
  actionId_ : Z;
  imageStatus_ : bool;
  frameWidth_ : Z;
  frameHeight_ : Z
}.

(** The part of [actionlib::SimpleActionServer] the node relies on. *)
Record server : Type := mkServer {
  isActive : bool;
  isPreemptRequested : bool
}.

(** [acceptNewGoal()]: the new goal becomes the active one. *)
Definition acceptNewGoal (s : server) : server := mkServer true false.

(** [setSucceeded(...)]: the active goal is closed. *)
Definition setSucceeded (s : server) : server := mkServer false (isPreemptRequested s).

(** [setPreempted()] *)
Definition setPreempted (s : server) : server := mkServer false false.

Record state : Type := mkState {
  staged : staging;
  sem_new_image_ : nat;
  actionServer : server;
  log : list LogLine
}.

Section WithDecoder.

(** [cv_bridge::toCvCopy] at the two encodings the node asks for. *)
Variable toCvCopy_BGR8 : Image -> CvResult Z.
Variable toCvCopy_32FC1 : Image -> CvResult float.

Definition exception_line (what : string) : LogLine :=
  ROS_ERROR ("cv_bridge exception: " ++ what).

(** The [try] block of [zedCameraCallback]: the second conversion is not
    reached when the first one throws. *)
Definition decode_pair (img_msg dmap_msg : Image)
    : string + (option (Mat Z) * option (Mat float)) :=
  match toCvCopy_BGR8 img_msg with
  | CvException what => inl what
  | cam_image =>
      match toCvCopy_32FC1 dmap_msg with
      | CvException what => inl what
      | cam_dmap =>
          inr (match cam_image with CvImage m => Some m | _ => None end,
               match cam_dmap with CvImage m => Some m | _ => None end)
      end
  end.

(** The streamed pair fails to decode: the colour frame throws, or the
    colour frame does not throw and the depth frame does. *)
Definition stream_throws (img_msg dmap_msg : Image) (what : string) : Prop :=
  toCvCopy_BGR8 img_msg = CvException what \/
  ((forall w, toCvCopy_BGR8 img_msg <> CvException w) /\
   toCvCopy_32FC1 dmap_msg = CvException what).

Definition zedCameraCallback (img_msg dmap_msg : Image) (s : state) : state :=
  let log1 := log s ++ [ROS_DEBUG "[YoloObjectDetector] USB image received."] in
  match decode_pair img_msg dmap_msg with
  | inl what =>
      mkState (staged s) (sem_new_image_ s) (actionServer s)
              (log1 ++ [exception_line what])
  | inr (Some cam_image, Some cam_dmap) =>
      mkState
        {| imageHeader_ := header img_msg;
           camImageCopy_ := cam_image;
           camDmapCopy_ := cam_dmap;
           actionId_ := actionId_ (staged s);
           imageStatus_ := true;
           frameWidth_ := cols cam_image;
           frameHeight_ := rows cam_image |}
        (S (sem_new_image_ s)) (actionServer s) log1
  | inr _ => mkState (staged s) (sem_new_image_ s) (actionServer s) log1
  end.

(** [goal] is what [acceptNewGoal()] hands to the callback. *)
Definition checkForObjectsActionGoalCB (goal : CheckForObjectsGoal) (s : state)
    : state :=
  let log1 :=
    log s ++ [ROS_DEBUG "[YoloObjectDetector] Start check for objects action."] in
  let srv := acceptNewGoal (actionServer s) in
  match toCvCopy_BGR8 (goal_image goal) with
  | CvException what =>
      mkState (staged s) (sem_new_image_ s) srv (log1 ++ [exception_line what])
  | CvImage cam_image =>
      mkState
        {| imageHeader_ := imageHeader_ (staged s);
           camImageCopy_ := cam_image;
           camDmapCopy_ := camDmapCopy_ (staged s);
           actionId_ := goal_id goal;
           imageStatus_ := true;
           frameWidth_ := cols cam_image;
           frameHeight_ := rows cam_image |}
        (sem_new_image_ s) srv log1
  | CvNull => mkState (staged s) (sem_new_image_ s) srv log1
  end.

Definition checkForObjectsActionPreemptCB (s : state) : state :=
  mkState (staged s) (sem_new_image_ s) (setPreempted (actionServer s))
    (log s ++ [ROS_DEBUG "[YoloObjectDetector] Preempt check for objects action."]).

End WithDecoder.

(** [isCheckingForObjects()] *)
Definition isCheckingForObjects (ros_ok : bool) (s : server) : bool :=
  ros_ok && isActive s && negb (isPreemptRequested s).

(** A decoder for examples: the conversion succeeds exactly when the
    message already has the requested encoding and carries
    [channels * height * width] values. *)
Definition decode_as {A} (enc : string) (channels : Z) (conv : Z -> A)
    (msg : Image) : CvResult A :=
  if String.eqb (encoding msg) enc then
    if (Z.of_nat (length (pixels msg)) =? channels * height msg * width msg)%Z
    then CvImage (mkMat (height msg) (width msg) (conv <$> pixels msg))
    else CvException "image is wrongly formed"
  else CvException "unsupported conversion".

End Ingest.

(** ** The pipeline stages that touch the ring and the results *)

#[global] Instance RosBox_inhabited : Inhabited RosBox_ := populate RosBox_zero.
#[global] Instance Header_inhabited : Inhabited Header :=
  populate (mkHeader 0 0 "").
#[global] Instance label_inhabited : Inhabited string := populate ""%string.

Module Pipeline.

Import Ingest.

(** The three-slot arrays.  A slot of [buff_] is modelled by the [cv::Mat]
    it was filled from: [ipl_into_image], [rgbgr_image] and
    [letterbox_image_into] only convert pixels, and [buffLetter_[i]] is
    a function of [buff_[i]]. *)
Record ring : Type := mkRing {
  buffIndex_ : Z;
  buff_ : list (Mat Z);
  headerBuff_ : list Header;
  buffId_ : list Z
}.

Definition getIplImageWithHeader (s : staging) : Mat Z * Header :=
  (camImageCopy_ s, imageHeader_ s).

Definition fetchInThread (s : staging) (r : ring) : ring :=
  let imageAndHeader := getIplImageWithHeader s in
  let i := Z.to_nat (Ring.fetch_slot (buffIndex_ r)) in
  mkRing (buffIndex_ r)
    (<[i := imageAndHeader.1]> (buff_ r))
    (<[i := imageAndHeader.2]> (headerBuff_ r))
    (<[i := actionId_ s]> (buffId_ r)).

(** The members [detectInThread] writes and [publishInThread] reads and
    clears. *)
Record results : Type := mkResults {
  roiBoxes_ : list RosBox_;
  rosBoxes_ : list (list RosBox_);
  rosBoxCounter_ : list Z;
  boundingBoxesResults_ : BoundingBoxes
}.

Section Publish.

Variable classLabels_ : list string.
Variables frameWidth_ frameHeight_ : Z.

Definition numClasses_ : nat := length classLabels_.

(** The body of the grouping loops:
    [if (roiBoxes_[i].Class == j) { rosBoxes_[j].push_back(roiBoxes_[i]);
    rosBoxCounter_[j]++; }] *)
Definition group_body (roi : list RosBox_) (i : nat)
    (st : list (list RosBox_) * list Z) (j : nat) : list (list RosBox_) * list Z :=
  if (rb_Class (roi !!! i) =? Z.of_nat j)%Z
  then (<[j := st.1 !!! j ++ [roi !!! i]]> st.1, <[j := (st.2 !!! j + 1)%Z]> st.2)
  else st.

Definition group (roi : list RosBox_) (num : nat)
    (st : list (list RosBox_) * list Z) : list (list RosBox_) * list Z :=
  foldl (fun st i => foldl (group_body roi i) st (seq 0 numClasses_)) st (seq 0 num).

(** [int xmin = (x - w / 2) * frameWidth_;] and its siblings. *)
Definition pixel (centre extent : float) (sign : bool) (frame : Z) : option Z :=
  let half := F.div extent Detect.two in
  F.to_int (F.mul (if sign then F.add centre half else F.sub centre half)
                  (F.of_int frame)).

Definition to_message (label : string) (r : RosBox_) : BoundingBox :=
  {| bb_Class := label;
     bb_probability := rb_prob r;
     bb_xmin := pixel (rb_x r) (rb_w r) false frameWidth_;
     bb_ymin := pixel (rb_y r) (rb_h r) false frameHeight_;
     bb_xmax := pixel (rb_x r) (rb_w r) true frameWidth_;
     bb_ymax := pixel (rb_y r) (rb_h r) true frameHeight_;
     bb_z := rb_z r |}.

(** The messages of class [i]: [for (j = 0; j < rosBoxCounter_[i]; j++)]. *)
Definition class_messages (rosBoxes : list (list RosBox_)) (rosBoxCounter : list Z)
    (i : nat) : list BoundingBox :=
  if (0 <? rosBoxCounter !!! i)%Z
  then (fun j => to_message (classLabels_ !!! i) ((rosBoxes !!! i) !!! j))
         <$> seq 0 (Z.to_nat (rosBoxCounter !!! i))
  else [].

(** The clean-up at the end of [publishInThread]. *)
Definition cleared (res : results) : results :=
  mkResults (roiBoxes_ res)
    (foldl (fun rb i => <[i := []]> rb) (rosBoxes_ res) (seq 0 numClasses_))
    (foldl (fun rc i => <[i := 0%Z]> rc) (rosBoxCounter_ res) (seq 0 numClasses_))
    (mkBoundingBoxes (bbs_stamp (boundingBoxesResults_ res))
       (bbs_frame_id (boundingBoxesResults_ res))
       (image_header (boundingBoxesResults_ res)) []).

(** "Publish bounding boxes and detection result": the two branches on
    [num > 0 && num <= 100]. *)
Definition publish_boxes (r : ring) (res : results) : results * list Output :=
  let num := rb_num (roiBoxes_ res !!! O) in
  if ((0 <? num) && (num <=? 100))%Z then
    let grouped :=
      group (roiBoxes_ res) (Z.to_nat num) (rosBoxes_ res, rosBoxCounter_ res) in
    let boxes :=
      bounding_boxes (boundingBoxesResults_ res)
      ++ concat (class_messages grouped.1 grouped.2 <$> seq 0 numClasses_) in
    let hdr := headerBuff_ r !!! Z.to_nat (Ring.display_slot (buffIndex_ r)) in
    let msg := mkBoundingBoxes (stamp hdr) "detection" hdr boxes in
    (mkResults (roiBoxes_ res) grouped.1 grouped.2 msg,
     [ObjectCount num; Boxes msg])
  else (res, [ObjectCount 0]).

(** [if (isCheckingForObjects()) { ... setSucceeded(...) }] *)
Definition answer_request (ros_ok : bool) (r : ring) (srv : server) (res : results)
    : server * list Output :=
  if isCheckingForObjects ros_ok srv
  then (setSucceeded srv,
        [Succeeded (mkResult (buffId_ r !!! O) (boundingBoxesResults_ res))])
  else (srv, []).

Definition publishInThread (subscribers : nat) (ros_ok : bool)
    (r : ring) (srv : server) (res : results)
    : results * server * list Output :=
  let image_out := if (subscribers <? 1)%nat then [] else [DetectionImage] in
  let '(res1, boxes_out) := publish_boxes r res in
  let '(srv1, action_out) := answer_request ros_ok r srv res1 in
  (cleared res1, srv1, image_out ++ boxes_out ++ action_out).

End Publish.

(** The count messages among the outputs. *)
Definition counts (out : list Output) : list Z :=
  omap (fun o => match o with ObjectCount n => Some n | _ => None end) out.

(** The results handed to [setSucceeded] among the outputs. *)
Definition answers (out : list Output) : list CheckForObjectsResult :=
  omap (fun o => match o with Succeeded r => Some r | _ => None end) out.

End Pipeline.

(** ** The scheduler: [yolo()], its two worker threads and its environment *)

Module Scheduler.

Import Ingest Pipeline.

(** A [std::thread] object. *)
Inductive thread : Type :=
| NotJoinable        (* default-constructed, or joined *)
| Running            (* started, body not finished *)
| Finished.          (* body finished, not yet joined *)

(** The places of [yolo()] at which the scheduler can be. *)
Inductive place : Type :=
| AwaitImage         (* while (!getImageStatus()) ... *)
| Prime              (* allocation; the three slots are filled from the first frame *)
| LoopTest           (* while (!demoDone_) *)
| SemWait            (* sem_wait(&sem_new_image_) *)
| Advance            (* buffIndex_ = (buffIndex_ + 1) % 3 *)
| SpawnFetch         (* fetch_thread = std::thread(fetchInThread) *)
| SpawnDetect        (* detect_thread = std::thread(detectInThread) *)
| Display            (* displayInThread(0) *)
| Publish            (* publishInThread() *)
| JoinFetch          (* fetch_thread.join() *)
| JoinDetect         (* detect_thread.join() *)
| CheckRunning       (* ++count; if (!isNodeRunning()) demoDone_ = true *)
| Returned.          (* yolo() has returned: yoloThread_ can be joined *)

Record control : Type := mkControl {
  at_ : place;
  isNodeRunning_ : bool;
  demoDone_ : bool;
  fetch_thread : thread;
  detect_thread : thread;
  count : Z
}.

(** What the surroundings decide: the key [cvWaitKey] will return (-1 for
    none), the subscribers of the detection image, [ros::ok()]. *)
Record surroundings : Type := mkSurroundings {
  key : Z;
  subscribers : nat;
  ros_ok : bool
}.

(** Fixed at start-up: the class labels ([numClasses_], and [demoClasses_],
    is their number) and the number of entries of [roiBoxes_]. *)
Record settings : Type := mkSettings {
  classLabels_ : list string;
  roiCapacity : nat
}.

Record node : Type := mkNode {
  ingest : Ingest.state;
  ctl : control;
  ring_ : ring;
  results_ : results;
  around : surroundings;
  config : settings;
  outbox : list Output
}.

Definition set_ingest (i : Ingest.state) (n : node) : node :=
  mkNode i (ctl n) (ring_ n) (results_ n) (around n) (config n) (outbox n).
Definition set_ctl (c : control) (n : node) : node :=
  mkNode (ingest n) c (ring_ n) (results_ n) (around n) (config n) (outbox n).
Definition set_ring (r : ring) (n : node) : node :=
  mkNode (ingest n) (ctl n) r (results_ n) (around n) (config n) (outbox n).
Definition set_results (r : results) (n : node) : node :=
  mkNode (ingest n) (ctl n) (ring_ n) r (around n) (config n) (outbox n).
Definition set_around (a : surroundings) (n : node) : node :=
  mkNode (ingest n) (ctl n) (ring_ n) (results_ n) a (config n) (outbox n).
Definition send (out : list Output) (n : node) : node :=
  mkNode (ingest n) (ctl n) (ring_ n) (results_ n) (around n) (config n)
    (outbox n ++ out).

Definition goto (p : place) (c : control) : control :=
  mkControl p (isNodeRunning_ c) (demoDone_ c) (fetch_thread c) (detect_thread c)
    (count c).
Definition set_done (b : bool) (c : control) : control :=
  mkControl (at_ c) (isNodeRunning_ c) b (fetch_thread c) (detect_thread c) (count c).
Definition set_running (b : bool) (c : control) : control :=
  mkControl (at_ c) b (demoDone_ c) (fetch_thread c) (detect_thread c) (count c).
Definition set_fetch (t : thread) (c : control) : control :=
  mkControl (at_ c) (isNodeRunning_ c) (demoDone_ c) t (detect_thread c) (count c).
Definition set_detect (t : thread) (c : control) : control :=
  mkControl (at_ c) (isNodeRunning_ c) (demoDone_ c) (fetch_thread c) t (count c).
Definition set_count (k : Z) (c : control) : control :=
  mkControl (at_ c) (isNodeRunning_ c) (demoDone_ c) (fetch_thread c)
    (detect_thread c) k.

Definition set_sem (k : nat) (i : Ingest.state) : Ingest.state :=
  mkState (staged i) k (actionServer i) (log i).
Definition set_server (s : server) (i : Ingest.state) : Ingest.state :=
  mkState (staged i) (sem_new_image_ i) s (log i).

(** The part of [displayInThread] that acts on the control flow: the key
    27 sets [demoDone_]. *)
Definition displayInThread (n : node) : node :=
  let c := key (around n) in
  let c := if (c =? -1)%Z then c else Z.rem c 256 in
  let n1 := set_around (mkSurroundings (-1) (subscribers (around n)) (ros_ok (around n))) n in
  if (c =? 27)%Z then set_ctl (set_done true (ctl n1)) n1 else n1.

(** The allocation before the loop: [roiBoxes_] is zeroed and the three
    slots of [buff_] and [headerBuff_] are filled from the staged frame. *)
Definition prime (n : node) : node :=
  let imageAndHeader := getIplImageWithHeader (staged (ingest n)) in
  let r := ring_ n in
  let res := results_ n in
  set_ring (mkRing (buffIndex_ r) (replicate 3 imageAndHeader.1)
              (replicate 3 imageAndHeader.2) (buffId_ r))
    (set_results (mkResults (replicate (roiCapacity (config n)) RosBox_zero)
                    (rosBoxes_ res) (rosBoxCounter_ res) (boundingBoxesResults_ res))
       n).

(** One step of [yolo()].  [None]: the scheduler cannot move (it is blocked
    in [sem_wait] or in a [join], or it has returned).  [demoPrefix_] is
    0, the value [init()] passes to [setupNetwork], so every iteration
    takes the branch that displays and publishes. *)
Definition scheduler_step (n : node) : option node :=
  let c := ctl n in
  match at_ c with
  | AwaitImage =>
      if imageStatus_ (staged (ingest n)) then Some (set_ctl (goto Prime c) n)
      else if negb (isNodeRunning_ c) then Some (set_ctl (goto Returned c) n)
      else Some n
  | Prime => Some (set_ctl (goto LoopTest c) (prime n))
  | LoopTest =>
      if demoDone_ c then Some (set_ctl (goto Returned c) n)
      else Some (set_ctl (goto SemWait c) n)
  | SemWait =>
      match sem_new_image_ (ingest n) with
      | O => None
      | S k => Some (set_ctl (goto Advance c) (set_ingest (set_sem k (ingest n)) n))
      end
  | Advance =>
      let r := ring_ n in
      Some (set_ctl (goto SpawnFetch c)
              (set_ring (mkRing (Ring.advance (buffIndex_ r)) (buff_ r)
                           (headerBuff_ r) (buffId_ r)) n))
  | SpawnFetch =>
      match fetch_thread c with
      | NotJoinable => Some (set_ctl (goto SpawnDetect (set_fetch Running c)) n)
      | _ => None
      end
  | SpawnDetect =>
      match detect_thread c with
      | NotJoinable => Some (set_ctl (goto Display (set_detect Running c)) n)
      | _ => None
      end
  | Display =>
      let n1 := displayInThread n in
      Some (set_ctl (goto Publish (ctl n1)) n1)
  | Publish =>
      let st := staged (ingest n) in
      let '(res, srv, out) :=
        publishInThread (classLabels_ (config n)) (frameWidth_ st) (frameHeight_ st)
          (subscribers (around n)) (ros_ok (around n))
          (ring_ n) (actionServer (ingest n)) (results_ n) in
      Some (set_ctl (goto JoinFetch c)
              (send out (set_results res
                 (set_ingest (set_server srv (ingest n)) n))))
  | JoinFetch =>
      match fetch_thread c with
      | Finished => Some (set_ctl (goto JoinDetect (set_fetch NotJoinable c)) n)
      | _ => None
      end
  | JoinDetect =>
      match detect_thread c with
      | Finished => Some (set_ctl (goto CheckRunning (set_detect NotJoinable c)) n)
      | _ => None
      end
  | CheckRunning =>
      let c1 := set_count (count c + 1) c in
      let c2 := if negb (isNodeRunning_ c1) then set_done true c1 else c1 in
      Some (set_ctl (goto LoopTest c2) n)
  | Returned => None
  end.

(** Everything that can happen to the node. *)
Inductive action : Type :=
| Step                                  (* the scheduler takes one step *)
| FetchRuns                             (* the body of [fetchInThread] runs *)
| DetectRuns (dets : list detection)    (* the body of [detectInThread] runs;
                                           [dets] is what the decoder returned *)
| StreamFrame (img_msg dmap_msg : Image)
| Request (goal : CheckForObjectsGoal)
| Preempt
| KeyPressed (k : Z)
| Shutdown.                             (* the destructor clears [isNodeRunning_] *)

Section WithDecoder.

Variable toCvCopy_BGR8 : Image -> CvResult Z.
Variable toCvCopy_32FC1 : Image -> CvResult float.

(** [None]: the action cannot happen in this state. *)
Definition exec (a : action) (n : node) : option node :=
  match a with
  | Step => scheduler_step n
  | FetchRuns =>
      match fetch_thread (ctl n) with
      | Running =>
          Some (set_ctl (set_fetch Finished (ctl n))
                  (set_ring (fetchInThread (staged (ingest n)) (ring_ n)) n))
      | _ => None
      end
  | DetectRuns dets =>
      match detect_thread (ctl n) with
      | Running =>
          let st := staged (ingest n) in
          let res := results_ n in
          roi ← Detect.extract (camDmapCopy_ st) (frameWidth_ st) (frameHeight_ st)
                  dets (length (classLabels_ (config n))) (roiBoxes_ res);
          Some (set_ctl (set_detect Finished (ctl n))
                  (set_results (mkResults roi.1 (rosBoxes_ res) (rosBoxCounter_ res)
                                  (boundingBoxesResults_ res)) n))
      | _ => None
      end
  | StreamFrame img_msg dmap_msg =>
      Some (set_ingest
              (zedCameraCallback toCvCopy_BGR8 toCvCopy_32FC1 img_msg dmap_msg (ingest n))
              n)
  | Request goal =>
      Some (set_ingest (checkForObjectsActionGoalCB toCvCopy_BGR8 goal (ingest n)) n)
  | Preempt => Some (set_ingest (checkForObjectsActionPreemptCB (ingest n)) n)
  | KeyPressed k =>
      Some (set_around (mkSurroundings k (subscribers (around n)) (ros_ok (around n))) n)
  | Shutdown => Some (set_ctl (set_running false (ctl n)) n)
  end.

(** A run: the actions happen in order; [None] as soon as one cannot. *)
Fixpoint run (tr : list action) (n : node) : option node :=
  match tr with
  | [] => Some n
  | a :: tr' => n' ← exec a n; run tr' n'
  end.

(** A run in which an action that cannot happen is skipped: the
    scheduler that is blocked stays where it is. *)
Fixpoint attempt (tr : list action) (n : node) : node :=
  match tr with
  | [] => n
  | a :: tr' => attempt tr' (default n (exec a n))
  end.

End WithDecoder.

(** The scheduler waits in [sem_wait] on an empty semaphore. *)
Definition waiting (n : node) : Prop :=
  at_ (ctl n) = SemWait /\ sem_new_image_ (ingest n) = O.

(** Where the scheduler is, the state of its two threads, [count], the
    running flag and the semaphore; [roiBoxes_] has been allocated. *)
Definition poised (n : node) (p : place) (ft dt : thread) (cnt : Z)
    (running : bool) (sem : nat) : Prop :=
  at_ (ctl n) = p /\ fetch_thread (ctl n) = ft /\ detect_thread (ctl n) = dt /\
  count (ctl n) = cnt /\ isNodeRunning_ (ctl n) = running /\
  sem_new_image_ (ingest n) = sem /\ roiBoxes_ (results_ n) <> [].

Definition is_frame (a : action) : bool :=
  match a with
  | StreamFrame _ _ => true
  | _ => false
  end.

(** Modelled from the spec: the node before any frame.  The member
    initialisers are in [YoloObjectDetector.hpp], which is not among the
    sources; following the specification's start-up, no frame is
    available, the node is running, the loop is not done, no request is
    pending and the ring index is 0.  [readParameters] sizes [rosBoxes_]
    and [rosBoxCounter_] by the number of class labels. *)
Definition initial (labels : list string) (capacity : nat) : node :=
  {| ingest :=
       mkState
         (mkStaging (mkHeader 0 0 "") (mkMat 0 0 []) (mkMat 0 0 []) 0 false 0 0)
         0 (mkServer false false) [];
     ctl := mkControl AwaitImage true false NotJoinable NotJoinable 0;
     ring_ := mkRing 0 (replicate 3 (mkMat 0 0 [])) (replicate 3 (mkHeader 0 0 ""))
                (replicate 3 0%Z);
     results_ :=
       mkResults [] (replicate (length labels) []) (replicate (length labels) 0%Z)
         (mkBoundingBoxes 0 "" (mkHeader 0 0 "") []);
     around := mkSurroundings (-1) 0 true;
     config := mkSettings labels capacity;
     outbox := [] |}.

End Scheduler.

(** ** Concrete inputs used in the examples *)

Module Examples.

(** A 4 x 4 depth map: of the nine inner readings two are normal (5 at
    row 1, column 1 and 3 at row 2, column 2); the others are NaN, an
    infinity or zero. *)
Definition depth_4x4 : Mat float :=
  mkMat 4 4
    [F.Fin 9; F.Fin 9; F.Fin 9; F.Fin 9;
     F.Fin 9; F.Fin 5; F.NaN;   F.PInf;
     F.Fin 9; F.zero;  F.Fin 3; F.NaN;
     F.Fin 9; F.NInf;  F.NaN;   F.zero].

(** A box 0.005 wide and 0.2 high in the middle of the frame, with a
    non-zero score for class 0. *)
Definition narrow : detection :=
  mkDetection (mkBox (F.Fin (1 # 2)) (F.Fin (1 # 2)) (F.Fin (5 # 1000)) (F.Fin (2 # 10)))
    [F.Fin (9 # 10)].

(** A box centred below the frame, at y = 1.3, 0.1 high: the decoder
    places a box there when it lies in the lower padding of a
    letterboxed frame. *)
Definition below : detection :=
  mkDetection (mkBox (F.Fin (1 # 2)) (F.Fin (13 # 10)) (F.Fin (2 # 10)) (F.Fin (1 # 10)))
    [F.Fin (9 # 10)].

(** A box that reaches over the left and the upper border. *)
Definition corner : detection :=
  mkDetection (mkBox (F.Fin (1 # 10)) (F.Fin (1 # 10)) (F.Fin (1 # 2)) (F.Fin (1 # 2)))
    [F.Fin (9 # 10)].

(** A network with one convolutional and two box-producing layers, and a
    history of three identical vectors. *)
Definition small_net : Averager.network :=
  Averager.mkNetwork
    [Averager.mkLayer Averager.OTHER 2 [F.Fin 7; F.Fin 8];
     Averager.mkLayer Averager.YOLO 2 [F.Fin 1; F.NaN];
     Averager.mkLayer Averager.REGION 1 [F.Fin (1 # 3)]].

Definition small_vector : list float := [F.Fin (3 # 4); F.PInf; F.Fin (-2)].

Definition small_history : Averager.history :=
  Averager.mkHistory 3 3 1 (replicate 3 small_vector) (replicate 3 F.zero).

(** [roiBoxes_] after the extraction of the single box [corner]. *)
Definition single_roi : list RosBox_ :=
  match Detect.extract depth_4x4 4 4 [corner] 1 [RosBox_zero] with
  | Some st => st.1
  | None => []
  end.

(** A crowded frame: 101 boxes, each 0.05 wide and high, on a grid of
    pitch 1/12, so that no two of them overlap; every one passes the two
    tests. *)
Definition grid_box (i j : nat) : detection :=
  mkDetection
    (mkBox (F.Fin (Z.of_nat (1 + 2 * i) # 24)) (F.Fin (Z.of_nat (1 + 2 * j) # 24))
       (F.Fin (1 # 20)) (F.Fin (1 # 20)))
    [F.Fin (9 # 10)].

Definition crowd : list detection :=
  take 101 (i ← seq 0 11; j ← seq 0 10; [grid_box i j]).

Definition crowd_roi : list RosBox_ :=
  match Detect.extract depth_4x4 4 4 crowd 1 (replicate 845 RosBox_zero) with
  | Some st => st.1
  | None => []
  end.

(** The decoders of the examples. *)
Definition to_bgr8 : Image -> CvResult Z := Ingest.decode_as "bgr8" 3 id.
Definition to_32fc1 : Image -> CvResult float := Ingest.decode_as "32FC1" 1 F.of_int.

(** A 2 x 1 colour frame, a matching depth frame, and a frame that cannot
    be decoded as a colour frame: it has a depth encoding, which
    [toCvCopy] refuses to convert to BGR8. *)
Definition colour_frame : Image :=
  mkImage (mkHeader 7 1000 "zed_left") 1 2 "bgr8" [10; 20; 30; 40; 50; 60]%Z.
Definition depth_frame : Image :=
  mkImage (mkHeader 7 1000 "zed_depth") 1 2 "32FC1" [3; 5]%Z.
Definition broken_frame : Image :=
  mkImage (mkHeader 8 2000 "zed_left") 1 2 "32FC1" [1; 2]%Z.
Definition request_frame : Image :=
  mkImage (mkHeader 1 5000 "client") 1 1 "bgr8" [90; 91; 92]%Z.

(** The ingestion state after one streamed pair. *)
Definition streamed : Ingest.state :=
  Ingest.zedCameraCallback to_bgr8 to_32fc1 colour_frame depth_frame
    (Scheduler.ingest (Scheduler.initial ["person"%string] 4)).

(** One iteration of the loop of [yolo()], from [sem_wait] to the test of
    the loop: both workers finish before the display and publish stages
    run. *)
Definition iteration : list Scheduler.action :=
  [Scheduler.Step;                 (* sem_wait returns *)
   Scheduler.Step;                 (* buffIndex_ advances *)
   Scheduler.Step; Scheduler.Step; (* the two threads are started *)
   Scheduler.FetchRuns; Scheduler.DetectRuns [];
   Scheduler.Step; Scheduler.Step; (* display, publish *)
   Scheduler.Step; Scheduler.Step; (* the two joins *)
   Scheduler.Step;                 (* isNodeRunning() is tested *)
   Scheduler.Step].                (* while (!demoDone_) *)

Definition start_up : list Scheduler.action :=
  [Scheduler.StreamFrame colour_frame depth_frame;
   Scheduler.Step; Scheduler.Step; Scheduler.Step].

Definition stream : Scheduler.action := Scheduler.StreamFrame colour_frame depth_frame.

(** Three requests, 10, 11 and 42, each followed by a streamed pair and
    one iteration; the iterations have ring index 2, 0 and 1. *)
Definition three_requests : list Scheduler.action :=
  start_up
  ++ iteration
  ++ [Scheduler.Request (mkGoal 10 request_frame); stream] ++ iteration
  ++ [Scheduler.Request (mkGoal 11 request_frame); stream] ++ iteration
  ++ [Scheduler.Request (mkGoal 42 request_frame); stream] ++ iteration.

(** The camera stops after one iteration and the node is destroyed. *)
Definition idle_shutdown : list Scheduler.action :=
  start_up ++ iteration ++ [Scheduler.Shutdown].

(** The node not yet started. *)
Definition fresh : Scheduler.node := Scheduler.initial ["person"%string] 4.

End Examples.

(** ** Further definitions *)

(** A network state with the layout the history was sized for. *)
Definition fits (total : nat) (net : Averager.network) : Prop :=
  Averager.well_formed net /\ Averager.sizeNetwork net = total.

(** *** [setupNetwork] and its call in [init()] *)

Module Setup.

(** The members [setupNetwork] assigns from its arguments ([net_], the
    names and the alphabet come from darknet). *)
Record demo : Type := mkDemo {
  demoPrefix_ : option string;      (* [char *]; [None] is the null pointer *)
  demoDelay_ : Z;
  demoFrame_ : Z;
  demoClasses_ : Z;
  demoThresh_ : float;
  demoHier_ : float;
  fullScreen_ : Z
}.

Definition setupNetwork (thresh : float) (classes delay : Z) (prefix : option string)
    (avg_frames : Z) (hier : float) (w h frames fullscreen : Z) : demo :=
  {| demoPrefix_ := prefix;
     demoDelay_ := delay;
     demoFrame_ := avg_frames;
     demoClasses_ := classes;
     demoThresh_ := thresh;
     demoHier_ := hier;
     fullScreen_ := fullscreen |}.

(** [setupNetwork(cfg, weights, data, thresh, detectionNames, numClasses_,
    0, 0, 1, 0.5, 0, 0, 0, 0)] in [init()]. *)
Definition init_demo (thresh : float) (numClasses_ : Z) : demo :=
  setupNetwork thresh numClasses_ 0 None 1 (F.Fin (1 # 2)) 0 0 0 0.

End Setup.

(** *** The state [readParameters] leaves and [publishInThread] restores *)

(** [rosBoxes_] holds one empty vector per class, every counter is 0 and
    no message is queued in [boundingBoxesResults_]. *)
Definition clean (numClasses_ : nat) (res : Pipeline.results) : Prop :=
  Pipeline.rosBoxes_ res = replicate numClasses_ [] /\
  Pipeline.rosBoxCounter_ res = replicate numClasses_ 0%Z /\
  bounding_boxes (Pipeline.boundingBoxesResults_ res) = [].

(** The box messages among the outputs. *)
Definition box_messages (out : list Output) : list BoundingBoxes :=
  omap (fun o => match o with Boxes msg => Some msg | _ => None end) out.

(** The records of class [i] among the first [num] of [roiBoxes_]. *)
Definition of_class (roi : list RosBox_) (num i : nat) : list RosBox_ :=
  filter (fun b => rb_Class b = Z.of_nat i) (take num roi).

(** *** Bookkeeping over the runs of the scheduler *)

Module Discipline.

Import Ingest Pipeline Scheduler.

(** [std::thread::joinable()] *)
Definition joinable (t : thread) : bool :=
  match t with
  | NotJoinable => false
  | _ => true
  end.

(** Which of [fetch_thread] and [detect_thread] is joinable at each place
    of [yolo()]. *)
Definition threads_at (p : place) : bool * bool :=
  match p with
  | SpawnDetect => (true, false)
  | Display | Publish | JoinFetch => (true, true)
  | JoinDetect => (false, true)
  | _ => (false, false)
  end.

Definition tidy (n : node) : Prop :=
  (joinable (fetch_thread (ctl n)), joinable (detect_thread (ctl n)))
  = threads_at (at_ (ctl n)).

(** 1 between the return of [sem_wait] and [++count]. *)
Definition in_flight (p : place) : Z :=
  match p with
  | Advance | SpawnFetch | SpawnDetect | Display | Publish | JoinFetch | JoinDetect
  | CheckRunning => 1
  | _ => 0
  end.

(** 1 between the assignment to [buffIndex_] and [++count]. *)
Definition advanced (p : place) : Z :=
  match p with
  | SpawnFetch | SpawnDetect | Display | Publish | JoinFetch | JoinDetect
  | CheckRunning => 1
  | _ => 0
  end.

(** 1 between [publishInThread] and [++count]. *)
Definition after_publish (p : place) : Z :=
  match p with
  | JoinFetch | JoinDetect | CheckRunning => 1
  | _ => 0
  end.

Section WithDecoder.

Variable toCvCopy_BGR8 : Image -> CvResult Z.
Variable toCvCopy_32FC1 : Image -> CvResult float.

(** The streamed pairs both of whose conversions return an image: the
    ones for which [zedCameraCallback] reaches [sem_post]. *)
Definition decodes (a : action) : bool :=
  match a with
  | StreamFrame img_msg dmap_msg =>
      match decode_pair toCvCopy_BGR8 toCvCopy_32FC1 img_msg dmap_msg with
      | inr (Some _, Some _) => true
      | _ => false
      end
  | _ => false
  end.

Definition posted (tr : list action) : Z :=
  Z.of_nat (length (List.filter decodes tr)).

End WithDecoder.

Definition is_request (a : action) : bool :=
  match a with
  | Request _ => true
  | _ => false
  end.

Definition requested (tr : list action) : Z :=
  Z.of_nat (length (List.filter is_request tr)).

Definition active (s : server) : Z := if isActive s then 1 else 0.

(** The three arrays have three slots and the index is one of them. *)
Definition ring_ok (r : ring) : Prop :=
  Ring.in_ring (buffIndex_ r) /\ length (buff_ r) = 3%nat /\
  length (headerBuff_ r) = 3%nat /\ length (buffId_ r) = 3%nat.

(** What one iteration does to the ring: [buffIndex_ = (buffIndex_ + 1) % 3]
    in [yolo()], then [fetchInThread] on the frame staged at that time. *)
Definition turn (s : staging) (r : ring) : ring :=
  fetchInThread s
    (mkRing (Ring.advance (buffIndex_ r)) (buff_ r) (headerBuff_ r) (buffId_ r)).

(** Neither a streamed pair nor a preemption. *)
Definition quiet (a : action) : bool :=
  match a with
  | StreamFrame _ _ | Preempt => false
  | _ => true
  end.

(** [cvWaitKey] returned the escape key: [c != -1], [c % 256 == 27]. *)
Definition esc (key : Z) : bool :=
  ((if key =? -1 then key else Z.rem key 256) =? 27)%Z.

(** What an iteration of the loop depends on and changes. *)
Definition view (n : node)
    : place * thread * thread * Z * bool * bool * nat * Z * staging * settings
      * list RosBox_ * Z :=
  (at_ (ctl n), fetch_thread (ctl n), detect_thread (ctl n), count (ctl n),
   isNodeRunning_ (ctl n), demoDone_ (ctl n), sem_new_image_ (ingest n),
   buffIndex_ (ring_ n), staged (ingest n), config n, roiBoxes_ (results_ n),
   key (around n)).

(** One iteration of the loop of [yolo()], from [sem_wait] to the test of
    the loop, in which both workers finish before the frame is displayed;
    [dets] is what the decoder hands to the extraction. *)
Definition round (dets : list detection) : list action :=
  [Step; Step; Step; Step; FetchRuns; DetectRuns dets;
   Step; Step; Step; Step; Step; Step].

End Discipline.

(** *** The keys read by [displayInThread] *)

Module Keys.

(** The members the key handler changes. *)
Record thresholds : Type := mkThresholds {
  demoThresh_ : float;
  demoHier_ : float;
  demoDone_ : bool
}.

(** The literal [.02], a [double]: the binary64 number nearest to 2/100,
    which is 5764607523034235 / 2^58. *)
Definition d02 : Q := 5764607523034235 # 288230376151711744.

Section WithFloat.

(** [demoThresh_] and [demoHier_] are [float]s and the literals are
    [double]s, so each [+=] and [-=] is computed in [double] and its
    result converted to [float] by the assignment.  [to_float q] is what
    the member holds when the exact result is [q]; the comparisons with a
    literal are made in [double], on the exact value of the member. *)
Variable to_float : Q -> float.

(** The assignment of a [double] expression to a [float] member. *)
Definition store (a : float) : float :=
  match a with
  | F.Fin q => to_float q
  | _ => a
  end.

(** [int c = cvWaitKey(waitKeyDelay_); if (c != -1) c = c%256;] and the
    chain of tests on [c] that follows, [key] being what [cvWaitKey]
    returned. *)
Definition displayInThread (key : Z) (t : thresholds) : thresholds :=
  let c := if (key =? -1)%Z then key else Z.rem key 256 in
  if (c =? 27)%Z then mkThresholds (demoThresh_ t) (demoHier_ t) true
  else if (c =? 82)%Z then
    mkThresholds (store (F.add (demoThresh_ t) (F.Fin d02))) (demoHier_ t)
      (demoDone_ t)
  else if (c =? 84)%Z then
    let thresh := store (F.sub (demoThresh_ t) (F.Fin d02)) in
    mkThresholds (if F.leb thresh (F.Fin d02) then store (F.Fin d02) else thresh)
      (demoHier_ t) (demoDone_ t)
  else if (c =? 83)%Z then
    mkThresholds (demoThresh_ t) (store (F.add (demoHier_ t) (F.Fin d02)))
      (demoDone_ t)
  else if (c =? 81)%Z then
    let hier := store (F.sub (demoHier_ t) (F.Fin d02)) in
    mkThresholds (demoThresh_ t) (if F.leb hier F.zero then store F.zero else hier)
      (demoDone_ t)
  else t.

(** The calls of [displayInThread] of successive iterations. *)
Definition displays (keys : list Z) (t : thresholds) : thresholds :=
  foldl (fun t key => displayInThread key t) t keys.

(** What the theorems use of the conversion: it is monotone, and it
    leaves a value that is a [float] already as it is (both hold of
    rounding to nearest, also after the rounding to [double] of the
    operation itself). *)
Definition monotone : Prop :=
  forall p q : Q, (p <= q)%Q -> F.le (to_float p) (to_float q).

Definition exact_on_floats : Prop :=
  forall (p q : Q), to_float p = F.Fin q -> to_float q = F.Fin q.

(** The members hold [float]s. *)
Definition holds_floats (t : thresholds) : Prop :=
  store (demoThresh_ t) = demoThresh_ t /\ store (demoHier_ t) = demoHier_ t.

End WithFloat.

(** A conversion for the examples: rounding to the nearest multiple of
    2^-29, ties to the even multiple.  Between 2^-6 and 2^-5, where .02
    lies, the [float]s are the multiples of 2^-29. *)
Definition nearest_even (x : Q) : Z :=
  let n := Qfloor x in
  match (x - inject_Z n ?= 1 # 2)%Q with
  | Lt => n
  | Gt => (n + 1)%Z
  | Eq => if Z.even n then n else (n + 1)%Z
  end.

Definition to_grid (q : Q) : float :=
  F.Fin (inject_Z (nearest_even (q * 536870912)) / 536870912).

End Keys.

(** *** The copy to the display image in [displayInThread] *)

Module Display.

(** darknet's [image]: [c] planes of [h] rows of [w] values. *)
Record image : Type := mkPlanes {
  w : Z;
  h : Z;
  c : Z;
  data : list float
}.

(** The part of [IplImage] the copy uses; a byte of [imageData] is
    modelled by its value as [unsigned char]. *)
Record IplImage : Type := mkIpl {
  widthStep : Z;
  imageData : list Z
}.

(** [assert(x < m.w && y < m.h && c < m.c); return m.data[c*m.h*m.w + y*m.w + x];]
    [None]: the assertion fails or the read is outside [m.data]. *)
Definition get_pixel (m : image) (x y k : Z) : option float :=
  if ((x <? w m) && (y <? h m) && (k <? c m))%Z then
    let i := (k * h m * w m + y * w m + x)%Z in
    if (0 <=? i)%Z then data m !! Z.to_nat i else None
  else None.

(** The conversion [(unsigned char) f]: defined only when the truncated
    value is representable. *)
Definition to_uchar (a : float) : option Z :=
  match a with
  | F.Fin q =>
      let z := F.Qtrunc q in
      if ((0 <=? z) && (z <=? 255))%Z then Some z else None
  | _ => None
  end.

(** The index triples in the order of the three nested loops. *)
Definition points (p : image) : list (Z * Z * Z) :=
  y ← seqZ 0 (h p); x ← seqZ 0 (w p); k ← seqZ 0 (c p); [(y, x, k)].

(** [disp->imageData[y*step + x*p.c + k] =
     (unsigned char)(get_pixel(p,x,y,k)*255);] *)
Definition store (p : image) (step : Z) (imageData : list Z) (yxk : Z * Z * Z)
    : option (list Z) :=
  let '(y, x, k) := yxk in
  v ← get_pixel p x y k;
  b ← to_uchar (F.mul v (F.of_int 255));
  let i := (y * step + x * c p + k)%Z in
  if ((0 <=? i) && (i <? Z.of_nat (length imageData)))%Z
  then Some (<[Z.to_nat i := b]> imageData)
  else None.

(** The byte position written for an index triple, and the byte written
    there. *)
Definition target (p : image) (step : Z) (yxk : Z * Z * Z) : nat :=
  Z.to_nat (yxk.1.1 * step + yxk.1.2 * c p + yxk.2).

Definition byte (p : image) (yxk : Z * Z * Z) : option Z :=
  v ← get_pixel p yxk.1.2 yxk.1.1 yxk.2;
  to_uchar (F.mul v (F.of_int 255)).

Definition copy (p : image) (disp : IplImage) : option IplImage :=
  imageData' ← Detect.for_each (store p (widthStep disp)) (points p) (imageData disp);
  Some (mkIpl (widthStep disp) imageData').

End Display.

(** * Properties *)

(** ** Comparisons of floating-point values *)

Section FloatFacts.

Local Open Scope Q_scope.

Lemma Qlt_bool_iff (p q : Q) : F.Qlt_bool p q = true <-> p < q.
Proof.
  unfold F.Qlt_bool. rewrite negb_true_iff, <- not_true_iff_false, Qle_bool_iff.
  split; [apply Qnot_le_lt | apply Qlt_not_le].
Qed.

Lemma Qlt_bool_false (p q : Q) : F.Qlt_bool p q = false <-> q <= p.
Proof.
  unfold F.Qlt_bool. rewrite negb_false_iff. apply Qle_bool_iff.
Qed.

Lemma ltb_Fin (p q : Q) : F.ltb (F.Fin p) (F.Fin q) = true <-> p < q.
Proof. apply Qlt_bool_iff. Qed.


Lemma same_refl (a : float) : F.same a a.
Proof. destruct a; simpl; auto. reflexivity. Qed.

Lemma same_sym (a b : float) : F.same a b -> F.same b a.
Proof. destruct a, b; simpl; auto. intros H. symmetry. exact H. Qed.

Lemma same_trans (a b c : float) : F.same a b -> F.same b c -> F.same a c.
Proof.
  destruct a, b, c; simpl; auto; try contradiction.
  intros H1 H2. rewrite H1. exact H2.
Qed.

End FloatFacts.

(** ** The buffer ring *)

Section RingFacts.

Local Open Scope Z_scope.

Lemma advance_in_ring (i : Z) : Ring.in_ring i -> Ring.in_ring (Ring.advance i).
Proof.
  unfold Ring.in_ring, Ring.advance. intros H.
  rewrite Z.rem_mod_nonneg by lia. apply Z.mod_pos_bound. lia.
Qed.

Lemma index_after_in_ring (n : nat) (b0 : Z) :
  Ring.in_ring b0 -> Ring.in_ring (Ring.index_after n b0).
Proof.
  intros H. induction n as [| n IH]; simpl; [exact H | now apply advance_in_ring].
Qed.

(** C5: in every iteration of the loop of [yolo()], whatever the number
    [n] of iterations made before, the ring index [i] is one of 0, 1, 2
    and the slot filled by [fetchInThread] ([i]), the slot read by
    [detectInThread] ([(i+2) % 3]) and the slot shown by
    [displayInThread] ([(i+1) % 3]) are pairwise distinct: they are a
    permutation of 0, 1, 2. *)
Theorem ring_slots_distinct (b0 : Z) (n : nat) :
  Ring.in_ring b0 ->
  let i := Ring.index_after n b0 in
  Ring.in_ring i /\
  Ring.fetch_slot i <> Ring.detect_slot i /\
  Ring.detect_slot i <> Ring.display_slot i /\
  Ring.fetch_slot i <> Ring.display_slot i /\
  Ring.slots i ≡ₚ [0; 1; 2].
Proof.
  intros H0 i.
  assert (Hi : Ring.in_ring i) by now apply index_after_in_ring.
  split; [exact Hi |].
  unfold Ring.in_ring in Hi.
  assert (Hc : i = 0 \/ i = 1 \/ i = 2) by lia.
  destruct Hc as [-> | [-> | ->]].
  - change (Ring.slots 0) with [0; 2; 1].
    change (Ring.detect_slot 0) with 2. change (Ring.display_slot 0) with 1.
    change (Ring.fetch_slot 0) with 0.
    repeat split; try lia. constructor. apply perm_swap.
  - change (Ring.slots 1) with [1; 0; 2].
    change (Ring.detect_slot 1) with 0. change (Ring.display_slot 1) with 2.
    change (Ring.fetch_slot 1) with 1.
    repeat split; try lia. apply perm_swap.
  - change (Ring.slots 2) with [2; 1; 0].
    change (Ring.detect_slot 2) with 1. change (Ring.display_slot 2) with 0.
    change (Ring.fetch_slot 2) with 2.
    repeat split; try lia.
    etransitivity; [apply perm_swap |].
    etransitivity; [constructor; apply perm_swap |]. apply perm_swap.
Qed.

Lemma ring_slots_distinct_witness :
  Ring.in_ring 0 /\
  Ring.slots (Ring.index_after 4 0) ≡ₚ [0; 1; 2].
Proof.
  split; [unfold Ring.in_ring; lia |].
  apply (ring_slots_distinct 0 4). unfold Ring.in_ring. lia.
Defined.

End RingFacts.

(** ** The depth estimate *)

Section DepthFacts.

Variable camDmapCopy_ : Mat float.
Variables frameWidth_ frameHeight_ : Z.

Local Abbreviation sample := (Depth.sample camDmapCopy_ frameWidth_ frameHeight_).
Local Abbreviation collect := (Depth.collect camDmapCopy_ frameWidth_ frameHeight_).
Local Abbreviation readings := (Depth.readings camDmapCopy_ frameWidth_ frameHeight_).
Local Abbreviation getObjDepth := (Depth.getObjDepth camDmapCopy_ frameWidth_ frameHeight_).

Local Abbreviation fle := F.le.

(** The loop keeps exactly the normal readings, in loop order. *)
Lemma collect_filter xmin xmax ymin ymax pts acc :
  collect xmin xmax ymin ymax pts acc =
  ds ← mapM (sample xmin xmax ymin ymax) pts;
  Some (acc ++ List.filter F.isnormal ds).
Proof.
  revert acc. induction pts as [| ij pts IH]; intros acc; simpl.
  - now rewrite app_nil_r.
  - destruct (sample xmin xmax ymin ymax ij) as [d |]; simpl; [| reflexivity].
    rewrite IH.
    destruct (mapM (sample xmin xmax ymin ymax) pts) as [ds |]; simpl; [| reflexivity].
    destruct (F.isnormal d); simpl; [now rewrite <- app_assoc | reflexivity].
Qed.

Lemma insert_perm d l : Depth.insert d l ≡ₚ d :: l.
Proof.
  induction l as [| e l IH]; simpl; [reflexivity |].
  destruct (F.ltb d e); [reflexivity |].
  rewrite IH. apply perm_swap.
Qed.

Lemma sort_perm l : Depth.sort l ≡ₚ l.
Proof.
  induction l as [| d l IH]; simpl; [reflexivity |].
  rewrite insert_perm. now constructor.
Qed.









End DepthFacts.

Section GridFacts.

Local Open Scope Q_scope.

Lemma coord_Fin (a b : Q) (k : Z) :
  Depth.coord (F.Fin a) (F.Fin b) k = F.Fin (a + inject_Z k * (b - a) / 4).
Proof. reflexivity. Qed.

(** The three grid coordinates lie strictly between the two edges. *)
Lemma coord_inside (a b : Q) (k : Z) :
  a < b -> (1 <= k <= 3)%Z ->
  a < a + inject_Z k * (b - a) / 4 /\ a + inject_Z k * (b - a) / 4 < b.
Proof.
  intros Hab Hk.
  assert (Hc : k = 1%Z \/ k = 2%Z \/ k = 3%Z) by lia.
  unfold Qdiv. change (/ 4) with (1 # 4).
  destruct Hc as [-> | [-> | ->]].
  - change (inject_Z 1) with 1. split; lra.
  - change (inject_Z 2) with 2. split; lra.
  - change (inject_Z 3) with 3. split; lra.
Qed.

Lemma grid_range (ij : Z * Z) :
  ij ∈ Depth.grid -> (1 <= ij.1 <= 3)%Z /\ (1 <= ij.2 <= 3)%Z.
Proof.
  intros H. apply list_elem_of_In in H. vm_compute in H.
  repeat (destruct H as [<- | H]; [simpl; lia |]). contradiction.
Qed.

Lemma Qtrunc_bounds (q : Q) (W : Z) :
  0 <= q -> q < inject_Z W -> (0 <= F.Qtrunc q < W)%Z.
Proof.
  intros H0 HW. unfold F.Qtrunc.
  assert (Hn : (0 <= Qnum q)%Z).
  { unfold Qle in H0. simpl in H0. lia. }
  rewrite Z.quot_div_nonneg by lia.
  replace (Qnum q / Z.pos (Qden q))%Z with (Qfloor q) by now destruct q.
  split.
  - change 0%Z with (Qfloor 0). now apply Qfloor_resp_le.
  - apply Z.lt_le_trans with (Qfloor q + 1)%Z; [lia |].
    assert (Hf : inject_Z (Qfloor q) <= q) by apply Qfloor_le.
    assert (Hlt : inject_Z (Qfloor q) < inject_Z W) by (eapply Qle_lt_trans; eauto).
    rewrite <- Zlt_Qlt in Hlt. lia.
Qed.

Lemma to_int_scaled (x : Q) (W : Z) :
  0 <= x -> x < 1 -> (0 < W <= F.INT_MAX)%Z ->
  exists z, F.to_int (F.mul (F.Fin x) (F.of_int W)) = Some z /\ (0 <= z < W)%Z.
Proof.
  intros H0 H1 HW. simpl.
  assert (HWq : 0 < inject_Z W).
  { change 0 with (inject_Z 0). rewrite <- Zlt_Qlt. lia. }
  assert (Hb : (0 <= F.Qtrunc (x * inject_Z W) < W)%Z).
  { apply Qtrunc_bounds.
    - apply Qmult_le_0_compat; [exact H0 | now apply Qlt_le_weak].
    - apply Qlt_le_trans with (1 * inject_Z W).
      + now apply Qmult_lt_compat_r.
      + rewrite Qmult_1_l. apply Qle_refl. }
  exists (F.Qtrunc (x * inject_Z W)). split; [| exact Hb].
  assert (Hmin : (F.INT_MIN <= 0)%Z) by (vm_compute; discriminate).
  destruct (Z.leb_spec F.INT_MIN (F.Qtrunc (x * inject_Z W))); [| lia].
  destruct (Z.leb_spec (F.Qtrunc (x * inject_Z W)) F.INT_MAX); [reflexivity | lia].
Qed.

End GridFacts.

Section DepthDefined.

Variable camDmapCopy_ : Mat float.
Variables frameWidth_ frameHeight_ : Z.

Local Abbreviation covers_frame :=
  (Depth.covers_frame camDmapCopy_ frameWidth_ frameHeight_).

Lemma Mat_at_inside (r c : Z) :
  covers_frame -> (0 <= r < frameHeight_)%Z -> (0 <= c < frameWidth_)%Z ->
  is_Some (Mat_at camDmapCopy_ r c).
Proof.
  intros (Hr & Hc & _ & _ & Hlen) Hrr Hcc. unfold Mat_at.
  rewrite Hr, Hc.
  destruct (Z.leb_spec 0 r); [| lia].
  destruct (Z.ltb_spec r frameHeight_); [| lia].
  destruct (Z.leb_spec 0 c); [| lia].
  destruct (Z.ltb_spec c frameWidth_); [| lia]. simpl.
  apply lookup_lt_is_Some. nia.
Qed.

(** Inside the unit frame every grid sample reads the depth map. *)
Lemma sample_defined (a b c d : Q) (ij : Z * Z) :
  covers_frame -> ij ∈ Depth.grid ->
  (0 <= a)%Q -> (a < b)%Q -> (b <= 1)%Q -> (0 <= c)%Q -> (c < d)%Q -> (d <= 1)%Q ->
  is_Some (Depth.sample camDmapCopy_ frameWidth_ frameHeight_
             (F.Fin a) (F.Fin b) (F.Fin c) (F.Fin d) ij).
Proof.
  intros Hcov Hij Ha Hab Hb Hc Hcd Hd.
  destruct (grid_range ij Hij) as [Hi Hj].
  destruct (coord_inside a b ij.2 Hab Hj) as [Hx1 Hx2].
  destruct (coord_inside c d ij.1 Hcd Hi) as [Hy1 Hy2].
  pose proof Hcov as (_ & _ & Hh & Hw & _).
  unfold Depth.sample. rewrite !coord_Fin.
  destruct (to_int_scaled (c + inject_Z ij.1 * (d - c) / 4) frameHeight_)
    as (r & -> & Hr); [lra | lra | exact Hh |].
  destruct (to_int_scaled (a + inject_Z ij.2 * (b - a) / 4) frameWidth_)
    as (k & -> & Hk); [lra | lra | exact Hw |].
  simpl. now apply Mat_at_inside.
Qed.

Lemma mapM_defined {A B} (f : A -> option B) (l : list A) :
  (forall x, x ∈ l -> is_Some (f x)) -> is_Some (mapM f l).
Proof.
  intros H. induction l as [| x l IH]; simpl; [eauto |].
  destruct (H x) as [y Hy]; [left |]. rewrite Hy. simpl.
  destruct IH as [ys Hys]; [intros z Hz; apply H; now right |].
  rewrite Hys. simpl. eauto.
Qed.

Lemma getObjDepth_defined (a b c d : Q) :
  covers_frame ->
  (0 <= a)%Q -> (a < b)%Q -> (b <= 1)%Q -> (0 <= c)%Q -> (c < d)%Q -> (d <= 1)%Q ->
  is_Some (Depth.getObjDepth camDmapCopy_ frameWidth_ frameHeight_
             (F.Fin a) (F.Fin b) (F.Fin c) (F.Fin d)).
Proof.
  intros Hcov Ha Hab Hb Hc Hcd Hd. unfold Depth.getObjDepth.
  rewrite collect_filter.
  destruct (mapM_defined
              (Depth.sample camDmapCopy_ frameWidth_ frameHeight_
                 (F.Fin a) (F.Fin b) (F.Fin c) (F.Fin d)) Depth.grid) as [ds Hds].
  { intros ij Hij. now apply sample_defined. }
  rewrite Hds. simpl. eauto.
Qed.

End DepthDefined.

Section DepthEstimate.

Variable camDmapCopy_ : Mat float.
Variables frameWidth_ frameHeight_ : Z.

Local Abbreviation readings := (Depth.readings camDmapCopy_ frameWidth_ frameHeight_).
Local Abbreviation getObjDepth := (Depth.getObjDepth camDmapCopy_ frameWidth_ frameHeight_).

Lemma getObjDepth_readings xmin xmax ymin ymax ds :
  readings xmin xmax ymin ymax = Some ds ->
  getObjDepth xmin xmax ymin ymax =
  Some (Depth.pick (Depth.sort (List.filter F.isnormal ds))).
Proof.
  intros H. unfold Depth.getObjDepth. rewrite collect_filter.
  unfold Depth.readings in H. rewrite H. reflexivity.
Qed.


End DepthEstimate.


(** ** Box extraction *)

Section ClipFacts.

Local Open Scope Q_scope.

(** One axis: an extent above the threshold forces both clipped edges to
    be finite, ordered and inside the unit interval. *)
Lemma extent_clipped (lo hi : float) :
  F.gtb (F.sub (Detect.clip_high hi) (Detect.clip_low lo)) Detect.min_extent = true ->
  exists a b,
    Detect.clip_low lo = F.Fin a /\ Detect.clip_high hi = F.Fin b /\
    0 <= a /\ a < b /\ b <= 1.
Proof.
  unfold Detect.clip_low, Detect.clip_high, F.gtb, Detect.min_extent.
  destruct lo as [| | | p], hi as [| | | q]; simpl;
    repeat match goal with
           | |- context [F.Qlt_bool ?x ?y] =>
               let E := fresh "E" in destruct (F.Qlt_bool x y) eqn:E; simpl
           end;
    try discriminate; intros _;
    repeat match goal with
           | H : F.Qlt_bool _ _ = true |- _ => apply Qlt_bool_iff in H
           | H : F.Qlt_bool _ _ = false |- _ => apply Qlt_bool_false in H
           end;
    eexists _, _; (split; [reflexivity |]); (split; [reflexivity |]);
    repeat split; lra.
Qed.

Lemma big_enough_clip (e0 : Detect.edges) :
  Detect.big_enough (Detect.clip e0) = true ->
  exists a b c d,
    Detect.clip e0 = Detect.mkEdges (F.Fin a) (F.Fin c) (F.Fin b) (F.Fin d) /\
    0 <= a /\ a < b /\ b <= 1 /\ 0 <= c /\ c < d /\ d <= 1.
Proof.
  unfold Detect.big_enough, Detect.BBox_width, Detect.BBox_height. simpl.
  intros [Hw Hh]%andb_prop.
  destruct (extent_clipped _ _ Hw) as (a & b & Ha & Hb & ?).
  destruct (extent_clipped _ _ Hh) as (c & d & Hc & Hd & ?).
  exists a, b, c, d. unfold Detect.clip. rewrite Ha, Hb, Hc, Hd.
  split; [reflexivity | tauto].
Qed.

(** Clipping is one-sided: the lower edges are never left below 0, the
    upper edges never above 1. *)
Lemma clip_low_not_below (v : float) : F.ltb (Detect.clip_low v) F.zero = false.
Proof.
  unfold Detect.clip_low. destruct (F.ltb v F.zero) eqn:H; [reflexivity | exact H].
Qed.

Lemma clip_high_not_above (v : float) : F.gtb (Detect.clip_high v) F.one = false.
Proof.
  unfold Detect.clip_high. destruct (F.gtb v F.one) eqn:H; [reflexivity | exact H].
Qed.

End ClipFacts.

Arguments Depth.getObjDepth : simpl never.
Arguments Detect.getObjDepth : simpl never.

Section ExtractFacts.

Variable camDmapCopy_ : Mat float.
Variables frameWidth_ frameHeight_ : Z.

Local Abbreviation getObjDepth := (Detect.getObjDepth camDmapCopy_ frameWidth_ frameHeight_).
Local Abbreviation class_body := (Detect.class_body camDmapCopy_ frameWidth_ frameHeight_).
Local Abbreviation box_body := (Detect.box_body camDmapCopy_ frameWidth_ frameHeight_).
Local Abbreviation extract := (Detect.extract camDmapCopy_ frameWidth_ frameHeight_).
Local Abbreviation emitted := (Detect.emitted camDmapCopy_ frameWidth_ frameHeight_).
Local Abbreviation record_of := (Detect.record_of camDmapCopy_ frameWidth_ frameHeight_).
Local Abbreviation edges_of := (fun d : detection => Detect.clip (Detect.raw_edges (bbox d))).

Lemma candidates_cons d dets classes :
  Detect.candidates (d :: dets) classes =
  List.map (pair d) (seq 0 classes) ++ Detect.candidates dets classes.
Proof.
  unfold Detect.candidates. simpl.
  f_equal; induction (seq 0 classes) as [| j js IH]; simpl;
    first [reflexivity | now rewrite IH].
Qed.

Lemma elem_of_candidates d j dets classes :
  (d, j) ∈ Detect.candidates dets classes <-> d ∈ dets /\ (j < classes)%nat.
Proof.
  induction dets as [| d' dets IH].
  - unfold Detect.candidates. simpl. rewrite !elem_of_nil. tauto.
  - rewrite candidates_cons, elem_of_app, IH, elem_of_cons.
    rewrite list_elem_of_In, List.in_map_iff.
    split.
    + intros [(j' & Heq & Hin) | [Hd Hj]]; [| tauto].
      inversion Heq; subst. apply List.in_seq in Hin. split; [now left | lia].
    + intros [[-> | Hd] Hj]; [left | tauto].
      exists j. split; [reflexivity |]. apply List.in_seq. lia.
Qed.

Lemma emitted_app cs1 cs2 st st1 st2 :
  emitted cs1 st st1 -> emitted cs2 st1 st2 -> emitted (cs1 ++ cs2) st st2.
Proof.
  revert st. induction cs1 as [| c cs1 IH]; simpl; intros st.
  - now intros ->.
  - intros (p & old & depth & Hp & Hold & Hd & Hrest) H2.
    exists p, old, depth. repeat split; auto.
Qed.

Lemma class_body_eq d e st j :
  class_body d e st j =
  match prob d !! j with
  | None => None
  | Some p =>
      if F.truthy p && Detect.big_enough e then
        old ← st.1 !! st.2;
        depth ← getObjDepth e;
        Some (<[st.2 := Detect.fill old e depth p j]> st.1, S st.2)
      else Some st
  end.
Proof.
  unfold Detect.class_body. destruct (prob d !! j) as [p |]; simpl; [| reflexivity].
  destruct (F.truthy p), (Detect.big_enough e); reflexivity.
Qed.

Lemma survives_eq d j :
  Detect.survives (d, j) =
  match prob d !! j with
  | Some p => F.truthy p && Detect.big_enough (edges_of d)
  | None => false
  end.
Proof. reflexivity. Qed.

(** The inner loop writes exactly the surviving candidates of its box. *)
Lemma class_loop_emitted d js st st' :
  Detect.for_each (class_body d (edges_of d)) js st = Some st' ->
  emitted (List.filter Detect.survives (List.map (pair d) js)) st st'.
Proof.
  revert st. induction js as [| j js IH]; intros st H.
  - simpl in *. now inversion H.
  - cbn [Detect.for_each] in H. rewrite class_body_eq in H.
    cbn [List.map List.filter]. rewrite survives_eq.
    destruct (prob d !! j) as [p |] eqn:Hp; [| discriminate].
    destruct (F.truthy p && Detect.big_enough (edges_of d)); [| now apply IH].
    destruct (st.1 !! st.2) as [old |] eqn:Hold; [| discriminate].
    destruct (getObjDepth (edges_of d)) as [depth |] eqn:Hdepth; [| discriminate].
    exists p, old, depth. repeat split; auto.
Qed.

Lemma box_body_eq classes st d :
  box_body classes st d =
  Detect.for_each (class_body d (edges_of d)) (seq 0 classes) st.
Proof. reflexivity. Qed.

Lemma box_loop_emitted dets classes st st' :
  Detect.for_each (box_body classes) dets st = Some st' ->
  emitted (List.filter Detect.survives (Detect.candidates dets classes)) st st'.
Proof.
  revert st. induction dets as [| d dets IH]; intros st H.
  - simpl in H. now inversion H.
  - cbn [Detect.for_each] in H. rewrite box_body_eq in H.
    destruct (Detect.for_each (class_body d (edges_of d)) (seq 0 classes) st)
      as [st1 |] eqn:H1; [| discriminate].
    cbn [mbind option_bind] in H.
    rewrite candidates_cons, List.filter_app.
    apply emitted_app with st1; [apply class_loop_emitted; exact H1 | now apply IH].
Qed.

(** What a sequence of writes does to the array and to [count]. *)
Lemma emitted_spec cs st st' :
  emitted cs st st' ->
  st'.2 = (st.2 + length cs)%nat /\
  length st'.1 = length st.1 /\
  (cs <> [] -> (st.2 + length cs <= length st.1)%nat) /\
  (forall k, (k < st.2)%nat -> st'.1 !! k = st.1 !! k) /\
  (forall k c, cs !! k = Some c ->
     exists r old,
       st'.1 !! (st.2 + k)%nat = Some r /\ record_of c r /\
       st.1 !! (st.2 + k)%nat = Some old /\ rb_num r = rb_num old).
Proof.
  revert st. induction cs as [| c cs IH]; simpl; intros st.
  - intros ->. repeat split; try lia; try tauto. intros k c Hk.
    now rewrite lookup_nil in Hk.
  - intros (p & old & depth & Hp & Hold & Hd & Hrest).
    pose proof (lookup_lt_Some _ _ _ Hold) as Hlt.
    destruct (IH _ Hrest) as (Hcount & Hlen & Hcap & Hpre & Hrec). simpl in *.
    rewrite length_insert in *.
    split; [lia |]. split; [exact Hlen |].
    split.
    { intros _. destruct cs as [| c' cs]; [simpl; lia |].
      simpl length in *. specialize (Hcap ltac:(discriminate)). lia. }
    split.
    { intros k Hk. rewrite Hpre by lia. apply list_lookup_insert_ne. lia. }
    intros [| k] c0 Hk; simpl in Hk.
    + inversion Hk; subst c0. rewrite Nat.add_0_r.
      rewrite Hpre by lia. rewrite list_lookup_insert_eq by exact Hlt.
      eexists _, old. split; [reflexivity |].
      split; [| split; [exact Hold | reflexivity]].
      unfold Detect.record_of. simpl. repeat split; auto.
    + destruct (Hrec k c0 Hk) as (r & old' & Hr & Hof & Hold' & Hnum).
      replace (st.2 + S k)%nat with (S (st.2 + k)) by lia.
      rewrite list_lookup_insert_ne in Hold' by lia.
      exists r, old'. split; [exact Hr |]. split; [exact Hof |].
      split; [exact Hold' | exact Hnum].
Qed.

Lemma record_of_set_num c r n :
  record_of c r -> record_of c (set_num n r).
Proof. unfold Detect.record_of. simpl. tauto. Qed.

(** The result of the whole extraction: [count] is the number of
    surviving candidates, the first [count] entries of [roiBoxes_] hold
    their records in loop order, and [roiBoxes_[0].num] is [count]. *)
Lemma extract_spec dets classes roi roi' n :
  extract dets classes roi = Some (roi', n) ->
  let cs := List.filter Detect.survives (Detect.candidates dets classes) in
  n = length cs /\
  length roi' = length roi /\
  (n <= length roi)%nat /\ (1 <= length roi)%nat /\
  (exists first, roi' !! O = Some first /\ rb_num first = Z.of_nat n) /\
  (forall k c, cs !! k = Some c -> exists r, roi' !! k = Some r /\ record_of c r).
Proof.
  intros H cs. unfold Detect.extract in H.
  destruct (Detect.for_each (box_body classes) dets (roi, O)) as [st |] eqn:Hloop;
    simpl in H; [| discriminate].
  destruct (st.1 !! O) as [first |] eqn:Hfirst; simpl in H; [| discriminate].
  inversion H; subst roi' n; clear H.
  apply box_loop_emitted, emitted_spec in Hloop.
  destruct Hloop as (Hcount & Hlen & Hcap & _ & Hrec). simpl in *.
  fold cs in Hcount, Hcap, Hrec.
  pose proof (lookup_lt_Some _ _ _ Hfirst) as Hlt.
  rewrite length_insert.
  split; [exact Hcount |]. split; [exact Hlen |].
  split. { destruct cs; [simpl in *; lia | specialize (Hcap ltac:(discriminate)); lia]. }
  split; [lia |].
  split.
  { exists (set_num (Z.of_nat st.2) first).
    rewrite list_lookup_insert_eq by exact Hlt. split; reflexivity. }
  intros k c Hk. destruct (Hrec k c Hk) as (r & old & Hr & Hof & _).
  destruct k as [| k].
  - rewrite Hfirst in Hr. inversion Hr; subst r.
    exists (set_num (Z.of_nat st.2) first).
    rewrite list_lookup_insert_eq by exact Hlt.
    split; [reflexivity | now apply record_of_set_num].
  - exists r. rewrite list_lookup_insert_ne by lia. split; assumption.
Qed.

End ExtractFacts.

Section ExtractDefined.

Variable camDmapCopy_ : Mat float.
Variables frameWidth_ frameHeight_ : Z.
Hypothesis covers : Depth.covers_frame camDmapCopy_ frameWidth_ frameHeight_.

Local Abbreviation class_body := (Detect.class_body camDmapCopy_ frameWidth_ frameHeight_).
Local Abbreviation box_body := (Detect.box_body camDmapCopy_ frameWidth_ frameHeight_).
Local Abbreviation extract := (Detect.extract camDmapCopy_ frameWidth_ frameHeight_).
Local Abbreviation edges_of := (fun d : detection => Detect.clip (Detect.raw_edges (bbox d))).

Lemma survivor_depth_defined (d : detection) :
  Detect.big_enough (edges_of d) = true ->
  is_Some (Detect.getObjDepth camDmapCopy_ frameWidth_ frameHeight_ (edges_of d)).
Proof.
  intros H. destruct (big_enough_clip _ H) as (a & b & c & e & He & ?).
  unfold Detect.getObjDepth. rewrite He. simpl.
  apply getObjDepth_defined; tauto.
Qed.

Lemma class_loop_defined d js st :
  (forall j, j ∈ js -> (j < length (prob d))%nat) ->
  (st.2 + length (List.filter Detect.survives (List.map (pair d) js))
   <= length st.1)%nat ->
  exists st',
    Detect.for_each (class_body d (edges_of d)) js st = Some st' /\
    st'.2 = (st.2 + length (List.filter Detect.survives (List.map (pair d) js)))%nat /\
    length st'.1 = length st.1.
Proof.
  revert st. induction js as [| j js IH]; simpl; intros st Hjs Hcap.
  - exists st. repeat split; lia.
  - destruct (lookup_lt_is_Some_2 (prob d) j) as [p Hp]; [apply Hjs; now left |].
    assert (Hjs' : forall j', j' ∈ js -> (j' < length (prob d))%nat)
      by (intros; apply Hjs; now right).
    cbn [Detect.for_each List.map List.filter] in *.
    rewrite class_body_eq. rewrite survives_eq in *. rewrite Hp in *.
    destruct (F.truthy p) eqn:Ht; cbn [andb] in *; [| now apply IH].
    destruct (Detect.big_enough (edges_of d)) eqn:Hbig; [| now apply IH].
    cbn [length] in Hcap.
    destruct (lookup_lt_is_Some_2 st.1 st.2) as [old Hold]; [lia |].
    destruct (survivor_depth_defined d Hbig) as [depth Hdepth].
    rewrite Hold. cbn [mbind option_bind]. rewrite Hdepth. cbn [mbind option_bind].
    destruct (IH (<[st.2 := Detect.fill old (edges_of d) depth p j]> st.1, S st.2))
      as (st' & Hrun & Hcount & Hlen);
      [exact Hjs' | cbn [fst snd]; rewrite length_insert; lia |].
    cbn [fst snd] in *. rewrite length_insert in Hlen.
    exists st'. cbn [length]. repeat split; [exact Hrun | lia | exact Hlen].
Qed.

Lemma box_loop_defined dets classes st :
  Forall (fun d => (classes <= length (prob d))%nat) dets ->
  (st.2 + length (List.filter Detect.survives (Detect.candidates dets classes))
   <= length st.1)%nat ->
  exists st',
    Detect.for_each (box_body classes) dets st = Some st' /\
    length st'.1 = length st.1.
Proof.
  revert st. induction dets as [| d dets IH]; intros st Hprob Hcap.
  - exists st. split; reflexivity.
  - inversion Hprob as [| ? ? Hd Hrest]; subst.
    rewrite candidates_cons, List.filter_app, length_app in Hcap.
    destruct (class_loop_defined d (seq 0 classes) st) as (st1 & Hrun & Hcount & Hlen).
    { intros j Hj. apply list_elem_of_In, List.in_seq in Hj. lia. }
    { lia. }
    destruct (IH st1 Hrest) as (st' & Hrun' & Hlen'); [lia |].
    exists st'. cbn [Detect.for_each]. rewrite box_body_eq, Hrun.
    split; [exact Hrun' | lia].
Qed.

(** The extraction is defined whenever the depth map has the size of the
    frame, every detection carries a score per class, and [roiBoxes_]
    has room for the records. *)
Lemma extract_defined dets classes roi :
  Forall (fun d => (classes <= length (prob d))%nat) dets ->
  (1 <= length roi)%nat ->
  (length (List.filter Detect.survives (Detect.candidates dets classes))
   <= length roi)%nat ->
  is_Some (extract dets classes roi).
Proof.
  intros Hprob H1 Hcap. unfold Detect.extract.
  destruct (box_loop_defined dets classes (roi, O)) as (st & Hrun & Hlen);
    [exact Hprob | simpl; lia |].
  rewrite Hrun. simpl in *.
  destruct (lookup_lt_is_Some_2 st.1 O) as [first Hfirst]; [lia |].
  rewrite Hfirst. simpl. eauto.
Qed.

End ExtractDefined.

Section ExtractTheorems.

Variable camDmapCopy_ : Mat float.
Variables frameWidth_ frameHeight_ : Z.

Local Abbreviation extract := (Detect.extract camDmapCopy_ frameWidth_ frameHeight_).
Local Abbreviation record_of := (Detect.record_of camDmapCopy_ frameWidth_ frameHeight_).
Local Abbreviation edges_of := (fun d : detection => Detect.clip (Detect.raw_edges (bbox d))).

Lemma survivor_inv d j :
  Detect.survives (d, j) = true ->
  exists p, prob d !! j = Some p /\ F.truthy p = true /\
            Detect.big_enough (edges_of d) = true.
Proof.
  unfold Detect.survives. simpl. destruct (prob d !! j) as [p |]; [| discriminate].
  intros [? ?]%andb_prop. eauto.
Qed.

(** Every entry below [count] is the record of a surviving candidate. *)
Lemma record_origin dets classes roi roi' n k r :
  extract dets classes roi = Some (roi', n) ->
  (k < n)%nat -> roi' !! k = Some r ->
  exists d j,
    List.filter Detect.survives (Detect.candidates dets classes) !! k = Some (d, j) /\
    d ∈ dets /\ (j < classes)%nat /\ Detect.survives (d, j) = true /\
    record_of (d, j) r.
Proof.
  intros Hex Hk Hr.
  destruct (extract_spec _ _ _ _ _ _ _ _ Hex) as (Hn & _ & _ & _ & _ & Hrec).
  destruct (lookup_lt_is_Some_2
              (List.filter Detect.survives (Detect.candidates dets classes)) k)
    as [[d j] Hc]; [lia |].
  destruct (Hrec k (d, j) Hc) as (r' & Hr' & Hof).
  rewrite Hr in Hr'. inversion Hr'; subst r'.
  assert (Hin : (d, j) ∈ List.filter Detect.survives (Detect.candidates dets classes))
    by (apply list_elem_of_lookup; eauto).
  apply list_elem_of_In, List.filter_In in Hin. destruct Hin as [Hin Hs].
  apply list_elem_of_In, elem_of_candidates in Hin.
  exists d, j. tauto.
Qed.

(** A surviving candidate has its record below [count]. *)
Lemma survivor_recorded dets classes roi roi' n d j :
  extract dets classes roi = Some (roi', n) ->
  d ∈ dets -> (j < classes)%nat -> Detect.survives (d, j) = true ->
  exists k r, (k < n)%nat /\ roi' !! k = Some r /\ record_of (d, j) r.
Proof.
  intros Hex Hd Hj Hs.
  destruct (extract_spec _ _ _ _ _ _ _ _ Hex) as (Hn & _ & _ & _ & _ & Hrec).
  assert (Hin : (d, j) ∈ List.filter Detect.survives (Detect.candidates dets classes)).
  { apply list_elem_of_In, List.filter_In. split; [| exact Hs].
    apply list_elem_of_In, elem_of_candidates. tauto. }
  apply list_elem_of_lookup in Hin. destruct Hin as [k Hk].
  destruct (Hrec k _ Hk) as (r & Hr & Hof).
  exists k, r. split; [| tauto].
  apply lookup_lt_Some in Hk. lia.
Qed.

(** C1 (as amended): clipping is one-sided, so no clipped [xmin] or
    [ymin] is below 0 and no clipped [xmax] or [ymax] is above 1; for every
    box that yields a record the four clipped edges lie in [0,1] and
    [xmin < xmax], [ymin < ymax]; and a box is recorded for every class
    with a non-zero score as soon as its clipped extent passes the size
    test, wherever its unclipped edges were: it is clipped, not dropped
    for reaching outside the frame. *)
Theorem clipped_edges_of_records dets classes roi roi' n :
  extract dets classes roi = Some (roi', n) ->
  (forall d, d ∈ dets ->
     F.ltb (Detect.xmin (edges_of d)) F.zero = false /\
     F.ltb (Detect.ymin (edges_of d)) F.zero = false /\
     F.gtb (Detect.xmax (edges_of d)) F.one = false /\
     F.gtb (Detect.ymax (edges_of d)) F.one = false) /\
  (forall k r, (k < n)%nat -> roi' !! k = Some r ->
     exists d j,
       d ∈ dets /\ (j < classes)%nat /\ record_of (d, j) r /\
       F.in_unit (Detect.xmin (edges_of d)) /\ F.in_unit (Detect.ymin (edges_of d)) /\
       F.in_unit (Detect.xmax (edges_of d)) /\ F.in_unit (Detect.ymax (edges_of d)) /\
       F.lt (Detect.xmin (edges_of d)) (Detect.xmax (edges_of d)) /\
       F.lt (Detect.ymin (edges_of d)) (Detect.ymax (edges_of d))) /\
  (forall d j p,
     d ∈ dets -> (j < classes)%nat -> prob d !! j = Some p -> F.truthy p = true ->
     Detect.big_enough (edges_of d) = true ->
     exists k r, (k < n)%nat /\ roi' !! k = Some r /\ record_of (d, j) r).
Proof.
  intros Hex. split; [| split].
  - intros d _. simpl.
    repeat split; first [apply clip_low_not_below | apply clip_high_not_above].
  - intros k r Hk Hr.
    destruct (record_origin _ _ _ _ _ _ _ Hex Hk Hr) as (d & j & _ & Hd & Hj & Hs & Hof).
    exists d, j. do 3 (split; [assumption |]).
    destruct (survivor_inv _ _ Hs) as (p & _ & _ & Hbig).
    destruct (big_enough_clip _ Hbig) as (a & b & c & e & -> & Ha & Hab & Hb & Hc & Hce & He).
    unfold F.in_unit, F.le, F.lt, F.zero, F.one. simpl.
    rewrite !Qle_bool_iff, !Qlt_bool_iff.
    repeat split; lra.
  - intros d j p Hd Hj Hp Ht Hbig.
    apply (survivor_recorded _ _ _ _ _ _ _ Hex Hd Hj).
    unfold Detect.survives. simpl. rewrite Hp, Ht, Hbig. reflexivity.
Qed.

(** C6: an entry of [roiBoxes_] below [count] is the record of a
    detection and a class whose score is non-zero and whose clipped width
    and clipped height both exceed 0.01; a box that fails the size test,
    such as one 0.005 wide and 0.2 high, yields no record whatever its
    score, and a class whose score is zero yields none either. *)
Theorem record_only_if_big_enough dets classes roi roi' n :
  extract dets classes roi = Some (roi', n) ->
  let cs := List.filter Detect.survives (Detect.candidates dets classes) in
  n = length cs /\
  (forall k r, (k < n)%nat -> roi' !! k = Some r ->
     exists d j p,
       cs !! k = Some (d, j) /\ d ∈ dets /\ (j < classes)%nat /\
       prob d !! j = Some p /\ F.is_zero p = false /\
       F.gtb (Detect.BBox_width (edges_of d)) Detect.min_extent = true /\
       F.gtb (Detect.BBox_height (edges_of d)) Detect.min_extent = true /\
       record_of (d, j) r) /\
  (forall d j, Detect.big_enough (edges_of d) = false -> (d, j) ∉ cs) /\
  (forall d j p, prob d !! j = Some p -> F.is_zero p = true -> (d, j) ∉ cs).
Proof.
  intros Hex cs.
  destruct (extract_spec _ _ _ _ _ _ _ _ Hex) as (Hn & _).
  split; [exact Hn |]. split; [| split].
  - intros k r Hk Hr.
    destruct (record_origin _ _ _ _ _ _ _ Hex Hk Hr) as (d & j & Hc & Hd & Hj & Hs & Hof).
    destruct (survivor_inv _ _ Hs) as (p & Hp & Ht & Hbig).
    exists d, j, p. unfold Detect.big_enough in Hbig.
    apply andb_prop in Hbig. destruct Hbig as [Hw Hh].
    unfold F.truthy in Ht. apply negb_true_iff in Ht.
    split; [exact Hc |]. do 6 (split; [assumption |]). exact Hof.
  - intros d j Hbig Hin.
    apply list_elem_of_In, List.filter_In in Hin. destruct Hin as [_ Hs].
    destruct (survivor_inv _ _ Hs) as (p & _ & _ & Hbig'). congruence.
  - intros d j p Hp Hz Hin.
    apply list_elem_of_In, List.filter_In in Hin. destruct Hin as [_ Hs].
    destruct (survivor_inv _ _ Hs) as (p' & Hp' & Ht & _).
    unfold F.truthy in Ht. rewrite Hp in Hp'. inversion Hp'; subst p'.
    rewrite Hz in Ht. discriminate.
Qed.

End ExtractTheorems.


(** The box [corner] reaches over the left and the upper border; it is
    clipped to the frame and recorded. *)
Lemma clipped_edges_of_records_witness :
  exists roi',
    Detect.extract Examples.depth_4x4 4 4 [Examples.corner] 1 [RosBox_zero]
    = Some (roi', 1%nat) /\
    forall k r, (k < 1)%nat -> roi' !! k = Some r ->
      exists d j,
        d ∈ [Examples.corner] /\ (j < 1)%nat /\
        Detect.record_of Examples.depth_4x4 4 4 (d, j) r /\
        F.in_unit (Detect.xmin (Detect.clip (Detect.raw_edges (bbox d)))) /\
        F.in_unit (Detect.ymin (Detect.clip (Detect.raw_edges (bbox d)))) /\
        F.in_unit (Detect.xmax (Detect.clip (Detect.raw_edges (bbox d)))) /\
        F.in_unit (Detect.ymax (Detect.clip (Detect.raw_edges (bbox d)))) /\
        F.lt (Detect.xmin (Detect.clip (Detect.raw_edges (bbox d))))
             (Detect.xmax (Detect.clip (Detect.raw_edges (bbox d)))) /\
        F.lt (Detect.ymin (Detect.clip (Detect.raw_edges (bbox d))))
             (Detect.ymax (Detect.clip (Detect.raw_edges (bbox d)))).
Proof.
  eexists. split; [vm_compute; reflexivity |].
  eapply (clipped_edges_of_records Examples.depth_4x4 4 4 [Examples.corner] 1
            [RosBox_zero]).
  vm_compute. reflexivity.
Defined.

(** The claim as stated fails for the box [below]: its clipped [ymin] is
    1.25, outside [0,1] and above its clipped [ymax], which is 1. *)
Lemma clipped_edges_counterexample :
  let e := Detect.clip (Detect.raw_edges (bbox Examples.below)) in
  ~ (F.in_unit (Detect.xmin e) /\ F.in_unit (Detect.ymin e) /\
     F.in_unit (Detect.xmax e) /\ F.in_unit (Detect.ymax e) /\
     F.le (Detect.xmin e) (Detect.xmax e) /\ F.le (Detect.ymin e) (Detect.ymax e)).
Proof.
  intros e (_ & [_ H] & _). vm_compute in H. discriminate.
Qed.

(** The box [narrow], 0.005 wide and 0.2 high, is not recorded although
    its score is 0.9. *)
Lemma record_only_if_big_enough_witness :
  exists roi',
    Detect.extract Examples.depth_4x4 4 4 [Examples.narrow] 1 [RosBox_zero]
    = Some (roi', O) /\
    O = length (List.filter Detect.survives (Detect.candidates [Examples.narrow] 1)) /\
    (Examples.narrow, O)
      ∉ List.filter Detect.survives (Detect.candidates [Examples.narrow] 1).
Proof.
  eexists. split; [vm_compute; reflexivity |].
  destruct (record_only_if_big_enough Examples.depth_4x4 4 4 [Examples.narrow] 1
              [RosBox_zero] _ O eq_refl) as (Hn & _ & Hsmall & _).
  split; [exact Hn |]. apply Hsmall. vm_compute. reflexivity.
Defined.

(** ** Frame ingestion *)

Section IngestFacts.

Import Ingest.

Variable toCvCopy_BGR8 : Image -> CvResult Z.
Variable toCvCopy_32FC1 : Image -> CvResult float.

Local Abbreviation decode_pair := (Ingest.decode_pair toCvCopy_BGR8 toCvCopy_32FC1).
Local Abbreviation zedCameraCallback :=
  (Ingest.zedCameraCallback toCvCopy_BGR8 toCvCopy_32FC1).
Local Abbreviation checkForObjectsActionGoalCB :=
  (Ingest.checkForObjectsActionGoalCB toCvCopy_BGR8).

Local Abbreviation stream_throws :=
  (Ingest.stream_throws toCvCopy_BGR8 toCvCopy_32FC1).

Lemma decode_pair_throws img_msg dmap_msg what :
  stream_throws img_msg dmap_msg what -> decode_pair img_msg dmap_msg = inl what.
Proof.
  unfold Ingest.stream_throws, Ingest.decode_pair.
  intros [-> | [Hno ->]]; [reflexivity |].
  destruct (toCvCopy_BGR8 img_msg) as [m | | w]; try reflexivity.
  now destruct (Hno w).
Qed.

(** What a failed decode leaves alone, on the streaming path (either
    conversion throws) and on the request path: the callback logs the
    exception and returns; the staged frame, depth map, header,
    correlation id, image-available flag and frame dimensions, and the
    semaphore, are what they were.  On the streaming path the action
    server is untouched as well; on the request path the goal has been
    accepted before the conversion is tried, and it stays accepted. *)
Theorem decode_failure_keeps_staging (img_msg dmap_msg : Image)
    (goal : CheckForObjectsGoal) (s : state) (what : string) :
  (stream_throws img_msg dmap_msg what ->
   let s' := zedCameraCallback img_msg dmap_msg s in
   staged s' = staged s /\
   sem_new_image_ s' = sem_new_image_ s /\
   actionServer s' = actionServer s /\
   last (log s') = Some (ROS_ERROR ("cv_bridge exception: " ++ what))) /\
  (toCvCopy_BGR8 (goal_image goal) = CvException what ->
   let s' := checkForObjectsActionGoalCB goal s in
   staged s' = staged s /\
   sem_new_image_ s' = sem_new_image_ s /\
   actionServer s' = acceptNewGoal (actionServer s) /\
   last (log s') = Some (ROS_ERROR ("cv_bridge exception: " ++ what))).
Proof.
  split.
  - intros H%decode_pair_throws. unfold Ingest.zedCameraCallback. rewrite H. simpl.
    repeat split. now rewrite last_snoc.
  - intros H. unfold Ingest.checkForObjectsActionGoalCB. rewrite H. simpl.
    repeat split. now rewrite last_snoc.
Qed.

(** C10: a request frame replaces the staged colour frame, the
    correlation id, the frame dimensions and the image-available flag,
    and nothing else: the depth map and the header stay those of the last
    streamed pair, and the semaphore is not posted.  Hence the header
    that [fetchInThread] files with the request frame, and the depth map
    [getObjDepth] reads for it, are the streamed ones. *)
Theorem request_keeps_depth_and_header (s0 : state) (img_msg dmap_msg : Image)
    (image0 : Mat Z) (dmap0 : Mat float)
    (goal : CheckForObjectsGoal) (cam_image : Mat Z) :
  toCvCopy_BGR8 img_msg = CvImage image0 ->
  toCvCopy_32FC1 dmap_msg = CvImage dmap0 ->
  toCvCopy_BGR8 (goal_image goal) = CvImage cam_image ->
  let s := zedCameraCallback img_msg dmap_msg s0 in
  let s' := checkForObjectsActionGoalCB goal s in
  (* what the request changes *)
  camImageCopy_ (staged s') = cam_image /\
  actionId_ (staged s') = goal_id goal /\
  frameWidth_ (staged s') = cols cam_image /\
  frameHeight_ (staged s') = rows cam_image /\
  imageStatus_ (staged s') = true /\
  (* what it leaves *)
  camDmapCopy_ (staged s') = camDmapCopy_ (staged s) /\
  imageHeader_ (staged s') = imageHeader_ (staged s) /\
  sem_new_image_ s' = sem_new_image_ s /\
  (* so the depth map and the header are the streamed ones *)
  camDmapCopy_ (staged s') = dmap0 /\
  imageHeader_ (staged s') = header img_msg /\
  (forall r : Pipeline.ring,
     (Z.to_nat (Pipeline.buffIndex_ r) < length (Pipeline.headerBuff_ r))%nat ->
     Pipeline.headerBuff_ (Pipeline.fetchInThread (staged s') r)
       !! Z.to_nat (Pipeline.buffIndex_ r) = Some (header img_msg)) /\
  (forall e,
     Detect.getObjDepth (camDmapCopy_ (staged s')) (frameWidth_ (staged s'))
       (frameHeight_ (staged s')) e
     = Detect.getObjDepth dmap0 (cols cam_image) (rows cam_image) e).
Proof.
  intros Himg Hdmap Hgoal s s'.
  unfold s', s, Ingest.checkForObjectsActionGoalCB, Ingest.zedCameraCallback,
    Ingest.decode_pair.
  rewrite Himg, Hdmap, Hgoal. cbn.
  repeat split.
  intros r Hr. now apply list_lookup_insert_eq.
Qed.

End IngestFacts.

(** A frame in an encoding that cannot be converted is dropped on both
    paths. *)
Lemma decode_failure_keeps_staging_witness :
  Ingest.stream_throws Examples.to_bgr8 Examples.to_32fc1
    Examples.broken_frame Examples.depth_frame "unsupported conversion" /\
  Examples.to_bgr8 Examples.broken_frame = CvException "unsupported conversion" /\
  Ingest.staged
    (Ingest.zedCameraCallback Examples.to_bgr8 Examples.to_32fc1
       Examples.broken_frame Examples.depth_frame Examples.streamed)
  = Ingest.staged Examples.streamed /\
  Ingest.staged
    (Ingest.checkForObjectsActionGoalCB Examples.to_bgr8
       (mkGoal 42 Examples.broken_frame) Examples.streamed)
  = Ingest.staged Examples.streamed.
Proof.
  assert (H1 : Ingest.stream_throws Examples.to_bgr8 Examples.to_32fc1
                 Examples.broken_frame Examples.depth_frame "unsupported conversion")
    by (left; reflexivity).
  assert (H2 : Examples.to_bgr8 Examples.broken_frame
               = CvException "unsupported conversion") by reflexivity.
  destruct (decode_failure_keeps_staging Examples.to_bgr8 Examples.to_32fc1
              Examples.broken_frame Examples.depth_frame
              (mkGoal 42 Examples.broken_frame) Examples.streamed
              "unsupported conversion") as [Hs Hr].
  split; [exact H1 |]. split; [exact H2 |].
  split; [apply (Hs H1) | apply (Hr H2)].
Defined.

(** A request after a streamed pair: the depth map and the header stay
    those of the streamed pair. *)
Lemma request_keeps_depth_and_header_witness :
  Examples.to_bgr8 Examples.colour_frame
  = CvImage (mkMat 1 2 [10; 20; 30; 40; 50; 60]%Z) /\
  Examples.to_32fc1 Examples.depth_frame
  = CvImage (mkMat 1 2 [F.of_int 3; F.of_int 5]) /\
  Examples.to_bgr8 Examples.request_frame = CvImage (mkMat 1 1 [90; 91; 92]%Z) /\
  let s' := Ingest.checkForObjectsActionGoalCB Examples.to_bgr8
              (mkGoal 42 Examples.request_frame) Examples.streamed in
  Ingest.camDmapCopy_ (Ingest.staged s') = mkMat 1 2 [F.of_int 3; F.of_int 5] /\
  Ingest.imageHeader_ (Ingest.staged s') = mkHeader 7 1000 "zed_left" /\
  Ingest.actionId_ (Ingest.staged s') = 42%Z.
Proof.
  split; [reflexivity |]. split; [reflexivity |]. split; [reflexivity |].
  destruct (request_keeps_depth_and_header Examples.to_bgr8 Examples.to_32fc1
              (Scheduler.ingest (Scheduler.initial ["person"%string] 4))
              Examples.colour_frame Examples.depth_frame
              (mkMat 1 2 [10; 20; 30; 40; 50; 60]%Z)
              (mkMat 1 2 [F.of_int 3; F.of_int 5])
              (mkGoal 42 Examples.request_frame) (mkMat 1 1 [90; 91; 92]%Z)
              eq_refl eq_refl eq_refl)
    as (_ & Hid & _ & _ & _ & _ & _ & _ & Hd & Hh & _).
  split; [exact Hd |]. split; [exact Hh | exact Hid].
Defined.

(** C9 (the code departs from the claim): a request whose frame cannot be
    decoded is not dropped without a trace.  [checkForObjectsActionGoalCB]
    accepts the goal before it tries the conversion and returns from the
    [catch] without closing it: the staging is what it was, but the goal
    is now the active one, where the streaming callback, given the same
    frame, changes neither the staging nor the action server.  The next
    [publishInThread] therefore answers the request as succeeded: after a
    streamed pair and one iteration the caller of request 42 has received
    a result, with the id 0 that no request supplied, and the goal is
    closed. *)
Theorem failed_request_is_answered :
  let goal := mkGoal 42 Examples.broken_frame in
  let s := Examples.streamed in
  let on_request := Ingest.checkForObjectsActionGoalCB Examples.to_bgr8 goal s in
  let on_stream :=
    Ingest.zedCameraCallback Examples.to_bgr8 Examples.to_32fc1
      Examples.broken_frame Examples.depth_frame s in
  Examples.to_bgr8 (goal_image goal) = CvException "unsupported conversion" /\
  (* the streaming path: nothing but the log changes *)
  Ingest.staged on_stream = Ingest.staged s /\
  Ingest.sem_new_image_ on_stream = Ingest.sem_new_image_ s /\
  Ingest.actionServer on_stream = Ingest.actionServer s /\
  (* the request path: the staging is kept, the goal has become active *)
  Ingest.staged on_request = Ingest.staged s /\
  Ingest.sem_new_image_ on_request = Ingest.sem_new_image_ s /\
  Ingest.isActive (Ingest.actionServer s) = false /\
  Ingest.isActive (Ingest.actionServer on_request) = true /\
  Ingest.isCheckingForObjects true (Ingest.actionServer on_request) = true /\
  (* and the dropped request is answered by the next iteration *)
  exists n r,
    Scheduler.run Examples.to_bgr8 Examples.to_32fc1
      (Examples.start_up ++ Examples.iteration
       ++ [Scheduler.Request goal; Examples.stream] ++ Examples.iteration)
      Examples.fresh = Some n /\
    Ingest.actionId_ (Ingest.staged (Scheduler.ingest n)) = 0%Z /\
    Pipeline.answers (Scheduler.outbox n) = [r] /\
    result_id r = 0%Z /\
    Ingest.isActive (Ingest.actionServer (Scheduler.ingest n)) = false.
Proof.
  intros goal s on_request on_stream.
  do 9 (split; [reflexivity |]).
  eexists. eexists. split; [vm_compute; reflexivity |].
  repeat split; reflexivity.
Qed.

(** ** The averaging *)

Section WeightedSums.

Local Open Scope Q_scope.

Variable a : Q.
Hypothesis a_pos : 0 < a.

Lemma pos_not_zero : Qeq_bool a 0 = false.
Proof.
  apply not_true_iff_false. rewrite Qeq_bool_iff. lra.
Qed.

Lemma pos_not_negative : F.Qlt_bool a 0 = false.
Proof. apply Qlt_bool_false. lra. Qed.

(** Adding [a * x] to an accumulator that stands for [a * s] gives an
    accumulator that stands for [a * (s + x)], also when [s] or [x] is an
    infinity or NaN. *)
Lemma weighted_step (acc s x : float) :
  F.same acc (F.mul (F.Fin a) s) ->
  F.same (F.add acc (F.mul (F.Fin a) x)) (F.mul (F.Fin a) (F.add s x)).
Proof.
  pose proof pos_not_zero as Hz. pose proof pos_not_negative as Hn.
  destruct s, x, acc;
    cbn [F.add F.mul F.same F.is_zero F.negative F.inf F.opp orb xorb negb];
    rewrite ?Hz, ?Hn;
    cbn [F.add F.mul F.same F.is_zero F.negative F.inf orb xorb negb];
    try tauto.
  intros H. rewrite H. ring.
Qed.

Lemma weighted_sum (xs : list float) (acc s : float) :
  F.same acc (F.mul (F.Fin a) s) ->
  F.same (foldl (fun y x => F.add y (F.mul (F.Fin a) x)) acc xs)
         (F.mul (F.Fin a) (foldl F.add s xs)).
Proof.
  revert acc s. induction xs as [| x xs IH]; intros acc s H; simpl; [exact H |].
  apply IH. now apply weighted_step.
Qed.

End WeightedSums.

Section MeanFacts.

Local Open Scope Q_scope.

Lemma weight_value (n : nat) :
  (0 < n)%nat ->
  F.div F.one (F.of_int (Z.of_nat n)) = F.Fin (1 / inject_Z (Z.of_nat n)) /\
  0 < 1 / inject_Z (Z.of_nat n).
Proof.
  intros Hn.
  assert (Hq : 0 < inject_Z (Z.of_nat n)).
  { change 0 with (inject_Z 0). rewrite <- Zlt_Qlt. lia. }
  split.
  - unfold F.div, F.one, F.of_int.
    rewrite (pos_not_zero _ Hq). reflexivity.
  - unfold Qdiv. rewrite Qmult_1_l. now apply Qinv_lt_0_compat.
Qed.

(** Scaling by [1/n] is dividing by [n]. *)
Lemma scale_is_div (n : nat) (s : float) :
  (0 < n)%nat ->
  F.same (F.mul (F.Fin (1 / inject_Z (Z.of_nat n))) s)
         (F.div s (F.of_int (Z.of_nat n))).
Proof.
  intros Hn.
  assert (Hq : 0 < inject_Z (Z.of_nat n)).
  { change 0 with (inject_Z 0). rewrite <- Zlt_Qlt. lia. }
  destruct (weight_value n Hn) as [_ Hw].
  pose proof (pos_not_zero _ Hq) as Hz. pose proof (pos_not_negative _ Hq) as Hneg.
  pose proof (pos_not_zero _ Hw) as Hz'. pose proof (pos_not_negative _ Hw) as Hneg'.
  unfold F.of_int.
  destruct s; cbn [F.mul F.div F.same F.is_zero F.negative F.inf orb xorb negb];
    rewrite ?Hz, ?Hneg, ?Hz', ?Hneg';
    cbn [F.same F.inf xorb orb]; try tauto.
  field. intros H. rewrite H in Hq. lra.
Qed.

(** The weighted sum computed by the code is the arithmetic mean. *)
Lemma weighted_sum_mean (xs : list float) :
  (0 < length xs)%nat ->
  F.same
    (foldl (fun y x => F.add y (F.mul (F.div F.one (F.of_int (Z.of_nat (length xs)))) x))
           F.zero xs)
    (F.div (Averager.sum xs) (F.of_int (Z.of_nat (length xs)))).
Proof.
  intros Hn. destruct (weight_value _ Hn) as [-> Hw].
  eapply same_trans; [| now apply scale_is_div].
  apply weighted_sum; [exact Hw |].
  unfold F.zero. simpl. ring.
Qed.

(** The mean of [n] copies of a value is that value. *)
Lemma sum_replicate (n : nat) (x acc : float) :
  foldl F.add acc (replicate n x) = Nat.iter n (fun y => F.add y x) acc.
Proof.
  revert acc. induction n as [| n IH]; intros acc; simpl; [reflexivity |].
  rewrite IH. clear IH. induction n as [| n IH]; simpl; [reflexivity | now rewrite IH].
Qed.

Lemma iter_add_value (n : nat) (x : float) :
  F.same (Nat.iter n (fun y => F.add y x) F.zero)
         (match n with
          | O => F.zero
          | S _ => match x with
                   | F.Fin q => F.Fin (inject_Z (Z.of_nat n) * q)
                   | _ => x
                   end
          end).
Proof.
  induction n as [| n IH]; [simpl; reflexivity |].
  destruct n as [| n].
  - simpl. destruct x; simpl; auto. ring.
  - change (Nat.iter (S (S n)) (fun y => F.add y x) F.zero)
      with (F.add (Nat.iter (S n) (fun y => F.add y x) F.zero) x).
    destruct x as [| | | q],
      (Nat.iter (S n) (fun y => F.add y _) F.zero) as [| | | p];
      cbn [F.same F.add] in *; try tauto.
    rewrite IH. rewrite (Nat2Z.inj_succ (S n)). unfold Z.succ.
    rewrite inject_Z_plus. ring.
Qed.

Lemma mean_replicate (n : nat) (x : float) :
  (0 < n)%nat ->
  F.same (F.div (Averager.sum (replicate n x)) (F.of_int (Z.of_nat n))) x.
Proof.
  intros Hn. unfold Averager.sum. rewrite sum_replicate.
  pose proof (iter_add_value n x) as H.
  assert (Hq : 0 < inject_Z (Z.of_nat n)).
  { change 0 with (inject_Z 0). rewrite <- Zlt_Qlt. lia. }
  pose proof (pos_not_zero _ Hq) as Hz. pose proof (pos_not_negative _ Hq) as Hneg.
  destruct n as [| n]; [lia |].
  unfold F.of_int.
  destruct x as [| | | q],
    (Nat.iter (S n) (fun y => F.add y _) F.zero) as [| | | p];
    cbn [F.same] in H; try contradiction;
    cbn [F.div F.same F.negative F.inf xorb]; rewrite ?Hz, ?Hneg;
    cbn [F.same F.inf xorb]; auto.
  rewrite H. field. intros H0. rewrite H0 in Hq. lra.
Qed.

End MeanFacts.

Section AveragerLists.

Import Averager.

Lemma sizeNetwork_from_add ls c :
  sizeNetwork_from ls c = (c + sizeNetwork_from ls 0)%nat.
Proof.
  revert c. induction ls as [| l ls IH]; intros c; simpl; [lia |].
  destruct (produces_boxes l); [| apply IH].
  rewrite (IH (c + outputs l)%nat), (IH (outputs l)). lia.
Qed.

Lemma flat_outputs_length ls :
  Forall (fun l => length (output l) = outputs l) ls ->
  length (flat_outputs ls) = sizeNetwork_from ls 0.
Proof.
  induction 1 as [| l ls Hl _ IH]; simpl; [reflexivity |].
  destruct (produces_boxes l); [| exact IH].
  rewrite length_app, sizeNetwork_from_add, IH, Hl. lia.
Qed.

(** [rememberNetwork] overwrites the cells from [count] on with the
    outputs of the box-producing layers. *)
Lemma remember_from_flat ls c dst :
  Forall (fun l => length (output l) = outputs l) ls ->
  (c + sizeNetwork_from ls 0 <= length dst)%nat ->
  remember_from ls c dst =
  take c dst ++ flat_outputs ls ++ drop (c + sizeNetwork_from ls 0) dst.
Proof.
  intros Hwf. revert c dst.
  induction Hwf as [| l ls Hl Hwf IH]; intros c dst Hc; simpl in *.
  - now rewrite Nat.add_0_r, take_drop.
  - destruct (produces_boxes l); [| now apply IH].
    rewrite sizeNetwork_from_add in Hc |- *.
    unfold memcpy. rewrite <- Hl, firstn_all.
    rewrite IH.
    2:{ rewrite !length_app, length_take, length_drop. lia. }
    rewrite (app_assoc (take c dst)).
    rewrite take_app_length'.
    2:{ rewrite length_app, length_take. lia. }
    rewrite <- !app_assoc. do 2 f_equal.
    rewrite (app_assoc (take c dst)).
    rewrite drop_app_ge.
    2:{ rewrite length_app, length_take. lia. }
    rewrite length_app, length_take, drop_drop. f_equal. f_equal. lia.
Qed.

Lemma raw_output_flat net :
  well_formed net -> raw_output net = flat_outputs (layers net).
Proof.
  intros Hwf. unfold raw_output, sizeNetwork.
  rewrite remember_from_flat; [| exact Hwf | rewrite length_replicate; lia].
  rewrite take_0, drop_ge by (rewrite length_replicate; lia).
  now rewrite app_nil_r.
Qed.

(** What [rememberNetwork] stores does not depend on what the entry held. *)
Lemma remember_from_raw net dst :
  well_formed net -> length dst = sizeNetwork net ->
  remember_from (layers net) 0 dst = raw_output net.
Proof.
  intros Hwf Hlen. rewrite raw_output_flat by exact Hwf.
  rewrite remember_from_flat; [| exact Hwf | unfold sizeNetwork in Hlen; lia].
  rewrite take_0, drop_ge by (unfold sizeNetwork in Hlen; lia).
  now rewrite app_nil_r.
Qed.

Lemma memcpy_whole dst src n :
  length dst = n -> memcpy dst 0 src n = take n src.
Proof.
  intros H. unfold memcpy. simpl. rewrite (drop_ge dst) by lia.
  now rewrite app_nil_r.
Qed.

Lemma write_back_size ls c avg k :
  sizeNetwork_from (write_back ls c avg) k = sizeNetwork_from ls k.
Proof.
  revert c k. induction ls as [| l ls IH]; intros c k; simpl; [reflexivity |].
  destruct (produces_boxes l) eqn:Hp; simpl.
  - change (produces_boxes (mkLayer (type l) (outputs l)
              (memcpy (output l) 0 (drop c avg) (outputs l))))
      with (produces_boxes l).
    rewrite Hp. apply IH.
  - rewrite Hp. apply IH.
Qed.

Lemma write_back_well_formed ls c avg :
  Forall (fun l => length (output l) = outputs l) ls ->
  (c + sizeNetwork_from ls 0 <= length avg)%nat ->
  Forall (fun l => length (output l) = outputs l) (write_back ls c avg).
Proof.
  intros Hwf. revert c. induction Hwf as [| l ls Hl Hwf IH]; intros c Hc; simpl.
  - constructor.
  - simpl in Hc. destruct (produces_boxes l) eqn:Hp.
    + rewrite sizeNetwork_from_add in Hc. constructor.
      * simpl. rewrite memcpy_whole by exact Hl.
        rewrite length_take, length_drop. lia.
      * apply IH. lia.
    + constructor; [exact Hl | now apply IH].
Qed.

(** The layers written by [avgPredictions] hold, one after the other, the
    cells of [avg_] from [count] on. *)
Lemma write_back_flat ls c avg :
  Forall (fun l => length (output l) = outputs l) ls ->
  (c + sizeNetwork_from ls 0 <= length avg)%nat ->
  flat_outputs (write_back ls c avg) = take (sizeNetwork_from ls 0) (drop c avg).
Proof.
  intros Hwf. revert c. induction Hwf as [| l ls Hl Hwf IH]; intros c Hc; simpl.
  - reflexivity.
  - simpl in Hc. destruct (produces_boxes l) eqn:Hp; simpl.
    + change (produces_boxes (mkLayer (type l) (outputs l)
                (memcpy (output l) 0 (drop c avg) (outputs l))))
        with (produces_boxes l).
      rewrite Hp.
      rewrite sizeNetwork_from_add in Hc |- *. simpl in Hc |- *.
      rewrite memcpy_whole by exact Hl.
      rewrite IH by lia.
      rewrite <- (drop_drop avg (outputs l) c).
      now rewrite take_take_drop.
    + rewrite Hp. now apply IH.
Qed.

Section Axpy.

Variable N : nat.
Variable w : float.

Lemma axpy_cpu_shaped X Y :
  length X = N -> length Y = N ->
  axpy_cpu N w X Y = zip_with (fun y x => F.add y (F.mul w x)) Y X.
Proof.
  intros HX HY. unfold axpy_cpu.
  rewrite !take_ge, drop_ge by lia. now rewrite app_nil_r.
Qed.

(** Cell [k] after all the [axpy_cpu] calls. *)
Lemma fold_axpy_lookup ps Y k y0 :
  Forall (fun p => length p = N) ps -> length Y = N -> Y !! k = Some y0 ->
  length (foldl (fun avg p => axpy_cpu N w p avg) Y ps) = N /\
  foldl (fun avg p => axpy_cpu N w p avg) Y ps !! k
  = Some (foldl (fun y x => F.add y (F.mul w x)) y0 (column ps k)) /\
  length (column ps k) = length ps.
Proof.
  intros Hps. revert Y y0.
  induction Hps as [| p ps Hp Hps IH]; intros Y y0 HY Hk; simpl.
  - auto.
  - assert (Hlt : (k < N)%nat) by (apply lookup_lt_Some in Hk; lia).
    destruct (lookup_lt_is_Some_2 p k) as [x Hx]; [lia |].
    unfold column. simpl. rewrite Hx. simpl. fold (column ps k).
    rewrite axpy_cpu_shaped by assumption.
    destruct (IH (zip_with (fun y x => F.add y (F.mul w x)) Y p)
                 (F.add y0 (F.mul w x))) as (Hlen & Hlook & Hcol).
    + rewrite length_zip_with. lia.
    + rewrite lookup_zip_with, Hk. simpl. now rewrite Hx.
    + split; [exact Hlen |]. split; [exact Hlook | now rewrite Hcol].
Qed.

End Axpy.

Lemma foldl_indices {A B} `{!Inhabited B} (g : B -> A -> A) (pre ps : list B) (a : A) :
  foldl (fun acc j => g ((pre ++ ps) !!! j) acc) a (seq (length pre) (length ps))
  = foldl (fun acc p => g p acc) a ps.
Proof.
  revert pre a. induction ps as [| p ps IH]; intros pre a; simpl; [reflexivity |].
  rewrite list_lookup_total_middle by reflexivity.
  specialize (IH (pre ++ [p]) (g p a)).
  rewrite <- app_assoc, length_app in IH. simpl in IH.
  rewrite Nat.add_1_r in IH. exact IH.
Qed.

(** [avg_] after the first two statements of [avgPredictions]. *)
Lemma accumulate_lookup net h k :
  shaped net h -> (k < demoTotal_ h)%nat ->
  length (accumulate h) = demoTotal_ h /\
  accumulate h !! k
  = Some (foldl (fun y x => F.add y (F.mul (weight h) x)) F.zero
            (column (predictions_ h) k)) /\
  length (column (predictions_ h) k) = demoFrame_ h.
Proof.
  intros (Htot & Hlen & Hps & Havg) Hk. unfold accumulate.
  rewrite <- Hlen.
  rewrite (foldl_indices (fun p avg => axpy_cpu (demoTotal_ h) (weight h) p avg)
             [] (predictions_ h)).
  unfold fill_cpu. rewrite drop_ge, app_nil_r by lia.
  apply fold_axpy_lookup; [exact Hps | apply length_replicate |].
  now apply lookup_replicate_2.
Qed.

Lemma accumulate_length net h :
  shaped net h -> length (accumulate h) = demoTotal_ h.
Proof.
  intros Hs. destruct (demoTotal_ h) as [| n] eqn:Hn.
  - destruct Hs as (Htot & Hlen & Hps & Havg). unfold accumulate.
    rewrite <- Hlen.
    rewrite (foldl_indices (fun p avg => axpy_cpu (demoTotal_ h) (weight h) p avg)
               [] (predictions_ h)).
    rewrite Hn in *. unfold fill_cpu. simpl. rewrite drop_0.
    destruct (avg_ h); [| discriminate]. clear Havg Hlen.
    induction Hps as [| p ps Hp _ IH]; simpl; [reflexivity |].
    destruct p; [| discriminate]. exact IH.
  - destruct (accumulate_lookup net h O Hs) as [H _]; [lia |]. now rewrite <- Hn.
Qed.

End AveragerLists.

Section AveragerTheorem.

Import Averager.

Lemma column_replicate (n : nat) (v : list float) (k : nat) (x : float) :
  v !! k = Some x -> column (replicate n v) k = replicate n x.
Proof.
  intros H. unfold column. induction n as [| n IH]; [reflexivity |].
  cbn [replicate omap list_omap]. rewrite H. now f_equal.
Qed.

Lemma accumulate_mean net h k :
  shaped net h -> (0 < demoFrame_ h)%nat -> (k < demoTotal_ h)%nat ->
  exists a, accumulate h !! k = Some a /\ F.same a (mean_spec (predictions_ h) k).
Proof.
  intros Hs HW Hk.
  destruct (accumulate_lookup net h k Hs Hk) as (_ & Hlook & Hcol).
  destruct Hs as (_ & Hlen & _).
  eexists. split; [exact Hlook |].
  unfold mean_spec, weight. rewrite Hlen, <- Hcol.
  apply weighted_sum_mean. lia.
Qed.

Lemma avgPredictions_raw_output net h :
  well_formed net -> shaped net h ->
  raw_output (avgPredictions net h).1 = accumulate h.
Proof.
  intros Hwf Hs. pose proof (accumulate_length net h Hs) as Hlen.
  pose proof Hs as (Htot & _). unfold sizeNetwork in Htot.
  assert (Hwf' : well_formed (avgPredictions net h).1).
  { apply write_back_well_formed; [exact Hwf | lia]. }
  rewrite raw_output_flat by exact Hwf'. simpl.
  rewrite write_back_flat; [| exact Hwf | lia].
  rewrite drop_0, take_ge by lia. reflexivity.
Qed.

(** When all the stored vectors are one vector, so is their average. *)
Lemma accumulate_identical net h v :
  shaped net h -> (0 < demoFrame_ h)%nat ->
  length v = demoTotal_ h -> predictions_ h = replicate (demoFrame_ h) v ->
  Forall2 F.same (accumulate h) v.
Proof.
  intros Hs HW Hv Hall.
  apply Forall2_same_length_lookup_2; [rewrite (accumulate_length net h Hs); lia |].
  intros k a x Ha Hx.
  assert (Hk : (k < demoTotal_ h)%nat) by (apply lookup_lt_Some in Hx; lia).
  destruct (accumulate_mean net h k Hs HW Hk) as (a' & Ha' & Hm).
  rewrite Ha in Ha'. inversion Ha'; subst a'.
  eapply same_trans; [exact Hm |].
  unfold mean_spec. rewrite Hall, (column_replicate _ _ _ _ Hx), length_replicate.
  now apply mean_replicate.
Qed.

Lemma init_history_shaped net W : shaped net (init_history net W).
Proof.
  unfold shaped, init_history. simpl. rewrite !length_replicate.
  repeat split. apply Forall_replicate, length_replicate.
Qed.

(** C4: [avgPredictions] leaves in every cell of [avg_] the unweighted
    arithmetic mean of that cell over the [demoFrame_] stored vectors,
    and writes [avg_] back into the box-producing layers at the offsets
    at which [rememberNetwork] reads them; so when all the stored vectors
    are one vector [v], the outputs handed to the decoder are [v] (in
    exact arithmetic). *)
Theorem avgPredictions_mean (net : network) (h : history) :
  well_formed net -> shaped net h -> (0 < demoFrame_ h)%nat ->
  let net' := (avgPredictions net h).1 in
  let h' := (avgPredictions net h).2 in
  length (avg_ h') = demoTotal_ h /\
  (forall k, (k < demoTotal_ h)%nat ->
     exists a, avg_ h' !! k = Some a /\ F.same a (mean_spec (predictions_ h) k)) /\
  raw_output net' = avg_ h' /\
  predictions_ h' = predictions_ h /\
  (forall v,
     length v = demoTotal_ h -> predictions_ h = replicate (demoFrame_ h) v ->
     Forall2 F.same (avg_ h') v /\ Forall2 F.same (raw_output net') v).
Proof.
  intros Hwf Hs HW net' h'.
  assert (Hlen : length (avg_ h') = demoTotal_ h) by now apply (accumulate_length net).
  assert (Hmean : forall k, (k < demoTotal_ h)%nat ->
            exists a, avg_ h' !! k = Some a /\ F.same a (mean_spec (predictions_ h) k))
    by (intros k Hk; now apply (accumulate_mean net)).
  assert (Hraw : raw_output net' = avg_ h') by now apply avgPredictions_raw_output.
  split; [exact Hlen |]. split; [exact Hmean |]. split; [exact Hraw |].
  split; [reflexivity |].
  intros v Hv Hall.
  assert (Hsame : Forall2 F.same (avg_ h') v)
    by now apply (accumulate_identical net).
  split; [exact Hsame | now rewrite Hraw].
Qed.

End AveragerTheorem.

(** Three stored copies of one vector, with an infinity among its cells:
    the average is that vector. *)
Lemma avgPredictions_mean_witness :
  Averager.well_formed Examples.small_net /\
  Averager.shaped Examples.small_net Examples.small_history /\
  (0 < Averager.demoFrame_ Examples.small_history)%nat /\
  Forall2 F.same
    (Averager.raw_output
       (Averager.avgPredictions Examples.small_net Examples.small_history).1)
    Examples.small_vector.
Proof.
  assert (Hwf : Averager.well_formed Examples.small_net)
    by (repeat constructor).
  assert (Hs : Averager.shaped Examples.small_net Examples.small_history)
    by (repeat split; repeat constructor).
  assert (HW : (0 < Averager.demoFrame_ Examples.small_history)%nat)
    by (simpl; lia).
  split; [exact Hwf |]. split; [exact Hs |]. split; [exact HW |].
  destruct (avgPredictions_mean Examples.small_net Examples.small_history Hwf Hs HW)
    as (_ & _ & _ & _ & Hall).
  apply (Hall Examples.small_vector); reflexivity.
Defined.

Section RoundRobin.

Import Averager.

Variable v : list float.
Variable W total : nat.
Hypothesis W_pos : (0 < W)%nat.
Hypothesis v_length : length v = total.

Local Abbreviation outputs_v := (Averager.outputs_v v total).
Local Abbreviation steady := (Averager.steady W total).

Lemma steady_shaped net h : outputs_v net -> steady h -> shaped net h.
Proof.
  intros (_ & Hsize & _) (HW & Ht & _ & Hlen & Hps & Havg).
  unfold shaped. rewrite HW, Ht, Hsize. auto.
Qed.

Lemma rememberNetwork_predictions net h :
  outputs_v net -> steady h ->
  predictions_ (rememberNetwork net h) = <[demoIndex_ h := v]> (predictions_ h).
Proof.
  intros (Hwf & Hsize & Hraw) (HW & Ht & Hi & Hlen & Hps & Havg). simpl.
  rewrite remember_from_raw; [now rewrite Hraw | exact Hwf |].
  rewrite Hsize.
  destruct (lookup_lt_is_Some_2 (predictions_ h) (demoIndex_ h)) as [p Hp]; [lia |].
  rewrite (list_lookup_total_correct _ _ _ Hp).
  now apply (Forall_lookup_1 _ _ _ _ Hps Hp).
Qed.

Lemma rememberNetwork_steady net h :
  outputs_v net -> steady h -> steady (rememberNetwork net h).
Proof.
  intros Hnet Hh. pose proof (rememberNetwork_predictions net h Hnet Hh) as Hp.
  destruct Hh as (HW & Ht & Hi & Hlen & Hps & Havg).
  unfold Averager.steady. rewrite Hp, length_insert. simpl.
  repeat split; auto. apply Forall_insert; auto.
Qed.

Lemma detect_step_steady net h :
  outputs_v net -> steady h ->
  steady (detect_step net h).2 /\
  predictions_ (detect_step net h).2 = <[demoIndex_ h := v]> (predictions_ h) /\
  demoIndex_ (detect_step net h).2 = ((demoIndex_ h + 1) mod W)%nat /\
  avg_ (detect_step net h).2 = accumulate (rememberNetwork net h).
Proof.
  intros Hnet Hh.
  pose proof (rememberNetwork_steady net h Hnet Hh) as Hr.
  pose proof (rememberNetwork_predictions net h Hnet Hh) as Hp.
  pose proof (accumulate_length net _ (steady_shaped _ _ Hnet Hr)) as Hacc.
  destruct Hr as (HW & Ht & Hi & Hlen & Hps & Havg).
  unfold detect_step, avgPredictions, next_index. simpl in *.
  split; [| rewrite HW; auto].
  unfold Averager.steady. simpl. rewrite HW, Ht in *.
  repeat split; auto. apply Nat.mod_upper_bound. lia.
Qed.

(** Cells that hold [v], and the cells the coming steps will write, hold
    [v] afterwards. *)
Lemma detect_steps_fill nets h j :
  Forall outputs_v nets -> steady h ->
  predictions_ h !! j = Some v \/
  (exists t, (t < length nets)%nat /\ j = ((demoIndex_ h + t) mod W)%nat) ->
  steady (detect_steps nets h) /\
  predictions_ (detect_steps nets h) !! j = Some v.
Proof.
  intros Hnets. revert h.
  induction Hnets as [| net nets Hnet Hnets IH]; intros h Hh Hj;
    cbn [detect_steps].
  - split; [exact Hh |]. destruct Hj as [Hj | (t & Ht & _)]; [exact Hj | simpl in Ht; lia].
  - destruct (detect_step_steady net h Hnet Hh) as (Hs & Hp & Hi & _).
    pose proof Hh as (_ & _ & Hidx & Hlen & _).
    apply IH; [exact Hs |]. rewrite Hp, Hi.
    destruct Hj as [Hj | (t & Ht & ->)].
    + left. destruct (decide (demoIndex_ h = j)) as [<- | Hne].
      * apply list_lookup_insert_eq. lia.
      * now rewrite list_lookup_insert_ne.
    + destruct t as [| t].
      * left. rewrite Nat.add_0_r, Nat.mod_small by lia.
        apply list_lookup_insert_eq. lia.
      * right. exists t. split; [simpl in Ht; lia |].
        rewrite Nat.Div0.add_mod_idemp_l. f_equal. lia.
Qed.

Lemma detect_steps_app nets1 nets2 h :
  detect_steps (nets1 ++ nets2) h = detect_steps nets2 (detect_steps nets1 h).
Proof.
  revert h. induction nets1 as [| net nets1 IH]; intros h; cbn [detect_steps app];
    [reflexivity | apply IH].
Qed.

(** After [W] calls of [detectInThread] that all see the raw output [v],
    every entry of [predictions_] is [v] and the average computed by the
    last call is [v]. *)
Lemma identical_frames_average nets h :
  Forall outputs_v nets -> length nets = W -> steady h ->
  predictions_ (detect_steps nets h) = replicate W v /\
  Forall2 F.same (avg_ (detect_steps nets h)) v.
Proof.
  intros Hnets Hlen Hh.
  assert (Hall : steady (detect_steps nets h) /\
                 predictions_ (detect_steps nets h) = replicate W v).
  { assert (Hs : steady (detect_steps nets h)).
    { apply (detect_steps_fill nets h (demoIndex_ h) Hnets Hh).
      right. exists O. split; [lia |].
      destruct Hh as (_ & _ & Hi & _). rewrite Nat.add_0_r, Nat.mod_small; lia. }
    split; [exact Hs |].
    pose proof Hs as (_ & _ & _ & HlenP & _).
    apply list_eq_same_length with W; [apply length_replicate | exact HlenP |].
    intros j x y Hj Hx Hy.
    apply lookup_replicate in Hy. destruct Hy as [-> _].
    destruct (detect_steps_fill nets h j Hnets Hh) as [_ Hv].
    { right. destruct Hh as (_ & _ & Hi & _).
      exists ((j + W - demoIndex_ h) mod W)%nat.
      split; [rewrite Hlen; apply Nat.mod_upper_bound; lia |].
      rewrite Nat.Div0.add_mod_idemp_r.
      replace (demoIndex_ h + (j + W - demoIndex_ h))%nat with (j + 1 * W)%nat by lia.
      rewrite Nat.Div0.mod_add. rewrite Nat.mod_small; lia. }
    rewrite Hx in Hv. now inversion Hv. }
  destruct Hall as [Hs Hpred]. split; [exact Hpred |].
  destruct (exists_last (l := nets)) as (init & net & ->).
  { intros ->. simpl in Hlen. lia. }
  apply Forall_app in Hnets. destruct Hnets as [Hinit Hnet].
  pose proof (List.Forall_inv Hnet) as Hnet'.
  rewrite detect_steps_app in Hpred |- *. cbn [detect_steps] in Hpred |- *.
  set (h1 := detect_steps init h) in *.
  assert (Hh1 : steady h1).
  { destruct init as [| n0 init0]; [exact Hh |].
    apply (detect_steps_fill (n0 :: init0) h (demoIndex_ h) Hinit Hh).
    right. exists O. split; [simpl; lia |].
    destruct Hh as (_ & _ & Hi & _). rewrite Nat.add_0_r, Nat.mod_small; lia. }
  destruct (detect_step_steady net h1 Hnet' Hh1) as (_ & Hp & _ & Havg).
  rewrite Havg. rewrite Hp in Hpred.
  pose proof (rememberNetwork_steady net h1 Hnet' Hh1) as Hr.
  pose proof (rememberNetwork_predictions net h1 Hnet' Hh1) as Hrp.
  rewrite Hpred in Hrp.
  pose proof Hr as (HW & Ht & _).
  apply (accumulate_identical net);
    [now apply steady_shaped | lia | lia | now rewrite HW].
Qed.

End RoundRobin.

(** ** The publish stage *)

Section PublishFacts.

Import Ingest Pipeline.

Variable classLabels_ : list string.
Variables frameWidth_ frameHeight_ : Z.

Local Abbreviation publishInThread :=
  (Pipeline.publishInThread classLabels_ frameWidth_ frameHeight_).

(** Every call publishes exactly one count: [roiBoxes_[0].num] when it is
    between 1 and 100, and 0 otherwise. *)
Lemma counts_publish subscribers ros_ok r srv res :
  counts (publishInThread subscribers ros_ok r srv res).2 =
  [if ((0 <? rb_num (roiBoxes_ res !!! O)) && (rb_num (roiBoxes_ res !!! O) <=? 100))%Z
   then rb_num (roiBoxes_ res !!! O) else 0%Z].
Proof.
  unfold Pipeline.publishInThread, publish_boxes, answer_request.
  destruct ((0 <? rb_num (roiBoxes_ res !!! O))
            && (rb_num (roiBoxes_ res !!! O) <=? 100))%Z;
    destruct (isCheckingForObjects ros_ok srv);
    destruct (subscribers <? 1)%nat; reflexivity.
Qed.

(** A pending request is answered once, with the id held by slot 0. *)
Lemma answers_publish subscribers ros_ok r srv res :
  result_id <$> answers (publishInThread subscribers ros_ok r srv res).2 =
  if isCheckingForObjects ros_ok srv then [buffId_ r !!! O] else [].
Proof.
  unfold Pipeline.publishInThread, publish_boxes, answer_request.
  destruct ((0 <? rb_num (roiBoxes_ res !!! O))
            && (rb_num (roiBoxes_ res !!! O) <=? 100))%Z;
    destruct (isCheckingForObjects ros_ok srv);
    destruct (subscribers <? 1)%nat; reflexivity.
Qed.

(** C7 (as amended): every call of [publishInThread] publishes exactly
    one detection count.  After an extraction that left [n] records, the
    count is [n] when [n] is between 1 and 100, and 0 when nothing
    survived or when more than 100 records survived. *)
Theorem published_count (camDmapCopy_ : Mat float) (fw fh : Z)
    (dets : list detection) (classes : nat) (roi roi' : list RosBox_) (n : nat)
    subscribers ros_ok r srv rosBoxes rosBoxCounter results :
  Detect.extract camDmapCopy_ fw fh dets classes roi = Some (roi', n) ->
  let out :=
    (publishInThread subscribers ros_ok r srv
       (mkResults roi' rosBoxes rosBoxCounter results)).2 in
  n = length (List.filter Detect.survives (Detect.candidates dets classes)) /\
  counts out
  = [if ((0 <? Z.of_nat n) && (Z.of_nat n <=? 100))%Z then Z.of_nat n else 0%Z] /\
  (n = O -> counts out = [0%Z]) /\
  ((1 <= n <= 100)%nat -> counts out = [Z.of_nat n]) /\
  ((100 < n)%nat -> counts out = [0%Z]).
Proof.
  intros Hex out.
  destruct (extract_spec _ _ _ _ _ _ _ _ Hex)
    as (Hn & _ & _ & _ & (first & Hfirst & Hnum) & _).
  assert (Hout : counts out
                 = [if ((0 <? Z.of_nat n) && (Z.of_nat n <=? 100))%Z
                    then Z.of_nat n else 0%Z]).
  { unfold out. rewrite counts_publish. simpl.
    rewrite (list_lookup_total_correct _ _ _ Hfirst), Hnum. reflexivity. }
  split; [exact Hn |]. split; [exact Hout |].
  rewrite Hout. repeat split.
  - intros ->. reflexivity.
  - intros H. destruct (Z.ltb_spec 0 (Z.of_nat n)); [| lia].
    destruct (Z.leb_spec (Z.of_nat n) 100); [reflexivity | lia].
  - intros H. destruct (Z.leb_spec (Z.of_nat n) 100); [lia |].
    now rewrite andb_false_r.
Qed.

End PublishFacts.

(** One box survives: the count published is 1. *)
Lemma published_count_witness :
  Detect.extract Examples.depth_4x4 4 4 [Examples.corner] 1 [RosBox_zero]
  = Some (Examples.single_roi, 1%nat) /\
  Pipeline.counts
    (Pipeline.publishInThread ["person"%string] 4 4 0 true
       (Scheduler.ring_ Examples.fresh) (Ingest.mkServer false false)
       (Pipeline.mkResults Examples.single_roi [[]] [0%Z]
          (mkBoundingBoxes 0 "" (mkHeader 0 0 "") []))).2
  = [1%Z].
Proof.
  assert (Hex : Detect.extract Examples.depth_4x4 4 4 [Examples.corner] 1 [RosBox_zero]
                = Some (Examples.single_roi, 1%nat)) by (vm_compute; reflexivity).
  split; [exact Hex |].
  destruct (published_count ["person"%string] 4 4 Examples.depth_4x4 4 4
              [Examples.corner] 1 [RosBox_zero] Examples.single_roi 1
              0 true (Scheduler.ring_ Examples.fresh) (Ingest.mkServer false false)
              [[]] [0%Z] (mkBoundingBoxes 0 "" (mkHeader 0 0 "") []) Hex)
    as (_ & Hout & _).
  exact Hout.
Defined.

(** The claim as stated fails for a crowded frame: 101 records survive
    and the count published is 0. *)
Lemma published_count_counterexample :
  let out :=
    (Pipeline.publishInThread ["person"%string] 4 4 0 true
       (Scheduler.ring_ Examples.fresh) (Ingest.mkServer false false)
       (Pipeline.mkResults Examples.crowd_roi [[]] [0%Z]
          (mkBoundingBoxes 0 "" (mkHeader 0 0 "") []))).2 in
  length (List.filter Detect.survives (Detect.candidates Examples.crowd 1)) = 101%nat /\
  (exists roi',
     Detect.extract Examples.depth_4x4 4 4 Examples.crowd 1
       (replicate 845 RosBox_zero) = Some (roi', 101%nat) /\
     Examples.crowd_roi = roi') /\
  Pipeline.counts out = [0%Z] /\
  Pipeline.counts out <> [101%Z].
Proof.
  assert (Hex : exists roi',
            Detect.extract Examples.depth_4x4 4 4 Examples.crowd 1
              (replicate 845 RosBox_zero) = Some (roi', 101%nat) /\
            Examples.crowd_roi = roi').
  { unfold Examples.crowd_roi.
    destruct (Detect.extract Examples.depth_4x4 4 4 Examples.crowd 1
                (replicate 845 RosBox_zero)) as [[roi' n] |] eqn:H.
    - exists roi'. split; [| reflexivity].
      assert (Hn : n = 101%nat).
      { apply (f_equal (fmap snd)) in H. vm_compute in H. now inversion H. }
      now rewrite Hn.
    - vm_compute in H. discriminate. }
  assert (Hout : Pipeline.counts
            (Pipeline.publishInThread ["person"%string] 4 4 0 true
               (Scheduler.ring_ Examples.fresh) (Ingest.mkServer false false)
               (Pipeline.mkResults Examples.crowd_roi [[]] [0%Z]
                  (mkBoundingBoxes 0 "" (mkHeader 0 0 "") []))).2 = [0%Z])
    by (vm_compute; reflexivity).
  intros out. split; [vm_compute; reflexivity |].
  split; [exact Hex |]. split; [exact Hout |].
  unfold out. rewrite Hout. discriminate.
Qed.

(** ** Requests *)

(** C2 (the code departs from the claim): three requests, with ids 10, 11
    and 42, each followed by one iteration of the loop in which
    [fetchInThread] finishes before [publishInThread] runs.  The third
    iteration has ring index 1; its fetch tags slot 1 with 42, slot
    [(1+1) % 3] holds 10, and the request 42 is answered with the id held
    by slot 0, which is 11. *)
Theorem request_answered_with_slot_zero :
  exists n,
    Scheduler.run Examples.to_bgr8 Examples.to_32fc1 Examples.three_requests
      Examples.fresh = Some n /\
    Pipeline.buffIndex_ (Scheduler.ring_ n) = 1%Z /\
    Pipeline.buffId_ (Scheduler.ring_ n) = [11; 42; 10]%Z /\
    Pipeline.buffId_ (Scheduler.ring_ n)
      !! Z.to_nat (Ring.display_slot (Pipeline.buffIndex_ (Scheduler.ring_ n)))
    = Some 10%Z /\
    result_id <$> Pipeline.answers (Scheduler.outbox n) = [0; 11; 11]%Z.
Proof.
  eexists. split; [vm_compute; reflexivity |].
  repeat split; reflexivity.
Qed.

(** ** The scheduler *)

Section SchedulerFacts.

Import Ingest Pipeline Scheduler.

Variable toCvCopy_BGR8 : Image -> CvResult Z.
Variable toCvCopy_32FC1 : Image -> CvResult float.

Local Abbreviation exec := (Scheduler.exec toCvCopy_BGR8 toCvCopy_32FC1).
Local Abbreviation run := (Scheduler.run toCvCopy_BGR8 toCvCopy_32FC1).
Local Abbreviation attempt := (Scheduler.attempt toCvCopy_BGR8 toCvCopy_32FC1).

Lemma waiting_cannot_step n : waiting n -> exec Step n = None.
Proof.
  intros [Hat Hsem]. simpl. unfold scheduler_step. now rewrite Hat, Hsem.
Qed.

(** Nothing but a streamed frame wakes it. *)
Lemma waiting_stable a n :
  is_frame a = false -> waiting n -> waiting (default n (exec a n)).
Proof.
  intros Ha Hw. pose proof Hw as [Hat Hsem].
  destruct a; try discriminate.
  - now rewrite waiting_cannot_step.
  - simpl. destruct (fetch_thread (ctl n)); exact Hw.
  - simpl. destruct (detect_thread (ctl n)); try exact Hw.
    destruct (Detect.extract _ _ _ _ _ _); exact Hw.
  - simpl. unfold Scheduler.waiting, checkForObjectsActionGoalCB.
    destruct (toCvCopy_BGR8 (goal_image goal)); exact Hw.
  - exact Hw.
  - exact Hw.
  - exact Hw.
Qed.

Lemma blocked_without_frame tr n :
  forallb (fun a => negb (is_frame a)) tr = true -> waiting n ->
  waiting (attempt tr n).
Proof.
  revert n. induction tr as [| a tr IH]; intros n Htr Hw; simpl; [exact Hw |].
  simpl in Htr. apply andb_prop in Htr. destruct Htr as [Ha Htr].
  apply IH; [exact Htr |]. apply waiting_stable; [| exact Hw].
  now apply negb_true_iff.
Qed.

(** Before the first frame the flag is polled: a shutdown is seen at the
    next poll. *)
Lemma await_image_observes_shutdown n :
  at_ (ctl n) = AwaitImage -> imageStatus_ (staged (ingest n)) = false ->
  isNodeRunning_ (ctl n) = false ->
  exists n', exec Step n = Some n' /\ at_ (ctl n') = Returned.
Proof.
  intros Hat Himg Hrun. simpl. unfold scheduler_step.
  rewrite Hat, Himg, Hrun. simpl. eauto.
Qed.

Lemma publish_keeps_roi labels fw fh subscribers ok r srv res :
  roiBoxes_ (Pipeline.publishInThread labels fw fh subscribers ok r srv res).1.1
  = roiBoxes_ res.
Proof.
  unfold Pipeline.publishInThread, publish_boxes, answer_request.
  destruct ((0 <? rb_num (roiBoxes_ res !!! O))
            && (rb_num (roiBoxes_ res !!! O) <=? 100))%Z;
    destruct (isCheckingForObjects ok srv); reflexivity.
Qed.

Ltac open_node n :=
  destruct n as [[?st ?sem ?srv ?lg] [?p ?running ?done ?ft ?dt ?cnt] ?rng
                 [?roi ?rb ?rc ?bbr] ?ar ?cfg ?out];
  unfold poised in *; simpl in *.

Ltac poised_tac :=
  repeat match goal with
         | H : _ /\ _ |- _ => destruct H
         end;
  subst; simpl; eexists; split; [reflexivity |]; simpl; repeat split; auto.

Lemma step_SemWait n ft dt cnt running k :
  poised n SemWait ft dt cnt running (S k) ->
  exists n', exec Step n = Some n' /\ poised n' Advance ft dt cnt running k.
Proof. intros H. open_node n. poised_tac. Qed.

Lemma step_Advance n ft dt cnt running k :
  poised n Advance ft dt cnt running k ->
  exists n', exec Step n = Some n' /\ poised n' SpawnFetch ft dt cnt running k.
Proof. intros H. open_node n. poised_tac. Qed.

Lemma step_SpawnFetch n dt cnt running k :
  poised n SpawnFetch NotJoinable dt cnt running k ->
  exists n', exec Step n = Some n' /\ poised n' SpawnDetect Running dt cnt running k.
Proof. intros H. open_node n. poised_tac. Qed.

Lemma step_SpawnDetect n ft cnt running k :
  poised n SpawnDetect ft NotJoinable cnt running k ->
  exists n', exec Step n = Some n' /\ poised n' Display ft Running cnt running k.
Proof. intros H. open_node n. poised_tac. Qed.

Lemma fetch_runs n p dt cnt running k :
  poised n p Running dt cnt running k ->
  exists n', exec FetchRuns n = Some n' /\ poised n' p Finished dt cnt running k.
Proof. intros H. open_node n. poised_tac. Qed.

Lemma detect_runs_nothing n p ft cnt running k :
  poised n p ft Running cnt running k ->
  exists n', exec (DetectRuns []) n = Some n' /\ poised n' p ft Finished cnt running k.
Proof.
  intros H. open_node n.
  destruct roi as [| first roi]; [now destruct H as (_ & _ & _ & _ & _ & _ & H) |].
  poised_tac.
Qed.

Lemma step_Display n ft dt cnt running k :
  poised n Display ft dt cnt running k ->
  exists n', exec Step n = Some n' /\ poised n' Publish ft dt cnt running k.
Proof.
  intros H. open_node n. unfold scheduler_step, Scheduler.displayInThread. simpl.
  destruct (_ =? 27)%Z; poised_tac.
Qed.

Lemma step_Publish n ft dt cnt running k :
  poised n Publish ft dt cnt running k ->
  exists n', exec Step n = Some n' /\ poised n' JoinFetch ft dt cnt running k.
Proof.
  intros H. open_node n. unfold scheduler_step. simpl.
  destruct H as (-> & -> & -> & -> & -> & -> & Hroi).
  pose proof (publish_keeps_roi (classLabels_ cfg) (frameWidth_ st) (frameHeight_ st)
                (subscribers ar) (ros_ok ar) rng srv (mkResults roi rb rc bbr)) as Hk.
  destruct (Pipeline.publishInThread _ _ _ _ _ _ _ _) as [[res srv'] out'].
  simpl in Hk. eexists. split; [reflexivity |]. simpl.
  repeat split; auto. now rewrite Hk.
Qed.

Lemma step_JoinFetch n dt cnt running k :
  poised n JoinFetch Finished dt cnt running k ->
  exists n', exec Step n = Some n' /\ poised n' JoinDetect NotJoinable dt cnt running k.
Proof. intros H. open_node n. poised_tac. Qed.

Lemma step_JoinDetect n ft cnt running k :
  poised n JoinDetect ft Finished cnt running k ->
  exists n', exec Step n = Some n' /\ poised n' CheckRunning ft NotJoinable cnt running k.
Proof. intros H. open_node n. poised_tac. Qed.

Lemma step_CheckRunning_shutdown n ft dt cnt k :
  poised n CheckRunning ft dt cnt false k ->
  exists n',
    exec Step n = Some n' /\ poised n' LoopTest ft dt (cnt + 1) false k /\
    demoDone_ (ctl n') = true.
Proof.
  intros H. open_node n.
  repeat match goal with H : _ /\ _ |- _ => destruct H end.
  subst. simpl. eexists. split; [reflexivity |]. simpl. repeat split; auto.
Qed.

Lemma step_LoopTest_done n ft dt cnt running k :
  poised n LoopTest ft dt cnt running k -> demoDone_ (ctl n) = true ->
  exists n', exec Step n = Some n' /\ poised n' Returned ft dt cnt running k.
Proof. intros H Hd. open_node n. poised_tac. Qed.

(** The scheduler sends messages at the publish stage only, and there it
    sends exactly one count. *)
Lemma one_count_per_publish n n' :
  scheduler_step n = Some n' ->
  (at_ (ctl n) = Publish ->
   exists c, counts (outbox n') = counts (outbox n) ++ [c]) /\
  (at_ (ctl n) <> Publish -> outbox n' = outbox n).
Proof.
  intros H. unfold scheduler_step in H.
  destruct n as [[st sem srv lg] [p running done ft dt cnt] rng res ar cfg out].
  simpl in *.
  destruct p; simpl in *; (split; intros Hp; try discriminate; try congruence);
    repeat match type of H with
           | context [if ?b then _ else _] => destruct b
           | context [match ?t with NotJoinable => _ | _ => _ end] => destruct t
           | context [match ?k with O => _ | S _ => _ end] => destruct k
           end;
    try discriminate;
    try (inversion H; subst; simpl; reflexivity).
  - unfold Scheduler.displayInThread in H. simpl in H.
    destruct (_ =? 27)%Z in H; inversion H; reflexivity.
  - pose proof (counts_publish (classLabels_ cfg) (frameWidth_ st) (frameHeight_ st)
                  (subscribers ar) (ros_ok ar) rng srv res) as Hc.
    destruct (Pipeline.publishInThread _ _ _ _ _ _ _ _) as [[res' srv'] out'].
    inversion H; subst. simpl in *. unfold counts in *. rewrite omap_app, Hc.
    eauto.
Qed.

Lemma run_step a tr n n1 : exec a n = Some n1 -> run (a :: tr) n = run tr n1.
Proof. intros H. simpl. now rewrite H. Qed.

(** With the flag cleared and a frame signalled, the iteration that
    starts is the last one: both workers are joined, [count] grows by
    one and [yolo()] returns. *)
Lemma shutdown_ends_iteration n cnt k :
  poised n SemWait NotJoinable NotJoinable cnt false (S k) ->
  exists n',
    run Examples.iteration n = Some n' /\
    poised n' Returned NotJoinable NotJoinable (cnt + 1) false k.
Proof.
  intros H0. unfold Examples.iteration.
  destruct (step_SemWait _ _ _ _ _ _ H0) as (n1 & E1 & H1).
  destruct (step_Advance _ _ _ _ _ _ H1) as (n2 & E2 & H2).
  destruct (step_SpawnFetch _ _ _ _ _ H2) as (n3 & E3 & H3).
  destruct (step_SpawnDetect _ _ _ _ _ H3) as (n4 & E4 & H4).
  destruct (fetch_runs _ _ _ _ _ _ H4) as (n5 & E5 & H5).
  destruct (detect_runs_nothing _ _ _ _ _ _ H5) as (n6 & E6 & H6).
  destruct (step_Display _ _ _ _ _ _ H6) as (n7 & E7 & H7).
  destruct (step_Publish _ _ _ _ _ _ H7) as (n8 & E8 & H8).
  destruct (step_JoinFetch _ _ _ _ _ H8) as (n9 & E9 & H9).
  destruct (step_JoinDetect _ _ _ _ _ H9) as (n10 & E10 & H10).
  destruct (step_CheckRunning_shutdown _ _ _ _ _ H10) as (n11 & E11 & H11 & Hd).
  destruct (step_LoopTest_done _ _ _ _ _ _ H11 Hd) as (n12 & E12 & H12).
  exists n12. split; [| exact H12].
  rewrite (run_step _ _ _ _ E1), (run_step _ _ _ _ E2), (run_step _ _ _ _ E3),
    (run_step _ _ _ _ E4), (run_step _ _ _ _ E5), (run_step _ _ _ _ E6),
    (run_step _ _ _ _ E7), (run_step _ _ _ _ E8), (run_step _ _ _ _ E9),
    (run_step _ _ _ _ E10), (run_step _ _ _ _ E11), (run_step _ _ _ _ E12).
  reflexivity.
Qed.

End SchedulerFacts.

(** C8 (the code departs from the claim): the camera stops after one
    iteration, the scheduler waits in [sem_wait] on the empty semaphore,
    and the destructor clears [isNodeRunning_].  The scheduler cannot
    take a step, and stays in [sem_wait] however often it is tried:
    [yolo()] does not return and [yoloThread_.join()] does not either. *)
Theorem shutdown_blocked_in_sem_wait :
  exists n,
    Scheduler.run Examples.to_bgr8 Examples.to_32fc1 Examples.idle_shutdown
      Examples.fresh = Some n /\
    Scheduler.isNodeRunning_ (Scheduler.ctl n) = false /\
    Scheduler.at_ (Scheduler.ctl n) = Scheduler.SemWait /\
    Ingest.sem_new_image_ (Scheduler.ingest n) = O /\
    Scheduler.exec Examples.to_bgr8 Examples.to_32fc1 Scheduler.Step n = None /\
    forall k,
      Scheduler.at_
        (Scheduler.ctl
           (Scheduler.attempt Examples.to_bgr8 Examples.to_32fc1
              (replicate k Scheduler.Step) n))
      = Scheduler.SemWait.
Proof.
  eexists. split; [vm_compute; reflexivity |].
  do 4 (split; [reflexivity |]).
  intros k.
  apply (blocked_without_frame Examples.to_bgr8 Examples.to_32fc1
           (replicate k Scheduler.Step)).
  - induction k as [| k IH]; [reflexivity | exact IH].
  - split; reflexivity.
Qed.

(** * Further properties *)

(** ** The prediction history *)

Section HistoryFacts.

Import Averager.

Lemma sizeNetwork_fits_gathered_aux (net : network) :
  well_formed net ->
  length (flat_outputs (layers net)) = sizeNetwork net /\
  length (raw_output net) = sizeNetwork net.
Proof.
  intros Hwf.
  assert (Hlen : length (flat_outputs (layers net)) = sizeNetwork net)
    by now apply flat_outputs_length.
  split; [exact Hlen | now rewrite raw_output_flat].
Qed.

(** X1: the number computed by [sizeNetwork] is exactly the number of
    values [rememberNetwork] gathers from a network whose layers hold
    [outputs] values each: a buffer of [sizeNetwork] cells is filled
    completely and never overrun. *)
Theorem sizeNetwork_fits_gathered (net : network) :
  well_formed net ->
  length (flat_outputs (layers net)) = sizeNetwork net /\
  length (raw_output net) = sizeNetwork net /\
  (forall dst, length dst = sizeNetwork net ->
     remember_from (layers net) 0 dst = flat_outputs (layers net)).
Proof.
  intros Hwf. destruct (sizeNetwork_fits_gathered_aux net Hwf) as [Hlen Hraw].
  split; [exact Hlen |]. split; [exact Hraw |].
  intros dst Hdst. rewrite remember_from_raw by assumption.
  now apply raw_output_flat.
Qed.

(** X2: [rememberNetwork] replaces the whole entry [predictions_[demoIndex_]]
    by the raw output of the network, whatever the entry held, and leaves
    every other entry, [avg_], the index and the shape of the history as
    they were. *)
Theorem rememberNetwork_overwrites_entry (net : network) (h : history) :
  well_formed net -> shaped net h -> (demoIndex_ h < demoFrame_ h)%nat ->
  predictions_ (rememberNetwork net h) !! demoIndex_ h = Some (raw_output net) /\
  (forall j, j <> demoIndex_ h ->
     predictions_ (rememberNetwork net h) !! j = predictions_ h !! j) /\
  avg_ (rememberNetwork net h) = avg_ h /\
  demoIndex_ (rememberNetwork net h) = demoIndex_ h /\
  shaped net (rememberNetwork net h).
Proof.
  intros Hwf (Htot & Hlen & Hps & Havg) Hi.
  destruct (lookup_lt_is_Some_2 (predictions_ h) (demoIndex_ h)) as [p Hp]; [lia |].
  assert (Hraw : remember_from (layers net) 0 (predictions_ h !!! demoIndex_ h)
                 = raw_output net).
  { apply remember_from_raw; [exact Hwf |].
    rewrite (list_lookup_total_correct _ _ _ Hp), <- Htot.
    now apply (Forall_lookup_1 _ _ _ _ Hps Hp). }
  simpl. rewrite Hraw.
  split; [apply list_lookup_insert_eq; lia |].
  split; [intros j Hj; now apply list_lookup_insert_ne |].
  split; [reflexivity |]. split; [reflexivity |].
  unfold shaped. simpl. rewrite length_insert.
  repeat split; auto.
  apply Forall_insert; [exact Hps |].
  rewrite Htot, Hraw. destruct (sizeNetwork_fits_gathered_aux net Hwf) as [_ H]. exact H.
Qed.

End HistoryFacts.

Lemma sizeNetwork_fits_gathered_witness :
  Averager.well_formed Examples.small_net /\
  length (Averager.raw_output Examples.small_net)
  = Averager.sizeNetwork Examples.small_net.
Proof.
  assert (Hwf : Averager.well_formed Examples.small_net) by (repeat constructor).
  split; [exact Hwf |].
  apply (sizeNetwork_fits_gathered Examples.small_net Hwf).
Defined.

Lemma rememberNetwork_overwrites_entry_witness :
  Averager.well_formed Examples.small_net /\
  Averager.shaped Examples.small_net Examples.small_history /\
  (Averager.demoIndex_ Examples.small_history
   < Averager.demoFrame_ Examples.small_history)%nat /\
  Averager.predictions_
    (Averager.rememberNetwork Examples.small_net Examples.small_history)
    !! Averager.demoIndex_ Examples.small_history
  = Some (Averager.raw_output Examples.small_net).
Proof.
  assert (Hwf : Averager.well_formed Examples.small_net) by (repeat constructor).
  assert (Hs : Averager.shaped Examples.small_net Examples.small_history)
    by (repeat split; repeat constructor).
  assert (Hi : (Averager.demoIndex_ Examples.small_history
                < Averager.demoFrame_ Examples.small_history)%nat) by (simpl; lia).
  split; [exact Hwf |]. split; [exact Hs |]. split; [exact Hi |].
  apply (rememberNetwork_overwrites_entry _ _ Hwf Hs Hi).
Defined.

Section WindowFacts.

Import Averager.

Lemma mod_shift_ne (W a d : nat) :
  (0 < d < W)%nat -> ((a + d) mod W <> a mod W)%nat.
Proof.
  intros Hd Heq.
  assert (HW : (W <> 0)%nat) by lia.
  pose proof (Nat.mod_upper_bound a W HW) as Hr.
  rewrite <- Nat.Div0.add_mod_idemp_l in Heq.
  destruct (Nat.lt_ge_cases (a mod W + d) W) as [Hlt | Hge].
  - rewrite Nat.mod_small in Heq by exact Hlt. lia.
  - replace (a mod W + d)%nat with ((a mod W + d - W) + 1 * W)%nat in Heq by lia.
    rewrite Nat.Div0.mod_add, Nat.mod_small in Heq by lia. lia.
Qed.

Lemma fits_outputs_v total net :
  fits total net ->
  outputs_v (raw_output net) total net /\ length (raw_output net) = total.
Proof.
  intros [Hwf Hsize]. destruct (sizeNetwork_fits_gathered_aux net Hwf) as [_ Hraw].
  unfold outputs_v. rewrite <- Hsize. auto.
Qed.

(** X3: the history is a ring of [W = demoFrame_] entries.  After any
    number of calls of [detectInThread] the index has advanced by that
    number modulo [W], and every one of the last [W] raw outputs is still
    stored, the output of call [t] in entry [(demoIndex_ + t) mod W]. *)
Theorem history_holds_last_outputs (W total : nat) (nets : list network)
    (h : history) :
  (0 < W)%nat -> steady W total h -> Forall (fits total) nets ->
  steady W total (detect_steps nets h) /\
  demoIndex_ (detect_steps nets h) = ((demoIndex_ h + length nets) mod W)%nat /\
  (forall t net,
     nets !! t = Some net -> (length nets - t <= W)%nat ->
     predictions_ (detect_steps nets h) !! ((demoIndex_ h + t) mod W)%nat
     = Some (raw_output net)).
Proof.
  intros HW Hh. induction nets as [| net nets IH] using rev_ind; intros Hnets.
  - simpl. split; [exact Hh |]. split.
    + destruct Hh as (_ & _ & Hi & _). rewrite Nat.add_0_r, Nat.mod_small; lia.
    + intros t net Ht. now rewrite lookup_nil in Ht.
  - apply Forall_app in Hnets. destruct Hnets as [Hnets Hnet].
    pose proof (List.Forall_inv Hnet) as Hfit.
    destruct (IH Hnets) as (Hs & Hidx & Hold).
    destruct (fits_outputs_v _ _ Hfit) as [Hv Hlen].
    rewrite detect_steps_app. cbn [detect_steps].
    destruct (detect_step_steady (raw_output net) W total HW Hlen net
                (detect_steps nets h) Hv Hs) as (Hs' & Hp & Hi & _).
    pose proof Hs as (_ & _ & _ & HlenP & _).
    split; [exact Hs' |]. split.
    + rewrite Hi, Hidx, length_app. simpl.
      rewrite Nat.Div0.add_mod_idemp_l. f_equal. lia.
    + intros t net' Ht Hlast. rewrite Hp, Hidx.
      rewrite length_app in Hlast. simpl in Hlast.
      destruct (decide (t = length nets)) as [-> | Hne].
      * rewrite list_lookup_middle in Ht by reflexivity. inversion Ht; subst net'.
        apply list_lookup_insert_eq. rewrite HlenP.
        apply Nat.mod_upper_bound. lia.
      * assert (Hlt : (t < length nets)%nat).
        { apply lookup_lt_Some in Ht. rewrite length_app in Ht. simpl in Ht. lia. }
        rewrite lookup_app_l in Ht by exact Hlt.
        rewrite list_lookup_insert_ne.
        -- apply Hold; [exact Ht | lia].
        -- replace (demoIndex_ h + length nets)%nat
             with ((demoIndex_ h + t) + (length nets - t))%nat by lia.
           apply mod_shift_ne. lia.
Qed.

End WindowFacts.

Lemma history_holds_last_outputs_witness :
  (0 < 3)%nat /\
  Averager.steady 3 3 Examples.small_history /\
  Forall (fits 3) [Examples.small_net; Examples.small_net] /\
  Averager.predictions_
    (Averager.detect_steps [Examples.small_net; Examples.small_net]
       Examples.small_history) !! 2%nat
  = Some (Averager.raw_output Examples.small_net).
Proof.
  assert (Hs : Averager.steady 3 3 Examples.small_history).
  { unfold Averager.steady. simpl. repeat split; try lia. repeat constructor. }
  assert (Hf : fits 3 Examples.small_net).
  { split; [repeat constructor | reflexivity]. }
  assert (Hn : Forall (fits 3) [Examples.small_net; Examples.small_net])
    by (repeat constructor; exact Hf).
  split; [lia |]. split; [exact Hs |]. split; [exact Hn |].
  destruct (history_holds_last_outputs 3 3 [Examples.small_net; Examples.small_net]
              Examples.small_history ltac:(lia) Hs Hn) as (_ & _ & H).
  apply (H 1%nat Examples.small_net); [reflexivity | simpl; lia].
Defined.

Section SingleFrameWindow.

Import Averager.

(** X4: [init()] passes [avg_frames = 1] to [setupNetwork], so the
    history has one entry; then [detectInThread] hands the decoder the
    network's own raw output: with this window the averaging changes
    nothing. *)
Theorem single_frame_window_is_identity (thresh : float) (numClasses_ : Z)
    (net : network) (h : history) :
  well_formed net -> shaped net h ->
  Averager.demoFrame_ h = Z.to_nat (Setup.demoFrame_ (Setup.init_demo thresh numClasses_)) ->
  (demoIndex_ h < Averager.demoFrame_ h)%nat ->
  Forall2 F.same (raw_output (detect_step net h).1) (raw_output net) /\
  Forall2 F.same (avg_ (detect_step net h).2) (raw_output net) /\
  predictions_ (detect_step net h).2 = [raw_output net] /\
  demoIndex_ (detect_step net h).2 = O.
Proof.
  intros Hwf Hs HW Hi. change (Z.to_nat _) with 1%nat in HW.
  destruct (rememberNetwork_overwrites_entry net h Hwf Hs Hi)
    as (Hset & _ & _ & Hidx & Hs').
  assert (Hi0 : demoIndex_ h = O) by lia.
  pose proof Hs' as (Htot & Hlen & _).
  assert (Hpred : predictions_ (rememberNetwork net h) = [raw_output net]).
  { change (Averager.demoFrame_ (rememberNetwork net h)) with (Averager.demoFrame_ h)
      in Hlen.
    rewrite HW in Hlen. rewrite Hi0 in Hset.
    destruct (predictions_ (rememberNetwork net h)) as [| p [| q ps]];
      simpl in Hlen; try discriminate.
    simpl in Hset. now inversion Hset. }
  assert (Hsame : Forall2 F.same (accumulate (rememberNetwork net h)) (raw_output net)).
  { apply (accumulate_identical net); [exact Hs' | | |].
    - change (Averager.demoFrame_ (rememberNetwork net h)) with (Averager.demoFrame_ h).
      lia.
    - rewrite Htot. now destruct (sizeNetwork_fits_gathered_aux net Hwf).
    - change (Averager.demoFrame_ (rememberNetwork net h)) with (Averager.demoFrame_ h).
      rewrite HW. exact Hpred. }
  unfold detect_step.
  pose proof (avgPredictions_raw_output net (rememberNetwork net h) Hwf Hs') as Hraw.
  destruct (avgPredictions net (rememberNetwork net h)) as [net' h'] eqn:Havg.
  simpl in Hraw |- *.
  assert (Hh' : h' = (avgPredictions net (rememberNetwork net h)).2)
    by now rewrite Havg.
  split; [now rewrite Hraw |].
  split; [subst h'; exact Hsame |].
  split; [subst h'; exact Hpred |].
  subst h'. simpl. rewrite HW, Hi0. reflexivity.
Qed.

End SingleFrameWindow.

Lemma single_frame_window_is_identity_witness :
  Averager.well_formed Examples.small_net /\
  Averager.shaped Examples.small_net (Averager.init_history Examples.small_net 1) /\
  Forall2 F.same
    (Averager.raw_output
       (Averager.detect_step Examples.small_net
          (Averager.init_history Examples.small_net 1)).1)
    (Averager.raw_output Examples.small_net).
Proof.
  assert (Hwf : Averager.well_formed Examples.small_net) by (repeat constructor).
  assert (Hs : Averager.shaped Examples.small_net
                 (Averager.init_history Examples.small_net 1))
    by apply init_history_shaped.
  split; [exact Hwf |]. split; [exact Hs |].
  apply (single_frame_window_is_identity F.zero 80 Examples.small_net
           (Averager.init_history Examples.small_net 1) Hwf Hs eq_refl).
  simpl. lia.
Defined.

(** ** More on the depth estimate and the extraction *)

Section DepthMore.

Variable camDmapCopy_ : Mat float.
Variables frameWidth_ frameHeight_ : Z.

Local Abbreviation sample := (Depth.sample camDmapCopy_ frameWidth_ frameHeight_).
Local Abbreviation readings := (Depth.readings camDmapCopy_ frameWidth_ frameHeight_).
Local Abbreviation getObjDepth := (Depth.getObjDepth camDmapCopy_ frameWidth_ frameHeight_).
Local Abbreviation covers_frame :=
  (Depth.covers_frame camDmapCopy_ frameWidth_ frameHeight_).

Lemma Mat_at_elem {A} (m : Mat A) (r c : Z) (x : A) :
  Mat_at m r c = Some x -> x ∈ data m.
Proof.
  unfold Mat_at. destruct (_ && _); [| discriminate].
  intros H. eapply list_elem_of_lookup_2. exact H.
Qed.

Lemma sample_elem xmin xmax ymin ymax ij d :
  sample xmin xmax ymin ymax ij = Some d -> d ∈ data camDmapCopy_.
Proof.
  unfold Depth.sample. intros H.
  destruct (F.to_int (F.mul (Depth.coord ymin ymax ij.1) (F.of_int frameHeight_)))
    as [r |]; [| discriminate].
  destruct (F.to_int (F.mul (Depth.coord xmin xmax ij.2) (F.of_int frameWidth_)))
    as [c |]; [| discriminate].
  simpl in H. now apply Mat_at_elem in H.
Qed.

Lemma pick_elem (l : list float) : Depth.pick l = F.NaN \/ Depth.pick l ∈ l.
Proof.
  destruct l as [| d0 [| d1 l]]; simpl; [now left | right; left | right; right; left].
Qed.

(** X5: the value returned by [getObjDepth] is NaN or a normal value
    stored in the depth map: it is never zero, never an infinity, never a
    subnormal, never a value made up by the function. *)
Theorem getObjDepth_returns_normal_reading (xmin xmax ymin ymax r : float) :
  getObjDepth xmin xmax ymin ymax = Some r ->
  r = F.NaN \/ (F.isnormal r = true /\ r ∈ data camDmapCopy_).
Proof.
  unfold Depth.getObjDepth. rewrite collect_filter.
  destruct (mapM (sample xmin xmax ymin ymax) Depth.grid) as [ds |] eqn:Hds;
    [| discriminate].
  simpl. intros H. inversion H as [Hr]. clear H.
  destruct (pick_elem (Depth.sort (List.filter F.isnormal ds))) as [Hnan | Hin];
    [now left | right].
  remember (Depth.pick (Depth.sort (List.filter F.isnormal ds))) as x eqn:Hx.
  rewrite sort_perm in Hin.
  apply list_elem_of_In, List.filter_In in Hin. destruct Hin as [Hin Hnormal].
  split; [exact Hnormal |].
  apply mapM_Some in Hds. apply list_elem_of_In in Hin.
  apply list_elem_of_lookup in Hin. destruct Hin as [i Hi].
  destruct (Forall2_lookup_r _ _ _ _ _ Hds Hi) as (ij & _ & Hsample).
  now apply sample_elem in Hsample.
Qed.

(** The three grid coordinates keep a quarter of the extent away from
    either edge. *)
Lemma coord_margin (a b : Q) (k : Z) :
  (a < b)%Q -> (1 <= k <= 3)%Z ->
  (a + (b - a) / 4 <= a + inject_Z k * (b - a) / 4)%Q /\
  (a + inject_Z k * (b - a) / 4 <= b - (b - a) / 4)%Q.
Proof.
  intros Hab Hk.
  assert (Hc : k = 1%Z \/ k = 2%Z \/ k = 3%Z) by lia.
  unfold Qdiv. change (/ 4)%Q with (1 # 4)%Q.
  destruct Hc as [-> | [-> | ->]].
  - change (inject_Z 1) with 1%Q. split; lra.
  - change (inject_Z 2) with 2%Q. split; lra.
  - change (inject_Z 3) with 3%Q. split; lra.
Qed.

(** X6: for a box inside the unit frame whose width and height exceed
    0.01 (the size test [detectInThread] applies before it calls
    [getObjDepth]), each of the nine sampled coordinates keeps a quarter
    of the extent from the edges of the box, so it lies more than 1/400
    inside the unit interval (a margin far above the rounding error of a
    [float] coordinate).  When the depth map has the size of the frame,
    every one of the nine reads therefore addresses a row in
    [0, frameHeight_) and a column in [0, frameWidth_), and the estimate
    is defined. *)
Theorem getObjDepth_reads_inside (a b c d : Q) :
  covers_frame ->
  (0 <= a)%Q -> (b <= 1)%Q -> (0 <= c)%Q -> (d <= 1)%Q ->
  (1 # 100 < b - a)%Q -> (1 # 100 < d - c)%Q ->
  (forall ij, ij ∈ Depth.grid ->
     exists x y row col,
       Depth.coord (F.Fin a) (F.Fin b) ij.2 = F.Fin x /\
       Depth.coord (F.Fin c) (F.Fin d) ij.1 = F.Fin y /\
       (a + (b - a) / 4 <= x)%Q /\ (x <= b - (b - a) / 4)%Q /\
       (c + (d - c) / 4 <= y)%Q /\ (y <= d - (d - c) / 4)%Q /\
       (1 # 400 < x)%Q /\ (x < 1 - (1 # 400))%Q /\
       (1 # 400 < y)%Q /\ (y < 1 - (1 # 400))%Q /\
       F.to_int (F.mul (F.Fin y) (F.of_int frameHeight_)) = Some row /\
       F.to_int (F.mul (F.Fin x) (F.of_int frameWidth_)) = Some col /\
       (0 <= row < rows camDmapCopy_)%Z /\ (0 <= col < cols camDmapCopy_)%Z /\
       is_Some (Mat_at camDmapCopy_ row col)) /\
  exists ds,
    readings (F.Fin a) (F.Fin b) (F.Fin c) (F.Fin d) = Some ds /\
    getObjDepth (F.Fin a) (F.Fin b) (F.Fin c) (F.Fin d)
    = Some (Depth.pick (Depth.sort (List.filter F.isnormal ds))).
Proof.
  intros Hcov Ha Hb Hc Hd Hw Hh.
  assert (Hab : (a < b)%Q) by lra.
  assert (Hcd : (c < d)%Q) by lra.
  split.
  - intros ij Hij.
    destruct (grid_range ij Hij) as [Hi Hj].
    destruct (coord_margin a b ij.2 Hab Hj) as [Hx1 Hx2].
    destruct (coord_margin c d ij.1 Hcd Hi) as [Hy1 Hy2].
    pose proof Hcov as (Hrows & Hcols & Hfh & Hfw & _).
    assert (Hqa : ((b - a) / 4 == (b - a) * (1 # 4))%Q) by reflexivity.
    assert (Hqc : ((d - c) / 4 == (d - c) * (1 # 4))%Q) by reflexivity.
    set (x := (a + inject_Z ij.2 * (b - a) / 4)%Q) in *.
    set (y := (c + inject_Z ij.1 * (d - c) / 4)%Q) in *.
    assert (Hx : ((1 # 400) < x /\ x < 1 - (1 # 400))%Q) by (split; lra).
    assert (Hy : ((1 # 400) < y /\ y < 1 - (1 # 400))%Q) by (split; lra).
    destruct (to_int_scaled y frameHeight_) as (row & Hrow & Hr);
      [lra | lra | exact Hfh |].
    destruct (to_int_scaled x frameWidth_) as (col & Hcol & Hk);
      [lra | lra | exact Hfw |].
    exists x, y, row, col. rewrite Hrows, Hcols.
    split; [reflexivity |]. split; [reflexivity |].
    split; [exact Hx1 |]. split; [exact Hx2 |].
    split; [exact Hy1 |]. split; [exact Hy2 |].
    split; [apply Hx |]. split; [apply Hx |].
    split; [apply Hy |]. split; [apply Hy |].
    split; [exact Hrow |]. split; [exact Hcol |].
    split; [lia |]. split; [lia |].
    now apply (Mat_at_inside camDmapCopy_ frameWidth_ frameHeight_).
  - destruct (mapM_defined
                (Depth.sample camDmapCopy_ frameWidth_ frameHeight_
                   (F.Fin a) (F.Fin b) (F.Fin c) (F.Fin d)) Depth.grid) as [ds Hds].
    { intros ij Hij. now apply sample_defined. }
    exists ds. split; [exact Hds |]. now apply getObjDepth_readings.
Qed.

End DepthMore.

Lemma getObjDepth_returns_normal_reading_witness :
  Depth.getObjDepth Examples.depth_4x4 4 4 F.zero F.one F.zero F.one = Some (F.Fin 5) /\
  (F.Fin 5 = F.NaN \/
   (F.isnormal (F.Fin 5) = true /\ F.Fin 5 ∈ data Examples.depth_4x4)).
Proof.
  assert (H : Depth.getObjDepth Examples.depth_4x4 4 4 F.zero F.one F.zero F.one
              = Some (F.Fin 5)) by reflexivity.
  split; [exact H |].
  apply (getObjDepth_returns_normal_reading Examples.depth_4x4 4 4 _ _ _ _ _ H).
Defined.

Lemma getObjDepth_reads_inside_witness :
  Depth.covers_frame Examples.depth_4x4 4 4 /\
  exists ds,
    Depth.readings Examples.depth_4x4 4 4 (F.Fin 0) (F.Fin (1 # 2)) (F.Fin 0) (F.Fin 1)
    = Some ds /\
    Depth.getObjDepth Examples.depth_4x4 4 4 (F.Fin 0) (F.Fin (1 # 2)) (F.Fin 0) (F.Fin 1)
    = Some (Depth.pick (Depth.sort (List.filter F.isnormal ds))).
Proof.
  assert (Hcov : Depth.covers_frame Examples.depth_4x4 4 4).
  { unfold Depth.covers_frame. simpl. unfold F.INT_MAX. repeat split; lia. }
  split; [exact Hcov |].
  apply (getObjDepth_reads_inside Examples.depth_4x4 4 4 0 (1 # 2) 0 1 Hcov);
    unfold Qle, Qlt; simpl; lia.
Defined.

Section ExtractMore.

Variable camDmapCopy_ : Mat float.
Variables frameWidth_ frameHeight_ : Z.

Local Abbreviation extract := (Detect.extract camDmapCopy_ frameWidth_ frameHeight_).
Local Abbreviation emitted := (Detect.emitted camDmapCopy_ frameWidth_ frameHeight_).
Local Abbreviation box_body := (Detect.box_body camDmapCopy_ frameWidth_ frameHeight_).


Lemma emitted_beyond cs st st' k :
  emitted cs st st' -> (st.2 + length cs <= k)%nat -> st'.1 !! k = st.1 !! k.
Proof.
  revert st. induction cs as [| c cs IH]; simpl; intros st.
  - now intros ->.
  - intros (p & old & depth & _ & _ & _ & Hrest) Hk.
    rewrite (IH _ Hrest) by (simpl; lia). simpl.
    apply list_lookup_insert_ne. lia.
Qed.

(** X8: the extraction writes the first [count] entries of [roiBoxes_]
    and the field [num] of entry 0, and nothing else: every entry from
    [count] on keeps what an earlier frame left there, and with no
    surviving candidate the array changes in [roiBoxes_[0].num] only. *)
Theorem extract_leaves_the_rest (dets : list detection) (classes : nat)
    (roi roi' : list RosBox_) (n : nat) :
  extract dets classes roi = Some (roi', n) ->
  length roi' = length roi /\
  (forall k, (n <= k)%nat -> k <> O -> roi' !! k = roi !! k) /\
  (n = O -> roi' = <[O := set_num 0 (roi !!! O)]> roi).
Proof.
  intros Hex. pose proof Hex as Hex'. unfold Detect.extract in Hex.
  destruct (Detect.for_each (box_body classes) dets (roi, O)) as [st |] eqn:Hloop;
    [| discriminate].
  simpl in Hex.
  destruct (st.1 !! O) as [first |] eqn:Hfirst; [| discriminate].
  simpl in Hex. inversion Hex; subst roi' n; clear Hex.
  pose proof (box_loop_emitted _ _ _ _ _ _ _ Hloop) as Hem.
  pose proof (emitted_spec _ _ _ _ _ _ Hem) as (Hcount & Hlen & _).
  simpl in Hcount, Hlen.
  split; [now rewrite length_insert |].
  split.
  - intros k Hk Hk0. rewrite list_lookup_insert_ne by lia.
    apply (emitted_beyond _ _ _ _ Hem). simpl. lia.
  - intros H0.
    assert (Hsame : st.1 = roi).
    { apply list_eq. intros k. apply (emitted_beyond _ _ _ _ Hem). simpl. lia. }
    rewrite H0, Hsame in *.
    now rewrite (list_lookup_total_correct _ _ _ Hfirst).
Qed.

End ExtractMore.


Lemma extract_leaves_the_rest_witness :
  Detect.extract Examples.depth_4x4 4 4 [Examples.narrow] 1
    [Examples.single_roi !!! O; RosBox_zero]
  = Some ([set_num 0 (Examples.single_roi !!! O); RosBox_zero], O) /\
  length [set_num 0 (Examples.single_roi !!! O); RosBox_zero] = 2%nat.
Proof.
  assert (H : Detect.extract Examples.depth_4x4 4 4 [Examples.narrow] 1
                [Examples.single_roi !!! O; RosBox_zero]
              = Some ([set_num 0 (Examples.single_roi !!! O); RosBox_zero], O))
    by (vm_compute; reflexivity).
  split; [exact H |].
  apply (extract_leaves_the_rest Examples.depth_4x4 4 4 _ _ _ _ _ H).
Defined.

(** ** More on the publish stage *)

Section PublishMore.

Import Ingest Pipeline.

(** X9: a pending request is answered by exactly one call of
    [publishInThread]: the call that answers closes the goal, so the next
    call, whatever its arguments, sends no answer; a call made while no
    request is being checked sends none and leaves the server alone; and
    after the preempt callback no answer is sent. *)
Theorem request_answered_once labels fw fh subscribers ok r (srv : server) res :
  let p := publishInThread labels fw fh subscribers ok r srv res in
  (isCheckingForObjects ok srv = true ->
   length (answers p.2) = 1%nat /\
   forall labels' fw' fh' subscribers' ok' r' res',
     answers (publishInThread labels' fw' fh' subscribers' ok' r' p.1.2 res').2 = []) /\
  (isCheckingForObjects ok srv = false -> answers p.2 = [] /\ p.1.2 = srv) /\
  (forall s labels' fw' fh' subscribers' ok' r' res',
     answers (publishInThread labels' fw' fh' subscribers' ok' r'
                (actionServer (checkForObjectsActionPreemptCB s)) res').2 = []).
Proof.
  assert (Hnone : forall labels' fw' fh' subscribers' ok' r' srv' res',
            isCheckingForObjects ok' srv' = false ->
            answers (publishInThread labels' fw' fh' subscribers' ok' r' srv' res').2 = []
            /\ (publishInThread labels' fw' fh' subscribers' ok' r' srv' res').1.2 = srv').
  { intros labels' fw' fh' subscribers' ok' r' srv' res' Hc.
    unfold publishInThread, publish_boxes, answer_request. rewrite Hc.
    destruct ((0 <? rb_num (roiBoxes_ res' !!! O))
              && (rb_num (roiBoxes_ res' !!! O) <=? 100))%Z;
      destruct (subscribers' <? 1)%nat; split; reflexivity. }
  intros p. split; [| split].
  - intros Hc.
    assert (Hp : length (answers p.2) = 1%nat /\ isActive p.1.2 = false).
    { unfold p, publishInThread, publish_boxes, answer_request. rewrite Hc.
      destruct ((0 <? rb_num (roiBoxes_ res !!! O))
                && (rb_num (roiBoxes_ res !!! O) <=? 100))%Z;
        destruct (subscribers <? 1)%nat; split; reflexivity. }
    destruct Hp as [Hlen Hact]. split; [exact Hlen |].
    intros. apply Hnone. unfold isCheckingForObjects. rewrite Hact.
    now rewrite andb_false_r.
  - intros Hc. now apply Hnone.
  - intros. apply Hnone. unfold isCheckingForObjects. simpl. now rewrite andb_false_r.
Qed.

End PublishMore.

Lemma request_answered_once_witness :
  Ingest.isCheckingForObjects true (Ingest.mkServer true false) = true /\
  length
    (Pipeline.answers
       (Pipeline.publishInThread ["person"%string] 4 4 0 true
          (Scheduler.ring_ Examples.fresh) (Ingest.mkServer true false)
          (Scheduler.results_ Examples.fresh)).2) = 1%nat.
Proof.
  split; [reflexivity |].
  apply (request_answered_once ["person"%string] 4 4 0 true
           (Scheduler.ring_ Examples.fresh) (Ingest.mkServer true false)
           (Scheduler.results_ Examples.fresh)).
  reflexivity.
Defined.

Section PixelBox.

Local Open Scope Q_scope.

Lemma Qtrunc_floor (q : Q) : 0 <= q -> F.Qtrunc q = Qfloor q.
Proof.
  intros H0. unfold F.Qtrunc.
  assert (Hn : (0 <= Qnum q)%Z) by (unfold Qle in H0; simpl in H0; lia).
  rewrite Z.quot_div_nonneg by lia. now destruct q.
Qed.

Lemma Qtrunc_mono (p q : Q) : 0 <= p -> p <= q -> (F.Qtrunc p <= F.Qtrunc q)%Z.
Proof.
  intros H0 Hpq. rewrite !Qtrunc_floor by lra. now apply Qfloor_resp_le.
Qed.

Lemma Qtrunc_upper (q : Q) (W : Z) : 0 <= q -> q <= inject_Z W -> (F.Qtrunc q <= W)%Z.
Proof.
  intros H0 HW. rewrite Qtrunc_floor by exact H0.
  rewrite <- (Qfloor_Z W). now apply Qfloor_resp_le.
Qed.

(** The pixel coordinate of an edge at fraction [q] of a frame [W] wide. *)
Lemma to_int_edge (q : Q) (W : Z) :
  0 <= q -> q <= 1 -> (0 <= W <= F.INT_MAX)%Z ->
  F.to_int (F.Fin (q * inject_Z W)) = Some (F.Qtrunc (q * inject_Z W)) /\
  (0 <= F.Qtrunc (q * inject_Z W) <= W)%Z.
Proof.
  intros H0 H1 HW.
  assert (HWq : 0 <= inject_Z W).
  { change 0 with (inject_Z 0). rewrite <- Zle_Qle. lia. }
  assert (Hq0 : 0 <= q * inject_Z W) by now apply Qmult_le_0_compat.
  assert (HqW : q * inject_Z W <= inject_Z W).
  { apply Qle_trans with (1 * inject_Z W); [| rewrite Qmult_1_l; apply Qle_refl].
    now apply Qmult_le_compat_r. }
  assert (Hb : (0 <= F.Qtrunc (q * inject_Z W) <= W)%Z).
  { split; [| now apply Qtrunc_upper].
    rewrite Qtrunc_floor by exact Hq0. change 0%Z with (Qfloor 0).
    now apply Qfloor_resp_le. }
  split; [| exact Hb].
  unfold F.to_int.
  assert (Hmin : (F.INT_MIN <= 0)%Z) by (vm_compute; discriminate).
  destruct (Z.leb_spec F.INT_MIN (F.Qtrunc (q * inject_Z W))); [| lia].
  destruct (Z.leb_spec (F.Qtrunc (q * inject_Z W)) F.INT_MAX); [reflexivity | lia].
Qed.

Lemma Qtrunc_proper (p q : Q) : 0 <= p -> p == q -> F.Qtrunc p = F.Qtrunc q.
Proof.
  intros H0 Heq. apply Z.le_antisymm; apply Qtrunc_mono; try lra.
Qed.

(** One axis: the two pixel edges computed from the centre and the extent
    of a clipped box. *)
Lemma pixel_axis (a b : Q) (W : Z) :
  0 <= a -> a < b -> b <= 1 -> (0 <= W <= F.INT_MAX)%Z ->
  exists lo hi,
    Pipeline.pixel (F.div (F.add (F.Fin a) (F.Fin b)) Detect.two)
      (F.sub (F.Fin b) (F.Fin a)) false W = Some lo /\
    Pipeline.pixel (F.div (F.add (F.Fin a) (F.Fin b)) Detect.two)
      (F.sub (F.Fin b) (F.Fin a)) true W = Some hi /\
    lo = F.Qtrunc (a * inject_Z W) /\ hi = F.Qtrunc (b * inject_Z W) /\
    (0 <= lo <= hi)%Z /\ (hi <= W)%Z.
Proof.
  intros Ha Hab Hb HW.
  assert (HWq : 0 <= inject_Z W).
  { change 0 with (inject_Z 0). rewrite <- Zle_Qle. lia. }
  destruct (to_int_edge a W) as [_ [Ha0 Ha1]]; [lra | lra | exact HW |].
  destruct (to_int_edge b W) as [_ [Hb0 Hb1]]; [lra | lra | exact HW |].
  assert (Hmono : (F.Qtrunc (a * inject_Z W) <= F.Qtrunc (b * inject_Z W))%Z).
  { apply Qtrunc_mono; [now apply Qmult_le_0_compat |].
    apply Qmult_le_compat_r; lra. }
  assert (Elo : ((a + b) / 2 + - ((b + - a) / 2)) * inject_Z W == a * inject_Z W)
    by field.
  assert (Ehi : ((a + b) / 2 + (b + - a) / 2) * inject_Z W == b * inject_Z W)
    by field.
  assert (Hlo0 : 0 <= ((a + b) / 2 + - ((b + - a) / 2)) * inject_Z W).
  { rewrite Elo. now apply Qmult_le_0_compat. }
  assert (Hhi0 : 0 <= ((a + b) / 2 + (b + - a) / 2) * inject_Z W).
  { rewrite Ehi. apply Qmult_le_0_compat; lra. }
  pose proof (Qtrunc_proper _ _ Hlo0 Elo) as Tlo.
  pose proof (Qtrunc_proper _ _ Hhi0 Ehi) as Thi.
  assert (Hmin : (F.INT_MIN <= 0)%Z) by (vm_compute; discriminate).
  exists (F.Qtrunc (a * inject_Z W)), (F.Qtrunc (b * inject_Z W)).
  unfold Pipeline.pixel, Detect.two.
  change (F.div (F.add (F.Fin a) (F.Fin b)) (F.Fin 2)) with (F.Fin ((a + b) / 2)).
  change (F.div (F.sub (F.Fin b) (F.Fin a)) (F.Fin 2)) with (F.Fin ((b + - a) / 2)).
  change (F.mul (F.sub (F.Fin ((a + b) / 2)) (F.Fin ((b + - a) / 2))) (F.of_int W))
    with (F.Fin (((a + b) / 2 + - ((b + - a) / 2)) * inject_Z W)).
  change (F.mul (F.add (F.Fin ((a + b) / 2)) (F.Fin ((b + - a) / 2))) (F.of_int W))
    with (F.Fin (((a + b) / 2 + (b + - a) / 2) * inject_Z W)).
  unfold F.to_int. rewrite Tlo, Thi.
  destruct (Z.leb_spec F.INT_MIN (F.Qtrunc (a * inject_Z W))); [| lia].
  destruct (Z.leb_spec (F.Qtrunc (a * inject_Z W)) F.INT_MAX); [| lia].
  destruct (Z.leb_spec F.INT_MIN (F.Qtrunc (b * inject_Z W))); [| lia].
  destruct (Z.leb_spec (F.Qtrunc (b * inject_Z W)) F.INT_MAX); [| lia].
  simpl. repeat split; auto; lia.
Qed.

End PixelBox.

Section PublishedBox.

Variable camDmapCopy_ : Mat float.
Variables frameWidth_ frameHeight_ : Z.

(** X10: the message built for a record of [roiBoxes_] has pixel edges
    inside the frame: when the frame dimensions at publish time are
    non-negative [int]s, the four conversions are defined and
    [0 <= xmin <= xmax <= frameWidth_], [0 <= ymin <= ymax <= frameHeight_];
    the class label, the probability and the depth are copied. *)
Theorem published_box_inside_frame (c : detection * nat) (r : RosBox_)
    (label : string) (fw fh : Z) :
  Detect.survives c = true ->
  Detect.record_of camDmapCopy_ frameWidth_ frameHeight_ c r ->
  (0 <= fw <= F.INT_MAX)%Z -> (0 <= fh <= F.INT_MAX)%Z ->
  let m := Pipeline.to_message fw fh label r in
  exists x0 x1 y0 y1,
    bb_xmin m = Some x0 /\ bb_xmax m = Some x1 /\
    bb_ymin m = Some y0 /\ bb_ymax m = Some y1 /\
    (0 <= x0 <= x1)%Z /\ (x1 <= fw)%Z /\ (0 <= y0 <= y1)%Z /\ (y1 <= fh)%Z /\
    bb_Class m = label /\ bb_probability m = rb_prob r /\ bb_z m = rb_z r.
Proof.
  intros Hs (Hx & Hy & Hw & Hh & _) Hfw Hfh m.
  destruct c as [d j]. apply survivor_inv in Hs. destruct Hs as (p & _ & _ & Hbig).
  destruct (big_enough_clip _ Hbig) as (a & b & c & e & He & Ha & Hab & Hb & Hc & Hce & Hee).
  simpl in Hx, Hy, Hw, Hh. rewrite He in Hx, Hy, Hw, Hh.
  unfold Detect.x_center, Detect.y_center, Detect.BBox_width, Detect.BBox_height
    in Hx, Hy, Hw, Hh. simpl in Hx, Hy, Hw, Hh.
  destruct (pixel_axis a b fw Ha Hab Hb Hfw) as (x0 & x1 & Hx0 & Hx1 & _ & _ & Hxo & Hxw).
  destruct (pixel_axis c e fh Hc Hce Hee Hfh) as (y0 & y1 & Hy0 & Hy1 & _ & _ & Hyo & Hyh).
  exists x0, x1, y0, y1. unfold m, Pipeline.to_message. simpl.
  rewrite Hx, Hy, Hw, Hh.
  repeat split; auto; lia.
Qed.

End PublishedBox.

Lemma published_box_inside_frame_witness :
  Detect.survives (Examples.corner, O) = true /\
  Detect.record_of Examples.depth_4x4 4 4 (Examples.corner, O)
    (Examples.single_roi !!! O) /\
  exists x0 x1,
    bb_xmin (Pipeline.to_message 640 480 "person" (Examples.single_roi !!! O)) = Some x0 /\
    bb_xmax (Pipeline.to_message 640 480 "person" (Examples.single_roi !!! O)) = Some x1 /\
    (0 <= x0 <= x1)%Z /\ (x1 <= 640)%Z.
Proof.
  assert (Hs : Detect.survives (Examples.corner, O) = true) by reflexivity.
  assert (Hr : Detect.record_of Examples.depth_4x4 4 4 (Examples.corner, O)
                 (Examples.single_roi !!! O)).
  { unfold Detect.record_of. repeat split; vm_compute; reflexivity. }
  split; [exact Hs |]. split; [exact Hr |].
  destruct (published_box_inside_frame Examples.depth_4x4 4 4 (Examples.corner, O)
              (Examples.single_roi !!! O) "person" 640 480 Hs Hr)
    as (x0 & x1 & y0 & y1 & H0 & H1 & _ & _ & Hx & Hw & _).
  - unfold F.INT_MAX. lia.
  - unfold F.INT_MAX. lia.
  - exists x0, x1. auto.
Defined.

(** ** Grouping by class in [publishInThread] *)

Section Grouping.

Import Pipeline.

Variable classLabels_ : list string.
Variables frameWidth_ frameHeight_ : Z.

Local Abbreviation C := (numClasses_ classLabels_).

Lemma group_inner_none (roi : list RosBox_) (i : nat) (js : list nat)
    (st : list (list RosBox_) * list Z) :
  (forall j, j ∈ js -> rb_Class (roi !!! i) <> Z.of_nat j) ->
  foldl (group_body roi i) st js = st.
Proof.
  revert st. induction js as [| j js IH]; intros st Hne; [reflexivity |].
  simpl. unfold group_body at 2.
  destruct (Z.eqb_spec (rb_Class (roi !!! i)) (Z.of_nat j)) as [E | _].
  - exfalso. apply (Hne j); [left | exact E].
  - apply IH. intros j' Hj'. apply Hne. now right.
Qed.

Lemma group_inner_one (roi : list RosBox_) (i c : nat) (js : list nat)
    (st : list (list RosBox_) * list Z) :
  NoDup js -> c ∈ js -> rb_Class (roi !!! i) = Z.of_nat c ->
  foldl (group_body roi i) st js
  = (<[c := st.1 !!! c ++ [roi !!! i]]> st.1, <[c := (st.2 !!! c + 1)%Z]> st.2).
Proof.
  revert st. induction js as [| j js IH]; intros st Hnd Hin Hc.
  - now apply elem_of_nil in Hin.
  - apply NoDup_cons in Hnd. destruct Hnd as [Hj Hnd].
    simpl. unfold group_body at 2.
    destruct (Z.eqb_spec (rb_Class (roi !!! i)) (Z.of_nat j)) as [E | E].
    + assert (j = c) by lia. subst j.
      apply group_inner_none. intros j' Hj' Hcj'.
      assert (j' = c) by lia. subst j'. contradiction.
    + apply elem_of_cons in Hin. destruct Hin as [-> | Hin]; [congruence |].
      now apply IH.
Qed.

Lemma group_S (roi : list RosBox_) (m : nat) (st : list (list RosBox_) * list Z) :
  group classLabels_ roi (S m) st
  = foldl (group_body roi m) (group classLabels_ roi m st) (seq 0 C).
Proof.
  unfold group. rewrite seq_S, foldl_app. reflexivity.
Qed.

(** What the two grouping loops compute: class [j]'s vector receives, in
    order, the records of class [j] among the first [m]. *)
Lemma group_spec (roi : list RosBox_) (rb : list (list RosBox_)) (rc : list Z) (m : nat) :
  length rb = C -> length rc = C -> (m <= length roi)%nat ->
  let g := group classLabels_ roi m (rb, rc) in
  length g.1 = C /\ length g.2 = C /\
  forall j, (j < C)%nat ->
    g.1 !! j = Some (rb !!! j ++ of_class roi m j) /\
    g.2 !! j = Some (rc !!! j + Z.of_nat (length (of_class roi m j)))%Z.
Proof.
  intros Hrb Hrc. induction m as [| m IH]; intros Hm g.
  - unfold g, group, of_class. simpl. split; [exact Hrb |]. split; [exact Hrc |].
    intros j Hj. rewrite take_0, filter_nil, app_nil_r. simpl. rewrite Z.add_0_r.
    split; apply list_lookup_lookup_total_lt; lia.
  - destruct IH as (L1 & L2 & IH); [lia |].
    destruct (lookup_lt_is_Some_2 roi m) as [r Hr]; [lia |].
    assert (Hr' : roi !!! m = r) by now apply list_lookup_total_correct.
    assert (Htake : forall j, of_class roi (S m) j
                     = of_class roi m j ++ filter (fun b => rb_Class b = Z.of_nat j) [r]).
    { intros j. unfold of_class. rewrite (take_S_r roi m r Hr). apply filter_app. }
    unfold g. rewrite group_S.
    set (g0 := group classLabels_ roi m (rb, rc)) in *.
    destruct (decide (0 <= rb_Class (roi !!! m) < Z.of_nat C)%Z) as [Hin | Hout].
    + set (c := Z.to_nat (rb_Class (roi !!! m))).
      assert (Hc : rb_Class (roi !!! m) = Z.of_nat c) by (unfold c; lia).
      assert (HcC : (c < C)%nat) by lia.
      rewrite (group_inner_one roi m c); [| apply NoDup_seq | apply elem_of_seq; lia | exact Hc].
      simpl. rewrite !length_insert. split; [exact L1 |]. split; [exact L2 |].
      intros j Hj. destruct (IH j Hj) as [I1 I2]. rewrite Htake.
      destruct (decide (j = c)) as [-> | Hjc].
      * rewrite !list_lookup_insert_eq by lia.
        rewrite (list_lookup_total_correct _ _ _ I1), (list_lookup_total_correct _ _ _ I2).
        rewrite filter_cons_True, filter_nil by (rewrite <- Hr'; exact Hc).
        rewrite Hr', length_app, <- app_assoc. simpl. split; [reflexivity | f_equal; lia].
      * rewrite !list_lookup_insert_ne by auto.
        rewrite filter_cons_False, filter_nil by (rewrite <- Hr', Hc; lia).
        rewrite app_nil_r. split; assumption.
    + rewrite group_inner_none.
      2:{ intros j Hj. apply elem_of_seq in Hj. lia. }
      split; [exact L1 |]. split; [exact L2 |].
      intros j Hj. destruct (IH j Hj) as [I1 I2]. rewrite Htake.
      rewrite filter_cons_False, filter_nil by (rewrite <- Hr'; lia).
      rewrite app_nil_r. split; assumption.
Qed.

Lemma fmap_seq_lookup_total {A B : Type} `{Inhabited A} (f : A -> B) (l : list A) :
  (fun j => f (l !!! j)) <$> seq 0 (length l) = f <$> l.
Proof.
  induction l as [| x l IH]; [reflexivity |].
  simpl length. rewrite <- cons_seq, <- fmap_S_seq. rewrite fmap_cons. simpl.
  f_equal. rewrite <- list_fmap_compose. exact IH.
Qed.

(** The messages of one class when the counter is the vector's length. *)
Lemma class_messages_fmap (rb : list (list RosBox_)) (rc : list Z) (i : nat) :
  rc !!! i = Z.of_nat (length (rb !!! i)) ->
  class_messages classLabels_ frameWidth_ frameHeight_ rb rc i
  = to_message frameWidth_ frameHeight_ (classLabels_ !!! i) <$> (rb !!! i).
Proof.
  intros Hc. unfold class_messages. rewrite Hc, Nat2Z.id.
  destruct (Z.ltb_spec 0 (Z.of_nat (length (rb !!! i)))) as [_ | H0].
  - apply (fmap_seq_lookup_total
             (to_message frameWidth_ frameHeight_ (classLabels_ !!! i))).
  - destruct (rb !!! i); [reflexivity | simpl in H0; lia].
Qed.

Lemma clear_loop {A : Type} (x : A) (l : list A) (n : nat) :
  (n <= length l)%nat ->
  foldl (fun l i => <[i := x]> l) l (seq 0 n) = replicate n x ++ drop n l.
Proof.
  induction n as [| n IH]; intros Hn.
  - simpl. now rewrite drop_0.
  - rewrite seq_S, foldl_app, IH by lia. simpl.
    destruct (lookup_lt_is_Some_2 l n) as [y Hy]; [lia |].
    rewrite (drop_S l y n Hy).
    rewrite insert_app_r_alt by (rewrite length_replicate; lia).
    rewrite length_replicate, Nat.sub_diag. simpl.
    rewrite (cons_middle x), app_assoc, <- replicate_cons_app. reflexivity.
Qed.

Lemma clear_all {A : Type} (x : A) (l : list A) :
  foldl (fun l i => <[i := x]> l) l (seq 0 (length l)) = replicate (length l) x.
Proof.
  rewrite clear_loop by lia. now rewrite drop_all, app_nil_r.
Qed.

Lemma filter_all {A : Type} (P : A -> Prop) `{forall x, Decision (P x)} (l : list A) :
  Forall P l -> filter P l = l.
Proof.
  induction 1 as [| x l Hx _ IH]; [reflexivity |].
  rewrite filter_cons_True by exact Hx. now rewrite IH.
Qed.

Lemma class_split (l : list RosBox_) (n : nat) :
  (length (filter (fun b => 0 <= rb_Class b < Z.of_nat n)%Z l)
   + length (filter (fun b => rb_Class b = Z.of_nat n) l)
   = length (filter (fun b => 0 <= rb_Class b < Z.of_nat (S n))%Z l))%nat.
Proof.
  induction l as [| b l IH]; [reflexivity |].
  rewrite !filter_cons.
  destruct (decide (0 <= rb_Class b < Z.of_nat n)%Z);
    destruct (decide (rb_Class b = Z.of_nat n));
    destruct (decide (0 <= rb_Class b < Z.of_nat (S n))%Z); simpl; lia.
Qed.

Lemma classes_count {B : Type} (f : nat -> RosBox_ -> B) (l : list RosBox_) (n : nat) :
  length (concat ((fun i => f i <$> filter (fun b => rb_Class b = Z.of_nat i) l)
                    <$> seq 0 n))
  = length (filter (fun b => 0 <= rb_Class b < Z.of_nat n)%Z l).
Proof.
  induction n as [| n IH].
  - simpl. induction l as [| b l IHl]; [reflexivity |].
    rewrite filter_cons_False by lia. exact IHl.
  - rewrite seq_S, fmap_app, concat_app, length_app, IH. simpl.
    rewrite app_nil_r, length_fmap. apply class_split.
Qed.

(** The branch of [publishInThread] taken for a count in 1..100. *)
Lemma publish_boxes_groups (r : ring) (res : results) :
  let num := rb_num (roiBoxes_ res !!! O) in
  clean C res -> (0 < num <= 100)%Z ->
  (Z.to_nat num <= length (roiBoxes_ res))%nat ->
  let p := publish_boxes classLabels_ frameWidth_ frameHeight_ r res in
  exists msg,
    p.2 = [ObjectCount num; Boxes msg] /\
    bounding_boxes msg
    = concat ((fun i => to_message frameWidth_ frameHeight_ (classLabels_ !!! i)
                          <$> of_class (roiBoxes_ res) (Z.to_nat num) i)
                <$> seq 0 C) /\
    image_header msg = headerBuff_ r !!! Z.to_nat (Ring.display_slot (buffIndex_ r)) /\
    (Forall (fun b => 0 <= rb_Class b < Z.of_nat C)%Z
       (take (Z.to_nat num) (roiBoxes_ res)) ->
     length (bounding_boxes msg) = Z.to_nat num) /\
    clean C (cleared classLabels_ p.1).
Proof.
  intros num (Hrb & Hrc & Hbb) Hnum Hcap p.
  assert (Lrb : length (rosBoxes_ res) = C) by (rewrite Hrb; apply length_replicate).
  assert (Lrc : length (rosBoxCounter_ res) = C) by (rewrite Hrc; apply length_replicate).
  destruct (group_spec (roiBoxes_ res) (rosBoxes_ res) (rosBoxCounter_ res)
              (Z.to_nat num) Lrb Lrc Hcap) as (L1 & L2 & Hg).
  set (g := group classLabels_ (roiBoxes_ res) (Z.to_nat num)
              (rosBoxes_ res, rosBoxCounter_ res)) in *.
  assert (Hmsgs : class_messages classLabels_ frameWidth_ frameHeight_ g.1 g.2 <$> seq 0 C
                  = (fun i => to_message frameWidth_ frameHeight_ (classLabels_ !!! i)
                                <$> of_class (roiBoxes_ res) (Z.to_nat num) i)
                      <$> seq 0 C).
  { apply list_fmap_ext. intros k i Hi. apply lookup_seq in Hi. destruct Hi as [-> Hk].
    simpl. destruct (Hg k Hk) as [G1 G2].
    assert (E1 : g.1 !!! k = of_class (roiBoxes_ res) (Z.to_nat num) k).
    { rewrite (list_lookup_total_correct _ _ _ G1), Hrb.
      rewrite lookup_total_replicate_2 by exact Hk. reflexivity. }
    rewrite class_messages_fmap.
    - now rewrite E1.
    - rewrite (list_lookup_total_correct _ _ _ G2), Hrc, E1.
      rewrite lookup_total_replicate_2 by exact Hk. lia. }
  unfold p, publish_boxes. fold num.
  destruct (Z.ltb_spec 0 num) as [_ |]; [| lia].
  destruct (Z.leb_spec num 100) as [_ |]; [| lia].
  cbn [andb]. fold g. fold C. rewrite Hmsgs, Hbb. cbn [app fst snd].
  eexists. split; [reflexivity |]. cbn [bounding_boxes image_header].
  split; [reflexivity |]. split; [reflexivity |]. split.
  - intros Hall. unfold of_class. rewrite classes_count.
    rewrite filter_all by exact Hall.
    rewrite length_take. lia.
  - unfold clean, cleared. cbn [rosBoxes_ rosBoxCounter_ boundingBoxesResults_ bounding_boxes].
    unfold numClasses_ in *. fold C.
    split; [| split; [| reflexivity]].
    + rewrite <- L1 at 1. now rewrite clear_all, L1.
    + rewrite <- L2 at 1. now rewrite clear_all, L2.
Qed.

(** The branch taken for the other counts. *)
Lemma publish_boxes_nothing (r : ring) (res : results) :
  clean C res -> ~ (0 < rb_num (roiBoxes_ res !!! O) <= 100)%Z ->
  publish_boxes classLabels_ frameWidth_ frameHeight_ r res = (res, [ObjectCount 0]) /\
  clean C (cleared classLabels_ res).
Proof.
  intros (Hrb & Hrc & Hbb) Hnum. split.
  - unfold publish_boxes.
    destruct (Z.ltb_spec 0 (rb_num (roiBoxes_ res !!! O)));
      destruct (Z.leb_spec (rb_num (roiBoxes_ res !!! O)) 100);
      try reflexivity; lia.
  - unfold clean, cleared.
    cbn [rosBoxes_ rosBoxCounter_ boundingBoxesResults_ bounding_boxes].
    rewrite Hrb, Hrc. unfold numClasses_.
    split; [| split; [| reflexivity]].
    + pose proof (clear_all ([] : list RosBox_)
                    (replicate (length classLabels_) ([] : list RosBox_))) as H.
      rewrite length_replicate in H. exact H.
    + pose proof (clear_all 0%Z (replicate (length classLabels_) 0%Z)) as H.
      rewrite length_replicate in H. exact H.
Qed.

(** The counts and the box messages of a call are those of its middle
    part. *)
Lemma publishInThread_parts subscribers ros_ok (r : ring) (srv : Ingest.server)
    (res : results) :
  let p := publishInThread classLabels_ frameWidth_ frameHeight_ subscribers ros_ok
             r srv res in
  let b := publish_boxes classLabels_ frameWidth_ frameHeight_ r res in
  p.1.1 = cleared classLabels_ b.1 /\
  counts p.2 = counts b.2 /\ box_messages p.2 = box_messages b.2.
Proof.
  intros p b. unfold p, publishInThread. fold b.
  destruct b as [res1 boxes_out]. unfold answer_request.
  destruct (Ingest.isCheckingForObjects ros_ok srv);
    destruct (subscribers <? 1)%nat; cbn [fst snd];
    unfold counts, box_messages; rewrite ?omap_app; cbn [omap];
    rewrite ?app_nil_r; repeat split; reflexivity.
Qed.

(** X11: what [publishInThread] publishes, starting from the state
    [readParameters] leaves (one empty vector and one zero counter per
    class, no queued box), with [num = roiBoxes_[0].num].

    When [num] is in 1..100 and [roiBoxes_] holds [num] entries, it
    publishes the count [num] and one message whose boxes are, class
    after class in the order of the labels, the records of that class
    among the first [num] entries of [roiBoxes_], in their order there,
    each labelled with its class's name; the message carries the header
    of the display slot; if every such record has a class below
    [numClasses_] the message has exactly [num] boxes.

    When [num] is 0 or less, or above 100, it publishes the count 0 and
    no box message.

    In both cases [roiBoxes_] is kept and the per-class vectors, the
    counters and the box list are empty again afterwards. *)
Theorem publish_groups_by_class subscribers ros_ok (r : ring) (srv : Ingest.server)
    (res : results) :
  let num := rb_num (roiBoxes_ res !!! O) in
  clean C res ->
  let p := publishInThread classLabels_ frameWidth_ frameHeight_ subscribers ros_ok
             r srv res in
  ((0 < num <= 100)%Z -> (Z.to_nat num <= length (roiBoxes_ res))%nat ->
   counts p.2 = [num] /\
   (exists msg,
      box_messages p.2 = [msg] /\
      bounding_boxes msg
      = concat ((fun i => to_message frameWidth_ frameHeight_ (classLabels_ !!! i)
                            <$> of_class (roiBoxes_ res) (Z.to_nat num) i)
                  <$> seq 0 C) /\
      image_header msg
      = headerBuff_ r !!! Z.to_nat (Ring.display_slot (buffIndex_ r)) /\
      (Forall (fun b => 0 <= rb_Class b < Z.of_nat C)%Z
         (take (Z.to_nat num) (roiBoxes_ res)) ->
       length (bounding_boxes msg) = Z.to_nat num)) /\
   clean C p.1.1 /\ roiBoxes_ p.1.1 = roiBoxes_ res) /\
  (~ (0 < num <= 100)%Z ->
   counts p.2 = [0%Z] /\ box_messages p.2 = [] /\
   clean C p.1.1 /\ roiBoxes_ p.1.1 = roiBoxes_ res).
Proof.
  intros num Hclean p.
  destruct (publishInThread_parts subscribers ros_ok r srv res) as (Hres & Hcnt & Hmsg).
  fold p in Hres, Hcnt, Hmsg.
  assert (Hroi : roiBoxes_ p.1.1 = roiBoxes_ res).
  { rewrite Hres. unfold cleared, publish_boxes. cbn [roiBoxes_].
    destruct ((0 <? rb_num (roiBoxes_ res !!! O))
              && (rb_num (roiBoxes_ res !!! O) <=? 100))%Z; reflexivity. }
  split.
  - intros Hnum Hcap.
    destruct (publish_boxes_groups r res Hclean Hnum Hcap)
      as (msg & Hout & Hbb & Hhdr & Hlen & Hcl).
    rewrite Hcnt, Hmsg, Hout.
    split; [reflexivity |]. split; [| split; [now rewrite Hres | exact Hroi]].
    exists msg. split; [reflexivity |]. auto.
  - intros Hnum.
    destruct (publish_boxes_nothing r res Hclean Hnum) as (Hout & Hcl).
    rewrite Hcnt, Hmsg, Hout.
    split; [reflexivity |]. split; [reflexivity |].
    split; [now rewrite Hres, Hout | exact Hroi].
Qed.

End Grouping.

Lemma publish_groups_by_class_witness :
  let res := Pipeline.mkResults Examples.single_roi [[]] [0%Z]
               (mkBoundingBoxes 0 "" (mkHeader 0 0 "") []) in
  let p := Pipeline.publishInThread ["person"%string] 640 480 1 true
             (Scheduler.ring_ Examples.fresh) (Ingest.mkServer false false) res in
  clean 1 res /\
  Pipeline.counts p.2 = [1%Z] /\
  exists msg, box_messages p.2 = [msg] /\ length (bounding_boxes msg) = 1%nat.
Proof.
  intros res p.
  assert (Hclean : clean 1 res) by (repeat split).
  assert (Hn : rb_num (Pipeline.roiBoxes_ res !!! O) = 1%Z) by (vm_compute; reflexivity).
  split; [exact Hclean |].
  destruct (publish_groups_by_class ["person"%string] 640 480 1%nat true
              (Scheduler.ring_ Examples.fresh) (Ingest.mkServer false false) res Hclean)
    as [Hin _].
  destruct Hin as (Hc & (msg & Hm & _ & _ & Hlen) & _).
  - rewrite Hn. lia.
  - rewrite Hn. vm_compute. lia.
  - rewrite Hn in Hc, Hlen. split; [exact Hc |].
    exists msg. split; [exact Hm |].
    rewrite Hlen; [reflexivity |].
    vm_compute. repeat constructor; discriminate.
Defined.

(** ** Invariants of the scheduler over every interleaving *)

Section SchedulerInvariants.

Import Ingest Pipeline Scheduler Discipline.

Variable toCvCopy_BGR8 : Image -> CvResult Z.
Variable toCvCopy_32FC1 : Image -> CvResult float.

Local Abbreviation exec := (Scheduler.exec toCvCopy_BGR8 toCvCopy_32FC1).
Local Abbreviation run := (Scheduler.run toCvCopy_BGR8 toCvCopy_32FC1).
Local Abbreviation attempt := (Scheduler.attempt toCvCopy_BGR8 toCvCopy_32FC1).
Local Abbreviation posted := (Discipline.posted toCvCopy_BGR8 toCvCopy_32FC1).
Local Abbreviation decodes := (Discipline.decodes toCvCopy_BGR8 toCvCopy_32FC1).

(** An invariant of single actions is an invariant of runs. *)
Lemma run_invariant (P : node -> Prop) :
  (forall a n n', P n -> exec a n = Some n' -> P n') ->
  forall tr n n', P n -> run tr n = Some n' -> P n'.
Proof.
  intros Hstep tr. induction tr as [| a tr IH]; intros n n' HP Hrun; simpl in Hrun.
  - now inversion Hrun; subst.
  - destruct (exec a n) as [n1 |] eqn:E; [| discriminate].
    simpl in Hrun. exact (IH _ _ (Hstep _ _ _ HP E) Hrun).
Qed.

(** What one action does to the control record. *)
Ltac crunch H :=
  repeat match type of H with
         | context [if ?b then _ else _] => destruct b eqn:?
         | context [match ?t with NotJoinable => _ | _ => _ end] => destruct t eqn:?
         | context [match ?k with O => _ | S _ => _ end] => destruct k eqn:?
         | context [Detect.extract ?a ?b ?c ?d ?e ?f] =>
             destruct (Detect.extract a b c d e f) as [[? ?] |] eqn:?; simpl in H
         | context [Pipeline.publishInThread ?a ?b ?c ?d ?e ?f ?g ?h] =>
             destruct (Pipeline.publishInThread a b c d e f g h) as [[? ?] ?] eqn:?
         end;
  try discriminate.

Lemma exec_tidy a n n' : tidy n -> exec a n = Some n' -> tidy n'.
Proof.
  unfold tidy. intros Ht H.
  destruct n as [[st sem srv lg] [p running done ft dt cnt] rng res ar cfg out].
  destruct a; simpl in H, Ht.
  - unfold scheduler_step, Scheduler.displayInThread in H. simpl in H.
    destruct p; simpl in H, Ht; crunch H;
      inversion H; subst; simpl; try reflexivity; try congruence;
      destruct ft, dt; simpl in *; congruence.
  - crunch H. inversion H; subst; simpl in *. exact Ht.
  - crunch H. inversion H; subst; simpl in *. exact Ht.
  - inversion H; subst; exact Ht.
  - inversion H; subst; exact Ht.
  - inversion H; subst; exact Ht.
  - inversion H; subst; exact Ht.
  - inversion H; subst; exact Ht.
Qed.

(** X12: the two [std::thread] objects are used in step with the loop, in
    every interleaving of the scheduler, its two workers, the callbacks,
    the keyboard and the destructor: at each place of [yolo()] exactly the
    threads started and not yet joined are joinable.  So a thread is
    never assigned while joinable (the two assignments can always be
    made), each [join] is called on a joinable thread, and when [yolo()]
    has returned both threads have been joined. *)
Theorem threads_in_step (tr : list action) (n n' : node) :
  tidy n -> run tr n = Some n' ->
  tidy n' /\
  (at_ (ctl n') = SpawnFetch \/ at_ (ctl n') = SpawnDetect ->
   exists n'', exec Step n' = Some n'') /\
  (at_ (ctl n') = JoinFetch -> fetch_thread (ctl n') <> NotJoinable) /\
  (at_ (ctl n') = JoinDetect -> detect_thread (ctl n') <> NotJoinable) /\
  (at_ (ctl n') = Returned ->
   fetch_thread (ctl n') = NotJoinable /\ detect_thread (ctl n') = NotJoinable).
Proof.
  intros Ht Hrun.
  assert (Ht' : tidy n') by exact (run_invariant tidy exec_tidy tr n n' Ht Hrun).
  split; [exact Ht' |]. unfold tidy in Ht'.
  destruct n' as [[st sem srv lg] [p running done ft dt cnt] rng res ar cfg out].
  simpl in *. unfold scheduler_step. simpl.
  split; [| split; [| split]].
  - intros [-> | ->]; destruct ft, dt; simpl in *; try discriminate; eauto.
  - intros ->. destruct ft; simpl in *; congruence.
  - intros ->. destruct ft, dt; simpl in *; congruence.
  - intros ->. destruct ft, dt; simpl in *; try discriminate. auto.
Qed.

Lemma exec_posted a n n' :
  exec a n = Some n' ->
  (Z.of_nat (sem_new_image_ (ingest n')) + count (ctl n') + in_flight (at_ (ctl n'))
   = Z.of_nat (sem_new_image_ (ingest n)) + count (ctl n) + in_flight (at_ (ctl n))
     + (if decodes a then 1 else 0))%Z.
Proof.
  intros H.
  destruct n as [[st sem srv lg] [p running done ft dt cnt] rng res ar cfg out].
  destruct a; simpl in H.
  - unfold scheduler_step, Scheduler.displayInThread in H. simpl in H.
    destruct p; simpl in H; crunch H; inversion H; subst; simpl; lia.
  - crunch H. inversion H; subst; simpl. lia.
  - crunch H. inversion H; subst; simpl. lia.
  - inversion H; subst; clear H. unfold zedCameraCallback. simpl.
    destruct (decode_pair _ _ _ _) as [what | [[cam_image |] [cam_dmap |]]];
      simpl; lia.
  - inversion H; subst; clear H. unfold checkForObjectsActionGoalCB. simpl.
    destruct (toCvCopy_BGR8 _); simpl; lia.
  - inversion H; subst; simpl. lia.
  - inversion H; subst; simpl. lia.
  - inversion H; subst; simpl. lia.
Qed.

Lemma posted_cons a tr :
  posted (a :: tr) = ((if decodes a then 1 else 0) + posted tr)%Z.
Proof.
  unfold Discipline.posted. simpl. destruct (decodes a); simpl length; lia.
Qed.

(** X13: every streamed pair that decodes posts the semaphore once and
    every iteration takes one post: in every interleaving, the posts
    pending, the iterations completed ([count]) and the iteration in
    progress add up to what they were at the start plus the number of
    pairs decoded since.  Requests, keys and the destructor post
    nothing. *)
Theorem posts_accounted (tr : list action) (n n' : node) :
  run tr n = Some n' ->
  (Z.of_nat (sem_new_image_ (ingest n')) + count (ctl n') + in_flight (at_ (ctl n'))
   = Z.of_nat (sem_new_image_ (ingest n)) + count (ctl n) + in_flight (at_ (ctl n))
     + posted tr)%Z.
Proof.
  revert n. induction tr as [| a tr IH]; intros n Hrun; simpl in Hrun.
  - inversion Hrun; subst. unfold Discipline.posted. simpl. lia.
  - destruct (exec a n) as [n1 |] eqn:E; [| discriminate]. simpl in Hrun.
    rewrite (IH _ Hrun), (exec_posted _ _ _ E), posted_cons. lia.
Qed.

Lemma exec_counts a n n' :
  exec a n = Some n' ->
  (Z.of_nat (length (counts (outbox n'))) + count (ctl n) + after_publish (at_ (ctl n))
   = Z.of_nat (length (counts (outbox n))) + count (ctl n')
     + after_publish (at_ (ctl n')))%Z.
Proof.
  intros H.
  destruct n as [[st sem srv lg] [p running done ft dt cnt] rng res ar cfg out].
  destruct a; simpl in H;
    try (crunch H; inversion H; subst; simpl; lia).
  unfold scheduler_step, Scheduler.displayInThread in H. simpl in H.
  destruct p; simpl in H;
    try (crunch H; inversion H; subst; simpl; lia).
  pose proof (counts_publish (classLabels_ cfg) (frameWidth_ st) (frameHeight_ st)
                (subscribers ar) (ros_ok ar) rng srv res) as Hc.
  destruct (Pipeline.publishInThread _ _ _ _ _ _ _ _) as [[res' srv'] out'].
  inversion H; subst; simpl in *. unfold counts in *.
  rewrite omap_app, Hc, length_app. simpl. lia.
Qed.

(** X14: one object count is published per iteration, in every
    interleaving: the number of count messages sent grows exactly with
    [count], one message ahead between [publishInThread] and [++count].
    No callback, worker, key or shutdown sends a count. *)
Theorem one_count_per_iteration (tr : list action) (n n' : node) :
  run tr n = Some n' ->
  (Z.of_nat (length (counts (outbox n'))) + count (ctl n) + after_publish (at_ (ctl n))
   = Z.of_nat (length (counts (outbox n))) + count (ctl n')
     + after_publish (at_ (ctl n')))%Z.
Proof.
  revert n. induction tr as [| a tr IH]; intros n Hrun; simpl in Hrun.
  - inversion Hrun; subst. lia.
  - destruct (exec a n) as [n1 |] eqn:E; [| discriminate]. simpl in Hrun.
    pose proof (IH _ Hrun). pose proof (exec_counts _ _ _ E). lia.
Qed.

Lemma exec_answers a n n' :
  exec a n = Some n' ->
  (Z.of_nat (length (answers (outbox n'))) + active (actionServer (ingest n'))
   <= Z.of_nat (length (answers (outbox n))) + active (actionServer (ingest n))
      + (if is_request a then 1 else 0))%Z.
Proof.
  intros H.
  destruct n as [[st sem srv lg] [p running done ft dt cnt] rng res ar cfg out].
  destruct a; simpl in H.
  - unfold scheduler_step, Scheduler.displayInThread in H. simpl in H.
    destruct p; simpl in H;
      try (crunch H; inversion H; subst; simpl; lia).
    unfold Pipeline.publishInThread, publish_boxes, answer_request,
      isCheckingForObjects in H.
    destruct srv as [act pre]. simpl in H.
    destruct ((0 <? rb_num (roiBoxes_ res !!! O))
              && (rb_num (roiBoxes_ res !!! O) <=? 100))%Z;
      destruct (subscribers ar <? 1)%nat;
      destruct (ros_ok ar), act, pre; simpl in H;
      inversion H; subst; simpl; unfold active, answers; simpl;
      rewrite omap_app, length_app; simpl; lia.
  - crunch H. inversion H; subst; simpl. lia.
  - crunch H. inversion H; subst; simpl. lia.
  - inversion H; subst; clear H. unfold zedCameraCallback. simpl.
    destruct (decode_pair _ _ _ _) as [what | [[cam_image |] [cam_dmap |]]];
      simpl; lia.
  - inversion H; subst; clear H. unfold checkForObjectsActionGoalCB. simpl.
    destruct (toCvCopy_BGR8 _); simpl; unfold active; simpl; destruct (isActive srv); lia.
  - inversion H; subst; simpl. unfold active. simpl. destruct (isActive srv); lia.
  - inversion H; subst; simpl. lia.
  - inversion H; subst; simpl. lia.
Qed.

(** X15: an answer is sent for a request only: in every interleaving the
    number of results handed to [setSucceeded], plus one while a goal is
    active, never exceeds what it was at the start plus the number of
    requests received since.  A request that arrives while another is
    active replaces it, so it can be less. *)
Theorem answers_bounded_by_requests (tr : list action) (n n' : node) :
  run tr n = Some n' ->
  (Z.of_nat (length (answers (outbox n'))) + active (actionServer (ingest n'))
   <= Z.of_nat (length (answers (outbox n))) + active (actionServer (ingest n))
      + requested tr)%Z.
Proof.
  revert n. induction tr as [| a tr IH]; intros n Hrun; simpl in Hrun.
  - inversion Hrun; subst. unfold requested. simpl. lia.
  - destruct (exec a n) as [n1 |] eqn:E; [| discriminate]. simpl in Hrun.
    pose proof (IH _ Hrun). pose proof (exec_answers _ _ _ E).
    unfold requested in *. simpl. destruct (is_request a); simpl length; lia.
Qed.

End SchedulerInvariants.

Lemma threads_in_step_witness :
  Discipline.tidy Examples.fresh /\
  exists n',
    Scheduler.run Examples.to_bgr8 Examples.to_32fc1
      (Examples.start_up ++ Examples.iteration) Examples.fresh = Some n' /\
    Discipline.tidy n'.
Proof.
  assert (Ht : Discipline.tidy Examples.fresh) by reflexivity.
  split; [exact Ht |].
  destruct (Scheduler.run Examples.to_bgr8 Examples.to_32fc1
              (Examples.start_up ++ Examples.iteration) Examples.fresh)
    as [n' |] eqn:E; [| vm_compute in E; discriminate].
  exists n'. split; [reflexivity |].
  exact (proj1 (threads_in_step Examples.to_bgr8 Examples.to_32fc1 _ _ _ Ht E)).
Defined.

Lemma posts_accounted_witness :
  exists n',
    Scheduler.run Examples.to_bgr8 Examples.to_32fc1
      (Examples.start_up ++ Examples.iteration ++ [Examples.stream; Examples.stream])
      Examples.fresh = Some n' /\
    (Z.of_nat (Ingest.sem_new_image_ (Scheduler.ingest n'))
     + Scheduler.count (Scheduler.ctl n')
     + Discipline.in_flight (Scheduler.at_ (Scheduler.ctl n')) = 3)%Z.
Proof.
  destruct (Scheduler.run Examples.to_bgr8 Examples.to_32fc1
              (Examples.start_up ++ Examples.iteration
               ++ [Examples.stream; Examples.stream]) Examples.fresh)
    as [n' |] eqn:E; [| vm_compute in E; discriminate].
  exists n'. split; [reflexivity |].
  rewrite (posts_accounted Examples.to_bgr8 Examples.to_32fc1 _ _ _ E).
  vm_compute. reflexivity.
Defined.

Lemma one_count_per_iteration_witness :
  exists n',
    Scheduler.run Examples.to_bgr8 Examples.to_32fc1 Examples.three_requests
      Examples.fresh = Some n' /\
    (Z.of_nat (length (Pipeline.counts (Scheduler.outbox n')))
     = Scheduler.count (Scheduler.ctl n')
       + Discipline.after_publish (Scheduler.at_ (Scheduler.ctl n')))%Z.
Proof.
  destruct (Scheduler.run Examples.to_bgr8 Examples.to_32fc1 Examples.three_requests
              Examples.fresh) as [n' |] eqn:E; [| vm_compute in E; discriminate].
  exists n'. split; [reflexivity |].
  pose proof (one_count_per_iteration Examples.to_bgr8 Examples.to_32fc1 _ _ _ E) as H.
  simpl in H. lia.
Defined.

Lemma answers_bounded_by_requests_witness :
  exists n',
    Scheduler.run Examples.to_bgr8 Examples.to_32fc1 Examples.three_requests
      Examples.fresh = Some n' /\
    (Z.of_nat (length (Pipeline.answers (Scheduler.outbox n')))
     + Discipline.active (Ingest.actionServer (Scheduler.ingest n')) <= 3)%Z.
Proof.
  destruct (Scheduler.run Examples.to_bgr8 Examples.to_32fc1 Examples.three_requests
              Examples.fresh) as [n' |] eqn:E; [| vm_compute in E; discriminate].
  exists n'. split; [reflexivity |].
  pose proof (answers_bounded_by_requests Examples.to_bgr8 Examples.to_32fc1 _ _ _ E) as H.
  exact H.
Defined.

(** ** The ring of three slots *)

Section RingMore.

Import Ingest Pipeline Scheduler Discipline.

Lemma in_ring_cases (i : Z) : Ring.in_ring i -> i = 0%Z \/ i = 1%Z \/ i = 2%Z.
Proof. unfold Ring.in_ring. lia. Qed.

(** X16: [fetchInThread] fills the slot [buffIndex_] of the three arrays
    from the staged frame, its header and the staged request id, and
    leaves the two other slots of each array as they are; the index and
    the sizes are unchanged.  The slot it fills is the one
    [detectInThread] reads after the next advance of the index and the
    one [displayInThread] and [publishInThread] use after the advance
    that follows; the third advance brings the index back. *)
Theorem fetchInThread_fills_its_slot (s : staging) (r : ring) :
  ring_ok r ->
  let r' := fetchInThread s r in
  let i := buffIndex_ r in
  ring_ok r' /\ buffIndex_ r' = i /\
  buff_ r' !! Z.to_nat (Ring.fetch_slot i) = Some (camImageCopy_ s) /\
  headerBuff_ r' !! Z.to_nat (Ring.fetch_slot i) = Some (imageHeader_ s) /\
  buffId_ r' !! Z.to_nat (Ring.fetch_slot i) = Some (actionId_ s) /\
  (forall k, k <> Z.to_nat (Ring.fetch_slot i) ->
     buff_ r' !! k = buff_ r !! k /\ headerBuff_ r' !! k = headerBuff_ r !! k /\
     buffId_ r' !! k = buffId_ r !! k) /\
  Ring.detect_slot (Ring.advance i) = Ring.fetch_slot i /\
  Ring.display_slot (Ring.advance (Ring.advance i)) = Ring.fetch_slot i /\
  Ring.advance (Ring.advance (Ring.advance i)) = i.
Proof.
  intros (Hi & Hb & Hh & Hd) r' i.
  assert (Hlt : (Z.to_nat (Ring.fetch_slot i) < 3)%nat).
  { unfold Ring.fetch_slot, Ring.in_ring in *. fold i in Hi. lia. }
  unfold r', fetchInThread, getIplImageWithHeader. cbn [buff_ headerBuff_ buffId_ buffIndex_ fst snd].
  fold i.
  split; [| split; [reflexivity |]].
  { unfold ring_ok. cbn [buff_ headerBuff_ buffId_ buffIndex_].
    rewrite !length_insert. auto. }
  split; [apply list_lookup_insert_eq; lia |].
  split; [apply list_lookup_insert_eq; lia |].
  split; [apply list_lookup_insert_eq; lia |].
  split.
  { intros k Hk. repeat split; apply list_lookup_insert_ne; auto. }
  destruct (in_ring_cases i Hi) as [E | [E | E]]; rewrite E; repeat split; reflexivity.
Qed.

Lemma index_after_add (a b : nat) (i : Z) :
  Ring.index_after a (Ring.index_after b i) = Ring.index_after (a + b) i.
Proof. induction a as [| a IH]; simpl; [reflexivity | now rewrite IH]. Qed.

Section WithDecoder.

Variable toCvCopy_BGR8 : Image -> CvResult Z.
Variable toCvCopy_32FC1 : Image -> CvResult float.

Local Abbreviation exec := (Scheduler.exec toCvCopy_BGR8 toCvCopy_32FC1).
Local Abbreviation run := (Scheduler.run toCvCopy_BGR8 toCvCopy_32FC1).

Ltac crunch H :=
  repeat match type of H with
         | context [if ?b then _ else _] => destruct b eqn:?
         | context [match ?t with NotJoinable => _ | _ => _ end] => destruct t eqn:?
         | context [match ?k with O => _ | S _ => _ end] => destruct k eqn:?
         | context [Detect.extract ?a ?b ?c ?d ?e ?f] =>
             destruct (Detect.extract a b c d e f) as [[? ?] |] eqn:?; simpl in H
         | context [Pipeline.publishInThread ?a ?b ?c ?d ?e ?f ?g ?h] =>
             destruct (Pipeline.publishInThread a b c d e f g h) as [[? ?] ?] eqn:?
         end;
  try discriminate.

Lemma exec_ring a n n' :
  ring_ok (ring_ n) -> exec a n = Some n' ->
  ring_ok (ring_ n') /\
  exists k : nat,
    (Z.of_nat k = count (ctl n') + advanced (at_ (ctl n'))
                  - (count (ctl n) + advanced (at_ (ctl n))))%Z /\
    buffIndex_ (ring_ n') = Ring.index_after k (buffIndex_ (ring_ n)).
Proof.
  intros Hok H.
  assert (Hsame : forall m : node,
            ring_ m = ring_ n ->
            (count (ctl m) + advanced (at_ (ctl m))
             = count (ctl n) + advanced (at_ (ctl n)))%Z ->
            ring_ok (ring_ m) /\
            exists k : nat,
              (Z.of_nat k = count (ctl m) + advanced (at_ (ctl m))
                            - (count (ctl n) + advanced (at_ (ctl n))))%Z /\
              buffIndex_ (ring_ m) = Ring.index_after k (buffIndex_ (ring_ n))).
  { intros m Hr Hc. rewrite Hr. split; [exact Hok |]. exists O. split; [lia | reflexivity]. }
  destruct n as [[st sem srv lg] [p running done ft dt cnt] rng res ar cfg out].
  destruct a; simpl in H.
  - unfold scheduler_step, Scheduler.displayInThread in H. simpl in H.
    destruct p; simpl in H; crunch H; inversion H; subst; clear H;
      try (apply Hsame; simpl; [reflexivity | lia]).
    + (* Prime *)
      simpl. split.
      * destruct Hok as (Hi & _ & _ & Hd). simpl in Hi, Hd.
        unfold ring_ok. simpl. auto.
      * exists O. split; [lia | reflexivity].
    + (* Advance *)
      simpl. destruct Hok as (Hi & Hb & Hh & Hd). simpl in *. split.
      * split; [now apply advance_in_ring | auto].
      * exists 1%nat. split; [lia | reflexivity].
  - crunch H. inversion H; subst; clear H. simpl.
    split.
    + destruct Hok as (Hi & Hb & Hh & Hd). simpl in *.
      unfold ring_ok, fetchInThread. cbn [buff_ headerBuff_ buffId_ buffIndex_].
      rewrite !length_insert. auto.
    + exists O. split; [lia | reflexivity].
  - crunch H. inversion H; subst; clear H. apply Hsame; simpl; [reflexivity | lia].
  - inversion H; subst; clear H. apply Hsame; simpl; [reflexivity | lia].
  - inversion H; subst; clear H. apply Hsame; simpl; [reflexivity | lia].
  - inversion H; subst; clear H. apply Hsame; simpl; [reflexivity | lia].
  - inversion H; subst; clear H. apply Hsame; simpl; [reflexivity | lia].
  - inversion H; subst; clear H. apply Hsame; simpl; [reflexivity | lia].
Qed.

(** X17: in every interleaving the three arrays keep their three slots
    and [buffIndex_] stays one of 0, 1, 2; it is advanced once per
    iteration and by nothing else: after a run it is the start index
    advanced [k] times, [k] being the number of iterations that went past
    the assignment since. *)
Theorem ring_index_follows_iterations (tr : list action) (n n' : node) :
  ring_ok (ring_ n) -> run tr n = Some n' ->
  ring_ok (ring_ n') /\
  exists k : nat,
    (Z.of_nat k = count (ctl n') + advanced (at_ (ctl n'))
                  - (count (ctl n) + advanced (at_ (ctl n))))%Z /\
    buffIndex_ (ring_ n') = Ring.index_after k (buffIndex_ (ring_ n)).
Proof.
  revert n. induction tr as [| a tr IH]; intros n Hok Hrun; simpl in Hrun.
  - inversion Hrun; subst. split; [exact Hok |]. exists O. split; [lia | reflexivity].
  - destruct (exec a n) as [n1 |] eqn:E; [| discriminate]. simpl in Hrun.
    destruct (exec_ring _ _ _ Hok E) as (Hok1 & k1 & Hk1 & Hi1).
    destruct (IH _ Hok1 Hrun) as (Hok' & k & Hk & Hi).
    split; [exact Hok' |]. exists (k + k1)%nat. split; [lia |].
    now rewrite Hi, Hi1, index_after_add.
Qed.

End WithDecoder.

End RingMore.

Lemma fetchInThread_fills_its_slot_witness :
  Discipline.ring_ok (Scheduler.ring_ Examples.fresh) /\
  Pipeline.buff_
    (Pipeline.fetchInThread (Ingest.staged Examples.streamed)
       (Scheduler.ring_ Examples.fresh))
  !! Z.to_nat (Ring.fetch_slot (Pipeline.buffIndex_ (Scheduler.ring_ Examples.fresh)))
  = Some (Ingest.camImageCopy_ (Ingest.staged Examples.streamed)).
Proof.
  assert (Hok : Discipline.ring_ok (Scheduler.ring_ Examples.fresh)).
  { unfold Discipline.ring_ok, Ring.in_ring. simpl. repeat split; lia. }
  split; [exact Hok |].
  apply (fetchInThread_fills_its_slot (Ingest.staged Examples.streamed)
           (Scheduler.ring_ Examples.fresh) Hok).
Defined.

Lemma ring_index_follows_iterations_witness :
  Discipline.ring_ok (Scheduler.ring_ Examples.fresh) /\
  exists n',
    Scheduler.run Examples.to_bgr8 Examples.to_32fc1 Examples.three_requests
      Examples.fresh = Some n' /\
    Discipline.ring_ok (Scheduler.ring_ n').
Proof.
  assert (Hok : Discipline.ring_ok (Scheduler.ring_ Examples.fresh)).
  { unfold Discipline.ring_ok, Ring.in_ring. simpl. repeat split; lia. }
  split; [exact Hok |].
  destruct (Scheduler.run Examples.to_bgr8 Examples.to_32fc1 Examples.three_requests
              Examples.fresh) as [n' |] eqn:E; [| vm_compute in E; discriminate].
  exists n'. split; [reflexivity |].
  exact (proj1 (ring_index_follows_iterations Examples.to_bgr8 Examples.to_32fc1
                  _ _ _ Hok E)).
Defined.

(** ** One iteration of the loop *)

Section Round.

Import Ingest Pipeline Scheduler Discipline.

Variable toCvCopy_BGR8 : Image -> CvResult Z.
Variable toCvCopy_32FC1 : Image -> CvResult float.

Local Abbreviation exec := (Scheduler.exec toCvCopy_BGR8 toCvCopy_32FC1).
Local Abbreviation run := (Scheduler.run toCvCopy_BGR8 toCvCopy_32FC1).

Ltac open_view n H :=
  destruct n as [[?st ?sem ?srv ?lg] [?p ?running ?done ?ft ?dt ?cnt] ?rng
                 [?roi ?rb ?rc ?bbr] ?ar ?cfg ?out];
  unfold view in H; simpl in H; inversion H; subst; clear H.

Ltac view_step n H :=
  open_view n H; simpl; eexists; split; reflexivity.

Lemma view_SemWait n ft dt cnt running done k i st cfg roi key0 :
  view n = (SemWait, ft, dt, cnt, running, done, S k, i, st, cfg, roi, key0) ->
  exists n', exec Step n = Some n' /\
    view n' = (Advance, ft, dt, cnt, running, done, k, i, st, cfg, roi, key0).
Proof. intros H. view_step n H. Qed.

Lemma view_Advance n ft dt cnt running done k i st cfg roi key0 :
  view n = (Advance, ft, dt, cnt, running, done, k, i, st, cfg, roi, key0) ->
  exists n', exec Step n = Some n' /\
    view n' = (SpawnFetch, ft, dt, cnt, running, done, k, Ring.advance i, st, cfg, roi, key0).
Proof. intros H. view_step n H. Qed.

Lemma view_SpawnFetch n dt cnt running done k i st cfg roi key0 :
  view n = (SpawnFetch, NotJoinable, dt, cnt, running, done, k, i, st, cfg, roi, key0) ->
  exists n', exec Step n = Some n' /\
    view n' = (SpawnDetect, Running, dt, cnt, running, done, k, i, st, cfg, roi, key0).
Proof. intros H. view_step n H. Qed.

Lemma view_SpawnDetect n ft cnt running done k i st cfg roi key0 :
  view n = (SpawnDetect, ft, NotJoinable, cnt, running, done, k, i, st, cfg, roi, key0) ->
  exists n', exec Step n = Some n' /\
    view n' = (Display, ft, Running, cnt, running, done, k, i, st, cfg, roi, key0).
Proof. intros H. view_step n H. Qed.

Lemma view_FetchRuns n p dt cnt running done k i st cfg roi key0 :
  view n = (p, Running, dt, cnt, running, done, k, i, st, cfg, roi, key0) ->
  exists n', exec FetchRuns n = Some n' /\
    view n' = (p, Finished, dt, cnt, running, done, k, i, st, cfg, roi, key0).
Proof. intros H. view_step n H. Qed.

Lemma view_DetectRuns n dets p ft cnt running done k i st cfg roi key0 roi' num :
  view n = (p, ft, Running, cnt, running, done, k, i, st, cfg, roi, key0) ->
  Detect.extract (camDmapCopy_ st) (frameWidth_ st) (frameHeight_ st) dets
    (length (classLabels_ cfg)) roi = Some (roi', num) ->
  exists n', exec (DetectRuns dets) n = Some n' /\
    view n' = (p, ft, Finished, cnt, running, done, k, i, st, cfg, roi', key0).
Proof.
  intros H Hex. open_view n H. simpl. rewrite Hex. simpl.
  eexists; split; reflexivity.
Qed.

Lemma view_Display n ft dt cnt running done k i st cfg roi key0 :
  view n = (Display, ft, dt, cnt, running, done, k, i, st, cfg, roi, key0) ->
  exists n', exec Step n = Some n' /\
    view n' = (Publish, ft, dt, cnt, running, done || esc key0, k, i, st, cfg, roi,
               (-1)%Z).
Proof.
  intros H. open_view n H. simpl.
  unfold scheduler_step, Scheduler.displayInThread, esc. simpl.
  destruct (_ =? 27)%Z; simpl; eexists; (split; [reflexivity |]); unfold view; simpl;
    [now rewrite orb_true_r | now rewrite orb_false_r].
Qed.

Lemma view_Publish n ft dt cnt running done k i st cfg roi key0 :
  view n = (Publish, ft, dt, cnt, running, done, k, i, st, cfg, roi, key0) ->
  exists n', exec Step n = Some n' /\
    view n' = (JoinFetch, ft, dt, cnt, running, done, k, i, st, cfg, roi, key0).
Proof.
  intros H. open_view n H. simpl. unfold scheduler_step. simpl.
  pose proof (publish_keeps_roi (classLabels_ cfg) (frameWidth_ st) (frameHeight_ st)
                (subscribers ar) (ros_ok ar) rng srv (mkResults roi rb rc bbr)) as Hk.
  destruct (Pipeline.publishInThread _ _ _ _ _ _ _ _) as [[res srv'] out'].
  simpl in Hk. eexists. split; [reflexivity |]. unfold view. simpl. now rewrite Hk.
Qed.

Lemma view_JoinFetch n dt cnt running done k i st cfg roi key0 :
  view n = (JoinFetch, Finished, dt, cnt, running, done, k, i, st, cfg, roi, key0) ->
  exists n', exec Step n = Some n' /\
    view n' = (JoinDetect, NotJoinable, dt, cnt, running, done, k, i, st, cfg, roi, key0).
Proof. intros H. view_step n H. Qed.

Lemma view_JoinDetect n ft cnt running done k i st cfg roi key0 :
  view n = (JoinDetect, ft, Finished, cnt, running, done, k, i, st, cfg, roi, key0) ->
  exists n', exec Step n = Some n' /\
    view n' = (CheckRunning, ft, NotJoinable, cnt, running, done, k, i, st, cfg, roi, key0).
Proof. intros H. view_step n H. Qed.

Lemma view_CheckRunning n ft dt cnt running done k i st cfg roi key0 :
  view n = (CheckRunning, ft, dt, cnt, running, done, k, i, st, cfg, roi, key0) ->
  exists n', exec Step n = Some n' /\
    view n' = (LoopTest, ft, dt, (cnt + 1)%Z, running, negb running || done, k, i, st,
               cfg, roi, key0).
Proof.
  intros H. open_view n H. simpl. unfold scheduler_step. simpl.
  destruct running; simpl; eexists; split; reflexivity.
Qed.

Lemma view_LoopTest n ft dt cnt running done k i st cfg roi key0 :
  view n = (LoopTest, ft, dt, cnt, running, done, k, i, st, cfg, roi, key0) ->
  exists n', exec Step n = Some n' /\
    view n' = (if done then Returned else SemWait, ft, dt, cnt, running, done, k, i, st,
               cfg, roi, key0).
Proof.
  intros H. open_view n H. simpl. unfold scheduler_step. simpl.
  destruct done; simpl; eexists; split; reflexivity.
Qed.

(** X18: an iteration that finds a post on the semaphore runs to its end
    when the extraction stays inside its arrays (the depth map has the
    size of the frame, every detection has a score per class, [roiBoxes_]
    has room): the index is advanced, both workers are started and
    joined, [roiBoxes_] holds the result of the extraction, [count]
    grows by one and one post is taken.  The loop then goes back to
    [sem_wait], unless the escape key was read by [displayInThread] or
    the node was shut down; in these two cases, and only then,
    [demoDone_] is set and [yolo()] returns. *)
Theorem iteration_completes (n : node) (dets : list detection) (cnt : Z)
    (running : bool) (key0 : Z) (k : nat) (i : Z) (st : staging) (cfg : settings)
    (roi : list RosBox_) :
  view n = (SemWait, NotJoinable, NotJoinable, cnt, running, false, S k, i, st, cfg,
            roi, key0) ->
  Depth.covers_frame (camDmapCopy_ st) (frameWidth_ st) (frameHeight_ st) ->
  Forall (fun d => (length (classLabels_ cfg) <= length (prob d))%nat) dets ->
  (1 <= length roi)%nat ->
  (length (List.filter Detect.survives
             (Detect.candidates dets (length (classLabels_ cfg))))
   <= length roi)%nat ->
  let stop := negb running || esc key0 in
  exists n' roi',
    run (round dets) n = Some n' /\
    Detect.extract (camDmapCopy_ st) (frameWidth_ st) (frameHeight_ st) dets
      (length (classLabels_ cfg)) roi
    = Some (roi', length (List.filter Detect.survives
                            (Detect.candidates dets (length (classLabels_ cfg))))) /\
    view n' = (if stop then Returned else SemWait, NotJoinable, NotJoinable,
               (cnt + 1)%Z, running, stop, k, Ring.advance i, st, cfg, roi', (-1)%Z).
Proof.
  intros H0 Hcov Hprob H1 Hcap stop.
  destruct (extract_defined _ _ _ Hcov dets (length (classLabels_ cfg)) roi Hprob H1 Hcap)
    as [[roi' num] Hex].
  destruct (extract_spec _ _ _ _ _ _ _ _ Hex) as (Hnum & _).
  rewrite Hnum in Hex.
  destruct (view_SemWait _ _ _ _ _ _ _ _ _ _ _ _ H0) as (n1 & E1 & V1).
  destruct (view_Advance _ _ _ _ _ _ _ _ _ _ _ _ V1) as (n2 & E2 & V2).
  destruct (view_SpawnFetch _ _ _ _ _ _ _ _ _ _ _ V2) as (n3 & E3 & V3).
  destruct (view_SpawnDetect _ _ _ _ _ _ _ _ _ _ _ V3) as (n4 & E4 & V4).
  destruct (view_FetchRuns _ _ _ _ _ _ _ _ _ _ _ _ V4) as (n5 & E5 & V5).
  destruct (view_DetectRuns _ dets _ _ _ _ _ _ _ _ _ _ _ _ _ V5 Hex) as (n6 & E6 & V6).
  destruct (view_Display _ _ _ _ _ _ _ _ _ _ _ _ V6) as (n7 & E7 & V7).
  destruct (view_Publish _ _ _ _ _ _ _ _ _ _ _ _ V7) as (n8 & E8 & V8).
  destruct (view_JoinFetch _ _ _ _ _ _ _ _ _ _ _ V8) as (n9 & E9 & V9).
  destruct (view_JoinDetect _ _ _ _ _ _ _ _ _ _ _ V9) as (n10 & E10 & V10).
  destruct (view_CheckRunning _ _ _ _ _ _ _ _ _ _ _ _ V10) as (n11 & E11 & V11).
  destruct (view_LoopTest _ _ _ _ _ _ _ _ _ _ _ _ V11) as (n12 & E12 & V12).
  exists n12, roi'. split; [| split; [exact Hex | exact V12]].
  unfold round.
  rewrite (run_step _ _ _ _ _ _ E1), (run_step _ _ _ _ _ _ E2),
    (run_step _ _ _ _ _ _ E3), (run_step _ _ _ _ _ _ E4), (run_step _ _ _ _ _ _ E5),
    (run_step _ _ _ _ _ _ E6), (run_step _ _ _ _ _ _ E7), (run_step _ _ _ _ _ _ E8),
    (run_step _ _ _ _ _ _ E9), (run_step _ _ _ _ _ _ E10), (run_step _ _ _ _ _ _ E11),
    (run_step _ _ _ _ _ _ E12).
  reflexivity.
Qed.

End Round.

Lemma iteration_completes_witness :
  let n := default Examples.fresh
             (Scheduler.run Examples.to_bgr8 Examples.to_32fc1 Examples.start_up
                Examples.fresh) in
  let st := Ingest.staged (Scheduler.ingest n) in
  Depth.covers_frame (Ingest.camDmapCopy_ st) (Ingest.frameWidth_ st)
    (Ingest.frameHeight_ st) /\
  exists n',
    Scheduler.run Examples.to_bgr8 Examples.to_32fc1
      (Discipline.round [Examples.corner]) n = Some n' /\
    Scheduler.at_ (Scheduler.ctl n') = Scheduler.SemWait /\
    Scheduler.count (Scheduler.ctl n') = 1%Z.
Proof.
  intros n st.
  assert (Hcov : Depth.covers_frame (Ingest.camDmapCopy_ st) (Ingest.frameWidth_ st)
                   (Ingest.frameHeight_ st)).
  { vm_compute. repeat split; try reflexivity; intro; discriminate. }
  assert (Hview : Discipline.view n
                  = (Scheduler.SemWait, Scheduler.NotJoinable, Scheduler.NotJoinable,
                     0%Z, true, false, 1%nat, 0%Z, st, Scheduler.config n,
                     Pipeline.roiBoxes_ (Scheduler.results_ n), (-1)%Z))
    by (vm_compute; reflexivity).
  assert (Hprob : Forall (fun d => (length (Scheduler.classLabels_ (Scheduler.config n))
                                    <= length (prob d))%nat) [Examples.corner])
    by (repeat constructor).
  assert (H1 : (1 <= length (Pipeline.roiBoxes_ (Scheduler.results_ n)))%nat)
    by (vm_compute; lia).
  assert (Hcap : (length (List.filter Detect.survives
                            (Detect.candidates [Examples.corner]
                               (length (Scheduler.classLabels_ (Scheduler.config n)))))
                  <= length (Pipeline.roiBoxes_ (Scheduler.results_ n)))%nat)
    by (vm_compute; lia).
  clearbody n st.
  split; [exact Hcov |].
  destruct (iteration_completes Examples.to_bgr8 Examples.to_32fc1 n [Examples.corner]
              0 true (-1) 0 0 st (Scheduler.config n)
              (Pipeline.roiBoxes_ (Scheduler.results_ n)) Hview Hcov Hprob H1 Hcap)
    as (n' & roi' & Hrun & _ & Hv).
  exists n'. split; [exact Hrun |].
  unfold Discipline.view in Hv. injection Hv as Hat _ _ Hcnt _ _ _ _ _ _ _ _.
  split; [exact Hat | exact Hcnt].
Defined.

(** ** Requests while the camera is silent *)

Section Starved.

Import Ingest Pipeline Scheduler Discipline.

Variable toCvCopy_BGR8 : Image -> CvResult Z.
Variable toCvCopy_32FC1 : Image -> CvResult float.

Local Abbreviation exec := (Scheduler.exec toCvCopy_BGR8 toCvCopy_32FC1).
Local Abbreviation attempt := (Scheduler.attempt toCvCopy_BGR8 toCvCopy_32FC1).

Lemma quiet_step a n :
  quiet a = true -> waiting n ->
  let n' := default n (exec a n) in
  waiting n' /\ outbox n' = outbox n /\ count (ctl n') = count (ctl n) /\
  (isActive (actionServer (ingest n)) = true \/ is_request a = true ->
   isActive (actionServer (ingest n')) = true).
Proof.
  intros Ha Hw. pose proof Hw as [Hat Hsem].
  destruct a; try discriminate; cbv zeta.
  - rewrite waiting_cannot_step by exact Hw. simpl. intuition discriminate.
  - simpl. destruct (fetch_thread (ctl n)); simpl; intuition discriminate.
  - simpl. destruct (detect_thread (ctl n)); simpl; try (intuition discriminate).
    destruct (Detect.extract _ _ _ _ _ _); simpl; intuition discriminate.
  - simpl. unfold Scheduler.waiting, checkForObjectsActionGoalCB.
    destruct (toCvCopy_BGR8 (goal_image goal)); simpl; auto.
  - simpl. intuition discriminate.
  - simpl. intuition discriminate.
Qed.

(** X19: a request does not post the semaphore.  While [yolo()] waits in
    [sem_wait] on the empty semaphore, a request is accepted and then
    stays pending: whatever follows it apart from a streamed pair or a
    preemption (steps of the scheduler and of the workers, further
    requests, keys, the shutdown), the scheduler is still waiting, the
    goal is still active, [count] is unchanged and nothing has been
    sent, neither a count nor an answer. *)
Theorem request_waits_for_stream (goal : CheckForObjectsGoal) (tr : list action)
    (n : node) :
  waiting n -> forallb quiet tr = true ->
  let n' := attempt (Request goal :: tr) n in
  waiting n' /\ isActive (actionServer (ingest n')) = true /\
  outbox n' = outbox n /\ count (ctl n') = count (ctl n).
Proof.
  intros Hw Htr.
  assert (Hgen : forall tr m,
            forallb quiet tr = true -> waiting m ->
            isActive (actionServer (ingest m)) = true ->
            waiting (attempt tr m) /\
            isActive (actionServer (ingest (attempt tr m))) = true /\
            outbox (attempt tr m) = outbox m /\
            count (ctl (attempt tr m)) = count (ctl m)).
  { clear. intros tr. induction tr as [| a tr IH]; intros m Htr Hw Hact; simpl.
    - auto.
    - simpl in Htr. apply andb_prop in Htr. destruct Htr as [Ha Htr].
      destruct (quiet_step a m Ha Hw) as (Hw1 & Ho1 & Hc1 & Ha1).
      destruct (IH _ Htr Hw1 (Ha1 (or_introl Hact))) as (Hw2 & Ha2 & Ho2 & Hc2).
      repeat split; try apply Hw2; congruence. }
  intros n'. unfold n'. change (attempt (Request goal :: tr) n)
    with (attempt tr (default n (exec (Request goal) n))).
  destruct (quiet_step (Request goal) n eq_refl Hw) as (Hw1 & Ho1 & Hc1 & Ha1).
  destruct (Hgen tr _ Htr Hw1 (Ha1 (or_intror eq_refl))) as (Hw2 & Ha2 & Ho2 & Hc2).
  repeat split; try apply Hw2; congruence.
Qed.

End Starved.

Lemma request_waits_for_stream_witness :
  let n := default Examples.fresh
             (Scheduler.run Examples.to_bgr8 Examples.to_32fc1
                (Examples.start_up ++ Examples.iteration) Examples.fresh) in
  Scheduler.waiting n /\
  Ingest.isActive
    (Ingest.actionServer
       (Scheduler.ingest
          (Scheduler.attempt Examples.to_bgr8 Examples.to_32fc1
             [Scheduler.Request (mkGoal 10 Examples.request_frame);
              Scheduler.Step; Scheduler.KeyPressed 27; Scheduler.Step] n))) = true.
Proof.
  intros n.
  assert (Hw : Scheduler.waiting n) by (split; vm_compute; reflexivity).
  split; [exact Hw |].
  apply (request_waits_for_stream Examples.to_bgr8 Examples.to_32fc1
           (mkGoal 10 Examples.request_frame)
           [Scheduler.Step; Scheduler.KeyPressed 27; Scheduler.Step] n Hw).
  reflexivity.
Defined.

(** ** The keys of [displayInThread] *)

Section KeyFacts.

Import Keys.

Lemma le_refl_Fin (q : Q) : F.le (F.Fin q) (F.Fin q).
Proof. unfold F.le. simpl. apply Qle_bool_iff. apply Qle_refl. Qed.

Lemma F_le_trans (a b c : float) : F.le a b -> F.le b c -> F.le a c.
Proof.
  unfold F.le.
  destruct a as [| | | p], b as [| | | q], c as [| | | r]; simpl;
    try discriminate; try reflexivity.
  rewrite !Qle_bool_iff. apply Qle_trans.
Qed.

Lemma le_not_leb (a : float) (q : Q) :
  F.le a a -> F.leb a (F.Fin q) = false ->
  a = F.PInf \/ exists r, a = F.Fin r /\ (q <= r)%Q.
Proof.
  unfold F.le. destruct a as [| | | r]; simpl; try discriminate; auto.
  intros _ H. right. exists r. split; [reflexivity |].
  apply Qlt_le_weak. apply Qnot_le_lt. intros Hle.
  apply Qle_bool_iff in Hle. congruence.
Qed.

Variable to_float : Q -> float.

Hypothesis to_float_monotone : monotone to_float.
Hypothesis to_float_exact : exact_on_floats to_float.

Local Abbreviation store := (Keys.store to_float).
Local Abbreviation displayInThread := (Keys.displayInThread to_float).
Local Abbreviation displays := (Keys.displays to_float).
Local Abbreviation holds_floats := (Keys.holds_floats to_float).

Lemma to_float_le_self (q : Q) : F.le (to_float q) (to_float q).
Proof. apply to_float_monotone. apply Qle_refl. Qed.

(** A stored value is a [float]. *)
Lemma store_store (a : float) : F.le (store a) (store a) -> store (store a) = store a.
Proof.
  destruct a as [| | | q]; simpl; try reflexivity.
  destruct (to_float q) as [| | | r] eqn:E; simpl; try reflexivity.
  intros _. exact (to_float_exact q r E).
Qed.

(** A [float] not below a bound is not below what the bound is stored
    as. *)
Lemma bound_stored (q : Q) (a : float) :
  store a = a -> (a = F.PInf \/ exists r, a = F.Fin r /\ (q <= r)%Q) ->
  F.le (to_float q) a.
Proof.
  intros Hfl [-> | (r & -> & Hr)].
  - pose proof (to_float_le_self q) as H. unfold F.le in *.
    destruct (to_float q); simpl in *; congruence.
  - simpl in Hfl. rewrite <- Hfl. now apply to_float_monotone.
Qed.

(** An increment by [.02] keeps a lower bound. *)
Lemma raise_keeps_bound (c a : float) :
  store a = a -> F.le c a ->
  F.le c (store (F.add a (F.Fin d02))) /\
  store (store (F.add a (F.Fin d02))) = store (F.add a (F.Fin d02)).
Proof.
  intros Hfl Hc.
  assert (Hle : F.le a (store (F.add a (F.Fin d02)))).
  { destruct a as [| | | q]; simpl in *.
    - unfold F.le in Hc. destruct c; discriminate.
    - reflexivity.
    - reflexivity.
    - rewrite <- Hfl at 1. apply to_float_monotone.
      unfold d02. assert (0 <= 5764607523034235 # 288230376151711744)%Q
        by (unfold Qle; simpl; lia).
      lra. }
  split; [exact (F_le_trans _ _ _ Hc Hle) |].
  apply store_store.
  destruct a as [| | | q]; simpl; try reflexivity.
  - unfold F.le in Hc. destruct c; discriminate.
  - apply to_float_le_self.
Qed.

(** A decrement by [.02] followed by the clamp at [lo]. *)
Lemma lower_keeps_bound (lo : Q) (a : float) :
  store a = a -> F.le (to_float lo) a ->
  let b := store (F.sub a (F.Fin d02)) in
  let a' := if F.leb b (F.Fin lo) then store (F.Fin lo) else b in
  F.le (to_float lo) a' /\ store a' = a'.
Proof.
  intros Hfl Hc b a'.
  assert (Hb : F.le b b).
  { unfold b. destruct a as [| | | q]; simpl; try reflexivity.
    - unfold F.le in Hc. destruct (to_float lo); discriminate.
    - apply to_float_le_self. }
  assert (Hbb : store b = b) by (apply store_store; exact Hb).
  unfold a'. destruct (F.leb b (F.Fin lo)) eqn:E.
  - simpl. split; [apply to_float_le_self |].
    apply (store_store (F.Fin lo)). apply to_float_le_self.
  - split; [| exact Hbb].
    apply bound_stored; [exact Hbb |]. now apply le_not_leb.
Qed.

Lemma key_clamped (key : Z) (t : thresholds) :
  holds_floats t ->
  F.le (to_float d02) (demoThresh_ t) -> F.le (to_float 0) (demoHier_ t) ->
  holds_floats (displayInThread key t) /\
  F.le (to_float d02) (demoThresh_ (displayInThread key t)) /\
  F.le (to_float 0) (demoHier_ (displayInThread key t)) /\
  demoDone_ (displayInThread key t) = demoDone_ t || Discipline.esc key.
Proof.
  intros [Ft Fh] Ht Hh. unfold Keys.displayInThread, Discipline.esc, Keys.holds_floats.
  set (c := if (key =? -1)%Z then key else Z.rem key 256).
  destruct (c =? 27)%Z; [simpl; rewrite orb_true_r; auto |].
  rewrite orb_false_r.
  destruct (c =? 82)%Z.
  { destruct (raise_keeps_bound _ _ Ft Ht) as [H1 H2]. simpl. auto. }
  destruct (c =? 84)%Z.
  { destruct (lower_keeps_bound d02 _ Ft Ht) as [H1 H2]. simpl. auto. }
  destruct (c =? 83)%Z.
  { destruct (raise_keeps_bound _ _ Fh Hh) as [H1 H2]. simpl. auto. }
  destruct (c =? 81)%Z.
  { destruct (lower_keeps_bound 0 _ Fh Hh) as [H1 H2]. simpl. auto. }
  auto.
Qed.

(** X20: whatever keys are pressed, the detection threshold never falls
    below the value the clamp stores, which is the literal [.02]
    converted to [float] (0.0199999996, not the [double] .02), and the
    hierarchy threshold never below 0 converted to [float], once they are
    at least that: the decrement keys clamp, the increment keys only
    raise, every other key leaves both alone.  This holds for every
    conversion to [float] that is monotone and exact on [float]s, as
    rounding to nearest is.  [demoDone_] is set by the escape key (27
    modulo 256, but not when [cvWaitKey] returned -1) and by no other
    key, and no key clears it. *)
Theorem keys_keep_thresholds_clamped (keys : list Z) (t : thresholds) :
  holds_floats t ->
  F.le (to_float d02) (demoThresh_ t) -> F.le (to_float 0) (demoHier_ t) ->
  holds_floats (displays keys t) /\
  F.le (to_float d02) (demoThresh_ (displays keys t)) /\
  F.le (to_float 0) (demoHier_ (displays keys t)) /\
  demoDone_ (displays keys t) = demoDone_ t || existsb Discipline.esc keys.
Proof.
  unfold Keys.displays. revert t.
  induction keys as [| key keys IH]; intros t Hf Ht Hh; simpl.
  - rewrite orb_false_r. auto.
  - destruct (key_clamped key t Hf Ht Hh) as (Hf1 & Ht1 & Hh1 & Hd1).
    destruct (IH _ Hf1 Ht1 Hh1) as (Hf2 & Ht2 & Hh2 & Hd2).
    split; [exact Hf2 |]. split; [exact Ht2 |]. split; [exact Hh2 |].
    now rewrite Hd2, Hd1, orb_assoc.
Qed.

End KeyFacts.

(** The conversion of the examples has the two properties. *)
Lemma nearest_even_proper (x y : Q) :
  (x == y)%Q -> Keys.nearest_even x = Keys.nearest_even y.
Proof.
  intros E. unfold Keys.nearest_even.
  rewrite (Qfloor_comp x y E).
  assert (E2 : (x - inject_Z (Qfloor y) == y - inject_Z (Qfloor y))%Q) by (rewrite E; reflexivity).
  now rewrite (Qcompare_comp _ _ E2 (1 # 2) (1 # 2) (Qeq_refl _)).
Qed.

Lemma nearest_even_bounds (x : Q) :
  (Qfloor x <= Keys.nearest_even x <= Qfloor x + 1)%Z.
Proof.
  unfold Keys.nearest_even.
  destruct (x - inject_Z (Qfloor x) ?= 1 # 2)%Q; try lia.
  destruct (Z.even (Qfloor x)); lia.
Qed.

Lemma nearest_even_monotone (x y : Q) :
  (x <= y)%Q -> (Keys.nearest_even x <= Keys.nearest_even y)%Z.
Proof.
  intros Hxy. pose proof (Qfloor_resp_le x y Hxy) as Hf.
  pose proof (nearest_even_bounds x) as Bx. pose proof (nearest_even_bounds y) as By.
  destruct (Z.eq_dec (Qfloor x) (Qfloor y)) as [E | NE]; [| lia].
  unfold Keys.nearest_even in *. rewrite E in *.
  destruct (x - inject_Z (Qfloor y) ?= 1 # 2)%Q eqn:Cx;
    destruct (y - inject_Z (Qfloor y) ?= 1 # 2)%Q eqn:Cy;
    try lia; try (destruct (Z.even (Qfloor y)); lia).
  - apply Qeq_alt in Cx. apply Qlt_alt in Cy. lra.
  - apply Qgt_alt in Cx. apply Qeq_alt in Cy. lra.
  - apply Qgt_alt in Cx. apply Qlt_alt in Cy. lra.
Qed.

Lemma nearest_even_integer (z : Z) : Keys.nearest_even (inject_Z z) = z.
Proof.
  unfold Keys.nearest_even. rewrite Qfloor_Z.
  assert (C : (inject_Z z - inject_Z z ?= 1 # 2)%Q = Lt).
  { assert (E : (inject_Z z - inject_Z z == 0)%Q) by ring.
    now rewrite (Qcompare_comp _ _ E (1 # 2) (1 # 2) (Qeq_refl _)). }
  now rewrite C.
Qed.

Lemma to_grid_monotone : Keys.monotone Keys.to_grid.
Proof.
  intros p q Hpq. unfold Keys.to_grid, F.le. simpl. apply Qle_bool_iff.
  assert (H : (Keys.nearest_even (p * 536870912)
               <= Keys.nearest_even (q * 536870912))%Z).
  { apply nearest_even_monotone. lra. }
  rewrite Zle_Qle in H. unfold Qdiv. change (/ 536870912)%Q with (1 # 536870912)%Q.
  lra.
Qed.

Lemma to_grid_exact : Keys.exact_on_floats Keys.to_grid.
Proof.
  intros p q H. unfold Keys.to_grid in *. inversion H as [Hq]. clear H.
  f_equal. f_equal. f_equal.
  rewrite <- (nearest_even_integer (Keys.nearest_even (p * 536870912))) at 2.
  apply nearest_even_proper. field.
Qed.

Lemma keys_keep_thresholds_clamped_witness :
  let t := Keys.mkThresholds (Keys.to_grid (3 # 100)) (Keys.to_grid 0) false in
  let t' := Keys.displays Keys.to_grid [84; 84; 81; 1051]%Z t in
  Keys.to_grid Keys.d02 = F.Fin (inject_Z 10737418 / 536870912) /\
  F.le (Keys.to_grid Keys.d02) (Keys.demoThresh_ t') /\
  Keys.demoThresh_ t' = Keys.to_grid Keys.d02 /\
  F.leb (F.Fin Keys.d02) (Keys.demoThresh_ t') = false /\
  Keys.demoDone_ t' = true.
Proof.
  intros t t'.
  assert (Hf : Keys.holds_floats Keys.to_grid t).
  { split; apply (to_grid_exact _ _ eq_refl). }
  assert (Ht : F.le (Keys.to_grid Keys.d02) (Keys.demoThresh_ t))
    by (vm_compute; reflexivity).
  assert (Hh : F.le (Keys.to_grid 0) (Keys.demoHier_ t)) by (vm_compute; reflexivity).
  destruct (keys_keep_thresholds_clamped Keys.to_grid to_grid_monotone to_grid_exact
              [84; 84; 81; 1051]%Z t Hf Ht Hh) as (_ & H1 & _ & H3).
  split; [vm_compute; reflexivity |]. split; [exact H1 |].
  split; [vm_compute; reflexivity |]. split; [vm_compute; reflexivity | exact H3].
Defined.

(** ** The copy to the display image *)

Section DisplayCopy.

(** A loop whose body writes one element per item. *)
Lemma writes_spec {P B : Type} (idx : P -> nat) (val : P -> option B)
    (body : list B -> P -> option (list B)) :
  forall pts,
  (forall img pt v, pt ∈ pts -> val pt = Some v -> (idx pt < length img)%nat ->
     body img pt = Some (<[idx pt := v]> img)) ->
  forall img,
    (forall pt, pt ∈ pts -> is_Some (val pt) /\ (idx pt < length img)%nat) ->
    exists out,
      Detect.for_each body pts img = Some out /\ length out = length img /\
      (forall j, (forall pt, pt ∈ pts -> j <> idx pt) -> out !! j = img !! j) /\
      ((forall a b, a ∈ pts -> b ∈ pts -> idx a = idx b -> a = b) ->
       forall pt, pt ∈ pts -> out !! idx pt = val pt).
Proof.
  intros pts. induction pts as [| a pts IH]; intros Hbody img Hdef.
  - exists img. simpl. split; [reflexivity |]. split; [reflexivity |].
    split; [reflexivity |]. intros _ pt Hpt. now apply elem_of_nil in Hpt.
  - destruct (Hdef a) as [[v Hv] Hlt]; [left |].
    assert (Hain : a ∈ a :: pts) by left.
    pose proof (Hbody img a v Hain Hv Hlt) as Ha.
    destruct (IH (fun img pt v Hpt => Hbody img pt v (list_elem_of_further _ _ _ Hpt))
                (<[idx a := v]> img)) as (out & Hrun & Hlen & Hout & Hin).
    { intros pt Hpt. rewrite length_insert. apply Hdef. now right. }
    exists out. simpl. rewrite Ha. simpl.
    split; [exact Hrun |]. split; [now rewrite Hlen, length_insert |].
    split.
    + intros j Hj. rewrite Hout by (intros pt Hpt; apply Hj; now right).
      apply list_lookup_insert_ne. intros E. apply (Hj a); [left | now symmetry].
    + intros Hinj pt Hpt.
      assert (Hinj' : forall a0 b, a0 ∈ pts -> b ∈ pts -> idx a0 = idx b -> a0 = b).
      { intros a0 b Ha0 Hb. apply Hinj; now right. }
      apply elem_of_cons in Hpt. destruct Hpt as [-> | Hpt]; [| now apply Hin].
      destruct (decide (idx a ∈ idx <$> pts)) as [Hdup | Hfresh].
      * apply list_elem_of_fmap in Hdup. destruct Hdup as (b & Hb & Hbin).
        assert (a = b) by (apply Hinj; [left | now right | exact Hb]). subst b.
        now apply Hin.
      * rewrite Hout.
        -- rewrite list_lookup_insert_eq by exact Hlt. now symmetry.
        -- intros pt Hpt E. apply Hfresh. apply list_elem_of_fmap. eauto.
Qed.

Lemma elem_of_points (p : Display.image) (y x k : Z) :
  (y, x, k) ∈ Display.points p <->
  (0 <= y < Display.h p)%Z /\ (0 <= x < Display.w p)%Z /\ (0 <= k < Display.c p)%Z.
Proof.
  unfold Display.points. rewrite list_elem_of_bind. split.
  - intros (y' & H1 & Hy). apply list_elem_of_bind in H1.
    destruct H1 as (x' & H1 & Hx). apply list_elem_of_bind in H1.
    destruct H1 as (k' & H1 & Hk). apply list_elem_of_singleton in H1.
    inversion H1; subst. apply elem_of_seqZ in Hy, Hx, Hk. lia.
  - intros (Hy & Hx & Hk). exists y. split; [| apply elem_of_seqZ; lia].
    apply list_elem_of_bind. exists x. split; [| apply elem_of_seqZ; lia].
    apply list_elem_of_bind. exists k. split; [| apply elem_of_seqZ; lia].
    now apply list_elem_of_singleton.
Qed.

(** A value of the unit interval becomes a byte. *)
Lemma to_uchar_unit (v : float) :
  F.in_unit v ->
  exists q, v = F.Fin q /\
    Display.to_uchar (F.mul v (F.of_int 255)) = Some (F.Qtrunc (q * 255)) /\
    (0 <= F.Qtrunc (q * 255) <= 255)%Z.
Proof.
  intros [H0 H1]. unfold F.le in H0, H1.
  destruct v as [| | | q]; try discriminate.
  simpl in H0, H1. apply Qle_bool_iff in H0, H1.
  exists q. split; [reflexivity |].
  assert (Hq0 : (0 <= q * 255)%Q) by lra.
  assert (Hq1 : (q * 255 <= inject_Z 255)%Q).
  { unfold inject_Z. lra. }
  assert (Hb : (0 <= F.Qtrunc (q * 255) <= 255)%Z).
  { split; [| now apply Qtrunc_upper].
    rewrite Qtrunc_floor by exact Hq0. change 0%Z with (Qfloor 0).
    now apply Qfloor_resp_le. }
  split; [| exact Hb].
  unfold F.mul, F.of_int, Display.to_uchar, inject_Z.
  destruct (Z.leb_spec 0 (F.Qtrunc (q * 255))); [| lia].
  destruct (Z.leb_spec (F.Qtrunc (q * 255)) 255); [reflexivity | lia].
Qed.

Variable p : Display.image.
Variable disp : Display.IplImage.

Hypothesis w_nonneg : (0 <= Display.w p)%Z.
Hypothesis h_nonneg : (0 <= Display.h p)%Z.
Hypothesis c_nonneg : (0 <= Display.c p)%Z.
Hypothesis data_size :
  Z.of_nat (length (Display.data p)) = (Display.c p * Display.h p * Display.w p)%Z.
Hypothesis data_unit : Forall F.in_unit (Display.data p).
Hypothesis step_fits : (Display.w p * Display.c p <= Display.widthStep disp)%Z.
Hypothesis disp_size :
  (Display.h p * Display.widthStep disp
   <= Z.of_nat (length (Display.imageData disp)))%Z.

Local Abbreviation dst := (Display.target p (Display.widthStep disp)).
Local Abbreviation byte := (Display.byte p).

Lemma src_inside (y x k : Z) :
  (0 <= y < Display.h p)%Z -> (0 <= x < Display.w p)%Z -> (0 <= k < Display.c p)%Z ->
  (0 <= k * Display.h p * Display.w p + y * Display.w p + x
   < Display.c p * Display.h p * Display.w p)%Z.
Proof.
  intros Hy Hx Hk. split; [nia |].
  assert (k * Display.h p + y + 1 <= Display.c p * Display.h p)%Z by nia.
  nia.
Qed.

Lemma dst_inside (y x k : Z) :
  (0 <= y < Display.h p)%Z -> (0 <= x < Display.w p)%Z -> (0 <= k < Display.c p)%Z ->
  (0 <= x * Display.c p + k < Display.widthStep disp)%Z /\
  (0 <= y * Display.widthStep disp + x * Display.c p + k
   < Z.of_nat (length (Display.imageData disp)))%Z.
Proof.
  intros Hy Hx Hk.
  assert (H1 : (0 <= x * Display.c p + k < Display.widthStep disp)%Z) by nia.
  split; [exact H1 |]. nia.
Qed.

Lemma dst_injective (y x k y' x' k' : Z) :
  (0 <= y < Display.h p)%Z -> (0 <= x < Display.w p)%Z -> (0 <= k < Display.c p)%Z ->
  (0 <= y' < Display.h p)%Z -> (0 <= x' < Display.w p)%Z -> (0 <= k' < Display.c p)%Z ->
  (y * Display.widthStep disp + x * Display.c p + k
   = y' * Display.widthStep disp + x' * Display.c p + k')%Z ->
  y = y' /\ x = x' /\ k = k'.
Proof.
  intros Hy Hx Hk Hy' Hx' Hk' E.
  destruct (dst_inside y x k Hy Hx Hk) as [R _].
  destruct (dst_inside y' x' k' Hy' Hx' Hk') as [R' _].
  assert (y = y') by nia. subst y'.
  assert (x = x') by nia. subst x'.
  repeat split; lia.
Qed.

Lemma byte_defined (y x k : Z) :
  (0 <= y < Display.h p)%Z -> (0 <= x < Display.w p)%Z -> (0 <= k < Display.c p)%Z ->
  exists q,
    Display.data p
      !! Z.to_nat (k * Display.h p * Display.w p + y * Display.w p + x)
    = Some (F.Fin q) /\
    byte (y, x, k) = Some (F.Qtrunc (q * 255)) /\
    (0 <= F.Qtrunc (q * 255) <= 255)%Z.
Proof.
  intros Hy Hx Hk. pose proof (src_inside y x k Hy Hx Hk) as Hs.
  destruct (lookup_lt_is_Some_2 (Display.data p)
              (Z.to_nat (k * Display.h p * Display.w p + y * Display.w p + x)))
    as [v Hv]; [lia |].
  assert (Hu : F.in_unit v).
  { rewrite Forall_forall in data_unit. apply data_unit.
    now apply list_elem_of_lookup_2 in Hv. }
  destruct (to_uchar_unit v Hu) as (q & -> & Hb & Hr).
  exists q. split; [exact Hv |]. split; [| exact Hr].
  unfold Display.byte, Display.get_pixel. simpl.
  destruct (Z.ltb_spec x (Display.w p)); [| lia].
  destruct (Z.ltb_spec y (Display.h p)); [| lia].
  destruct (Z.ltb_spec k (Display.c p)); [| lia].
  simpl.
  destruct (Z.leb_spec 0 (k * Display.h p * Display.w p + y * Display.w p + x));
    [| lia].
  rewrite Hv. simpl. exact Hb.
Qed.

(** X21: the three loops of [displayInThread] turn the planar image
    into the interleaved display image.  When the image has the size its
    dimensions say, its values lie in [0,1], a row of the display image
    is long enough ([widthStep >= w*c]) and it has [h] rows, the copy is
    defined (no assertion of [get_pixel] fails, no conversion and no
    index is out of range), and afterwards byte [y*widthStep + x*c + k]
    is value [k*h*w + y*w + x] of the image scaled by 255 and truncated,
    a number in 0..255; all other bytes (the padding of the rows and what
    follows the last row) are untouched. *)
Theorem display_copy_interleaves :
  exists out,
    Display.copy p disp = Some out /\
    Display.widthStep out = Display.widthStep disp /\
    length (Display.imageData out) = length (Display.imageData disp) /\
    (forall y x k,
       (0 <= y < Display.h p)%Z -> (0 <= x < Display.w p)%Z ->
       (0 <= k < Display.c p)%Z ->
       exists q,
         Display.data p
           !! Z.to_nat (k * Display.h p * Display.w p + y * Display.w p + x)
         = Some (F.Fin q) /\
         Display.imageData out
           !! Z.to_nat (y * Display.widthStep disp + x * Display.c p + k)
         = Some (F.Qtrunc (q * 255)) /\
         (0 <= F.Qtrunc (q * 255) <= 255)%Z) /\
    (forall j,
       (forall y x k,
          (0 <= y < Display.h p)%Z -> (0 <= x < Display.w p)%Z ->
          (0 <= k < Display.c p)%Z ->
          j <> Z.to_nat (y * Display.widthStep disp + x * Display.c p + k)) ->
       Display.imageData out !! j = Display.imageData disp !! j).
Proof.
  destruct (writes_spec dst byte (Display.store p (Display.widthStep disp))
              (Display.points p)) with (img := Display.imageData disp)
    as (out & Hrun & Hlen & Hout & Hin).
  - intros img [[y x] k] v Hpt Hv Hlt. apply elem_of_points in Hpt.
    destruct Hpt as (Hy & Hx & Hk).
    destruct (dst_inside y x k Hy Hx Hk) as [_ Hd].
    unfold Display.byte in Hv. simpl in Hv. unfold Display.store.
    destruct (Display.get_pixel p x y k) as [f |]; [| discriminate].
    simpl in Hv |- *. rewrite Hv. simpl. unfold Display.target in Hlt |- *. simpl in Hlt |- *.
    destruct (Z.leb_spec 0 (y * Display.widthStep disp + x * Display.c p + k));
      [| lia].
    destruct (Z.ltb_spec (y * Display.widthStep disp + x * Display.c p + k)
                (Z.of_nat (length img))); [reflexivity | lia].
  - intros [[y x] k] Hpt. apply elem_of_points in Hpt. destruct Hpt as (Hy & Hx & Hk).
    destruct (byte_defined y x k Hy Hx Hk) as (q & _ & Hb & _).
    destruct (dst_inside y x k Hy Hx Hk) as [_ Hd].
    split; [eauto |]. unfold Display.target. simpl. lia.
  - exists (Display.mkIpl (Display.widthStep disp) out).
    unfold Display.copy. rewrite Hrun. simpl.
    split; [reflexivity |]. split; [reflexivity |]. split; [exact Hlen |]. split.
    + intros y x k Hy Hx Hk.
      destruct (byte_defined y x k Hy Hx Hk) as (q & Hsrc & Hb & Hr).
      exists q. split; [exact Hsrc |]. split; [| exact Hr].
      rewrite <- Hb. apply (Hin) with (pt := (y, x, k)).
      * intros [[y1 x1] k1] [[y2 x2] k2] H1 H2 E.
        apply elem_of_points in H1, H2.
        destruct H1 as (Hy1 & Hx1 & Hk1). destruct H2 as (Hy2 & Hx2 & Hk2).
        destruct (dst_inside y1 x1 k1 Hy1 Hx1 Hk1) as [_ D1].
        destruct (dst_inside y2 x2 k2 Hy2 Hx2 Hk2) as [_ D2].
        unfold Display.target in E. simpl in E.
        destruct (dst_injective y1 x1 k1 y2 x2 k2 Hy1 Hx1 Hk1 Hy2 Hx2 Hk2)
          as (-> & -> & ->); [lia | reflexivity].
      * now apply elem_of_points.
    + intros j Hj. apply Hout. intros [[y x] k] Hpt. apply elem_of_points in Hpt.
      destruct Hpt as (Hy & Hx & Hk). unfold Display.target. simpl. now apply Hj.
Qed.

End DisplayCopy.

Lemma display_copy_interleaves_witness :
  let p := Display.mkPlanes 2 1 3
             [F.Fin 1; F.Fin (1 # 2); F.zero; F.Fin (1 # 4); F.Fin 1; F.Fin (1 # 3)] in
  let disp := Display.mkIpl 8 (replicate 8 7%Z) in
  exists out,
    Display.copy p disp = Some out /\
    length (Display.imageData out) = 8%nat.
Proof.
  intros p disp.
  destruct (display_copy_interleaves p disp) as (out & Hrun & _ & Hlen & _).
  - simpl. lia.
  - simpl. lia.
  - simpl. lia.
  - reflexivity.
  - repeat constructor.
  - simpl. lia.
  - simpl. lia.
  - exists out. split; [exact Hrun | exact Hlen].
Defined.

(** ** From the callbacks to the extraction *)

Section StreamThenDetect.

Import Ingest.

Variable toCvCopy_BGR8 : Image -> CvResult Z.
Variable toCvCopy_32FC1 : Image -> CvResult float.

Local Abbreviation zedCameraCallback :=
  (Ingest.zedCameraCallback toCvCopy_BGR8 toCvCopy_32FC1).
Local Abbreviation checkForObjectsActionGoalCB :=
  (Ingest.checkForObjectsActionGoalCB toCvCopy_BGR8).


End StreamThenDetect.


(** ** The lag of the pipeline *)

Section Lag.

Import Ingest Pipeline Scheduler Discipline.

Variable toCvCopy_BGR8 : Image -> CvResult Z.
Variable toCvCopy_32FC1 : Image -> CvResult float.

Local Abbreviation exec := (Scheduler.exec toCvCopy_BGR8 toCvCopy_32FC1).
Local Abbreviation run := (Scheduler.run toCvCopy_BGR8 toCvCopy_32FC1).

(** [turn] is what the scheduler and the fetch worker do to the ring. *)
Lemma turn_is_advance_then_fetch (n : node) :
  at_ (ctl n) = Advance -> fetch_thread (ctl n) = NotJoinable ->
  exists n',
    run [Step; Step; FetchRuns] n = Some n' /\
    ring_ n' = turn (staged (ingest n)) (ring_ n) /\
    staged (ingest n') = staged (ingest n).
Proof.
  intros Hat Hft.
  destruct n as [[st sem srv lg] [p running done ft dt cnt] rng res ar cfg out].
  simpl in Hat, Hft. subst p ft. simpl. eexists. split; [reflexivity |].
  split; reflexivity.
Qed.

(** The ring after three iterations that fetched [s1], [s2], [s3]. *)
Lemma turn_three_times (s1 s2 s3 : staging) (r : ring) :
  ring_ok r ->
  let r2 := turn s2 (turn s1 r) in
  let r3 := turn s3 r2 in
  let waiting3 :=
    mkRing (Ring.advance (buffIndex_ r2)) (buff_ r2) (headerBuff_ r2) (buffId_ r2) in
  ring_ok r3 /\ buffIndex_ r3 = buffIndex_ r /\ buffIndex_ waiting3 = buffIndex_ r /\
  (forall r', r' = r3 \/ r' = waiting3 ->
     buff_ r' !! Z.to_nat (Ring.detect_slot (buffIndex_ r')) = Some (camImageCopy_ s2) /\
     buff_ r' !! Z.to_nat (Ring.display_slot (buffIndex_ r')) = Some (camImageCopy_ s1) /\
     headerBuff_ r' !! Z.to_nat (Ring.display_slot (buffIndex_ r'))
     = Some (imageHeader_ s1)) /\
  buff_ r3 !! Z.to_nat (Ring.fetch_slot (buffIndex_ r3)) = Some (camImageCopy_ s3) /\
  buffId_ r3 !! Z.to_nat (Ring.fetch_slot (buffIndex_ r3)) = Some (actionId_ s3).
Proof.
  intros (Hi & Hb & Hh & Hd).
  destruct r as [i b hb ids]. simpl in Hi, Hb, Hh, Hd.
  destruct b as [| b0 [| b1 [| b2 [| ? ?]]]]; try discriminate.
  destruct hb as [| h0 [| h1 [| h2 [| ? ?]]]]; try discriminate.
  destruct ids as [| i0 [| i1 [| i2 [| ? ?]]]]; try discriminate.
  destruct (in_ring_cases i Hi) as [-> | [-> | ->]]; intros r2 r3 waiting3;
    (split; [vm_compute; repeat split; solve [reflexivity | intro; discriminate] |]);
    (split; [reflexivity |]); (split; [reflexivity |]);
    (split; [intros r' [-> | ->]; repeat split; reflexivity |]);
    split; reflexivity.
Qed.

(** The header [publishInThread] puts on its box message is the one in
    the display slot. *)
Lemma published_header labels fw fh subscribers ok (r : ring) (srv : server)
    (res : results) (hdr : Header) :
  headerBuff_ r !! Z.to_nat (Ring.display_slot (buffIndex_ r)) = Some hdr ->
  (0 < rb_num (roiBoxes_ res !!! O) <= 100)%Z ->
  image_header
    <$> box_messages (publishInThread labels fw fh subscribers ok r srv res).2
  = [hdr].
Proof.
  intros Hh Hnum.
  destruct (publishInThread_parts labels fw fh subscribers ok r srv res)
    as (_ & _ & ->).
  unfold publish_boxes.
  destruct (Z.ltb_spec 0 (rb_num (roiBoxes_ res !!! O))); [| lia].
  destruct (Z.leb_spec (rb_num (roiBoxes_ res !!! O)) 100); [| lia].
  simpl. now rewrite (list_lookup_total_correct _ _ _ Hh).
Qed.

(** X23: the ring delays a frame by one iteration for detection and by
    two for display and publication.  After three iterations that
    fetched the stagings [s1], [s2], [s3], the slot [detectInThread]
    reads holds the frame of [s2]; the slot whose image
    [displayInThread] shows holds the frame of [s1]; the header that
    [publishInThread] puts on its box message (for a count in 1..100) is
    the header of [s1]; and slot [buffIndex_] holds the frame and the
    request id of [s3].  This holds before and after the third fetch has
    run, since it writes another slot.  (Which detection the published
    boxes come from depends on whether [detectInThread] has finished, and
    is not part of the statement.) *)
Theorem frames_lag_behind (s1 s2 s3 : staging) (r : ring) :
  ring_ok r ->
  let r2 := turn s2 (turn s1 r) in
  let r3 := turn s3 r2 in
  let waiting3 :=
    mkRing (Ring.advance (buffIndex_ r2)) (buff_ r2) (headerBuff_ r2) (buffId_ r2) in
  ring_ok r3 /\ buffIndex_ r3 = buffIndex_ r /\ buffIndex_ waiting3 = buffIndex_ r /\
  (forall r', r' = r3 \/ r' = waiting3 ->
     buff_ r' !! Z.to_nat (Ring.detect_slot (buffIndex_ r')) = Some (camImageCopy_ s2) /\
     buff_ r' !! Z.to_nat (Ring.display_slot (buffIndex_ r')) = Some (camImageCopy_ s1) /\
     headerBuff_ r' !! Z.to_nat (Ring.display_slot (buffIndex_ r'))
     = Some (imageHeader_ s1) /\
     forall labels fw fh subscribers ok srv res,
       (0 < rb_num (roiBoxes_ res !!! O) <= 100)%Z ->
       image_header
         <$> box_messages (publishInThread labels fw fh subscribers ok r' srv res).2
       = [imageHeader_ s1]) /\
  buff_ r3 !! Z.to_nat (Ring.fetch_slot (buffIndex_ r3)) = Some (camImageCopy_ s3) /\
  buffId_ r3 !! Z.to_nat (Ring.fetch_slot (buffIndex_ r3)) = Some (actionId_ s3).
Proof.
  intros Hok r2 r3 waiting3.
  destruct (turn_three_times s1 s2 s3 r Hok) as (H1 & H2 & H3 & H4 & H5 & H6).
  split; [exact H1 |]. split; [exact H2 |]. split; [exact H3 |].
  split; [| split; [exact H5 | exact H6]].
  intros r' Hr'. destruct (H4 r' Hr') as (Hd & Hs & Hh).
  split; [exact Hd |]. split; [exact Hs |]. split; [exact Hh |].
  intros labels fw fh subscribers ok srv res Hnum.
  now apply published_header.
Qed.

End Lag.

Lemma frames_lag_behind_witness :
  Discipline.ring_ok (Scheduler.ring_ Examples.fresh) /\
  Pipeline.headerBuff_
    (Discipline.turn (Ingest.staged Examples.streamed)
       (Discipline.turn (Ingest.staged Examples.streamed)
          (Discipline.turn (Ingest.staged Examples.streamed)
             (Scheduler.ring_ Examples.fresh))))
  !! 1%nat = Some (mkHeader 7 1000 "zed_left").
Proof.
  assert (Hok : Discipline.ring_ok (Scheduler.ring_ Examples.fresh)).
  { unfold Discipline.ring_ok, Ring.in_ring. simpl. repeat split; lia. }
  split; [exact Hok |].
  destruct (frames_lag_behind (Ingest.staged Examples.streamed)
              (Ingest.staged Examples.streamed) (Ingest.staged Examples.streamed)
              (Scheduler.ring_ Examples.fresh) Hok) as (_ & _ & _ & H & _).
  destruct (H _ (or_introl eq_refl)) as (_ & _ & Hh & _). exact Hh.
Defined.
